(** * The configuration pipeline of [xero_map_gen/config.py]

    A shallow embedding of the module: Python values and exceptions, the
    [traitlets] [Config] dictionary with its section auto-creation and its
    recursive [merge], the [posixpath] functions used by the path resolver,
    the argument-loader classes, and the functions of [config.py] itself.

    Conventions.
    - A [Config] is a [gmap string pyval]; a Python [dict] whose iteration
      order is observable ([aliases], [flags], keyword arguments, the parsed
      namespace) is an association list in insertion order.  [Config.merge]
      iterates over a [Config]: the order of that iteration is taken from
      the library ([items_order]).
    - A function that mutates a [Config] in place returns the updated value
      next to its result.  A layer handed to [merge_source] is recorded by
      value; in Python the sections a layer contributes are shared with the
      accumulated config afterwards.
    - A function that can raise returns a [result].
    - Calls that only write to the logging subsystem ([setup_logging],
      [ROOT_LOGGER.info], ...) are left out; the attribute accesses made to
      build their arguments are kept, since they can create sections. *)

From stdpp Require Import gmap strings list fin_maps pretty.
From Stdlib Require Import ZArith Ascii.
From Stdlib Require Import Floats.PrimFloat.

#[local] Set Warnings "-register-all".
#[local] Open Scope Z_scope.

(** ** Python values *)

Inductive pyval : Type :=
  | VNone
  | VBool (b : bool)
  | VInt (z : Z)
  | VFloat (f : float)
  | VStr (s : string)
  | VList (l : list pyval)
  | VDict (d : gmap string pyval)
  | VConfig (c : gmap string pyval)   (* traitlets.config.loader.Config *)
  | VLazy                             (* traitlets LazyConfigValue() *)
  | VObject (cls : string).           (* any other object, by class name *)

(** [bool(v)]: the truth value Python gives to [v]. *)
Definition truthy (v : pyval) : bool :=
  match v with
  | VNone => false
  | VBool b => b
  | VInt z => negb (z =? 0)
  | VFloat f => negb (PrimFloat.eqb f 0%float)
  | VStr s => negb (String.eqb s "")
  | VList l => match l with [] => false | _ => true end
  | VDict d | VConfig d => negb (bool_decide (d = ∅))
  | VLazy | VObject _ => true
  end.

(** [v == ''] *)
Definition is_empty_str (v : pyval) : bool :=
  match v with VStr s => String.eqb s "" | _ => false end.

Definition is_config (v : pyval) : bool :=
  match v with VConfig _ => true | _ => false end.

(** ** Exceptions and results *)

Inductive exn : Type :=
  | ConfigException (msg : string)      (* config.py, line 37 *)
  | ConfigFileNotFound (msg : string)   (* traitlets.config.loader *)
  | ArgumentError (msg : string)        (* traitlets.config.loader *)
  | ArgparseError (msg : string)        (* argparse.ArgumentError *)
  | AssertionError (msg : string)
  | NameError (name : string)
  | KeyError (key : string)
  | ValueError (msg : string)
  | TypeError
  | AttributeError
  | SystemExit
  | OtherError (cls msg : string).      (* raised by a collaborator *)

Inductive result (A : Type) : Type :=
  | Return (a : A)
  | Raise (e : exn).
Arguments Return {A} a.
Arguments Raise {A} e.

#[global] Instance result_ret : MRet result := λ A a, Return a.
#[global] Instance result_bind : MBind result := λ A B k m,
  match m with
  | Return a => k a
  | Raise e => Raise e
  end.

#[global] Instance result_fmap : FMap result := λ A B f m,
  match m with
  | Return a => Return (f a)
  | Raise e => Raise e
  end.

Definition is_Return {A} (r : result A) : bool :=
  match r with Return _ => true | Raise _ => false end.

(** A loop that threads a state through the elements of a list and stops
    at the first exception. *)
Fixpoint foldM {A B} (f : A → B → result A) (a : A) (l : list B) : result A :=
  match l with
  | [] => Return a
  | b :: r => a' ← f a b; foldM f a' r
  end.

(** ** Strings *)

(** [s.startswith(p)] *)
Fixpoint startswith (s p : string) {struct p} : bool :=
  match p, s with
  | EmptyString, _ => true
  | String _ _, EmptyString => false
  | String a p', String b s' => Ascii.eqb a b && startswith s' p'
  end.

Fixpoint endswith_char (s : string) (c : ascii) : bool :=
  match s with
  | EmptyString => false
  | String a EmptyString => Ascii.eqb a c
  | String _ r => endswith_char r c
  end.

Fixpoint char_in (c : ascii) (s : string) : bool :=
  match s with
  | EmptyString => false
  | String a r => Ascii.eqb a c || char_in c r
  end.

(** [hay] contains [needle] as a substring. *)
Definition contains (needle hay : string) : Prop :=
  ∃ pre post, hay = pre +:+ needle +:+ post.

(** [needle in hay] on strings *)
Fixpoint substring_b (needle hay : string) : bool :=
  startswith hay needle ||
  match hay with
  | EmptyString => false
  | String _ r => substring_b needle r
  end.

(** [k in v] for a string [k], by the membership test of the built-in
    types: key membership on a [dict] ([dict.__contains__], which a [Config]
    inherits), substring test on a string, element test on a list. *)
Definition in_value (k : string) (v : pyval) : result bool :=
  match v with
  | VConfig d | VDict d => Return (bool_decide (is_Some (d !! k)))
  | VStr s => Return (substring_b k s)
  | VList l =>
      Return (existsb (λ x, match x with VStr s => String.eqb s k | _ => false end) l)
  | VNone | VBool _ | VInt _ | VFloat _ | VLazy | VObject _ => Raise TypeError
  end.

(** ** Insertion-ordered dictionaries *)

Fixpoint dict_get {V} (k : string) (d : list (string * V)) : option V :=
  match d with
  | [] => None
  | (k', v) :: r => if String.eqb k k' then Some v else dict_get k r
  end.

(** [d[k] = v]: an existing key keeps its position, a new key goes last. *)
Fixpoint dict_set {V} (k : string) (v : V) (d : list (string * V))
  : list (string * V) :=
  match d with
  | [] => [(k, v)]
  | (k', v') :: r =>
      if String.eqb k k' then (k, v) :: r else (k', v') :: dict_set k v r
  end.

Definition dict_mem {V} (k : string) (d : list (string * V)) : bool :=
  match dict_get k d with Some _ => true | None => false end.

(** [d.update(e)] *)
Definition dict_update {V} (d e : list (string * V)) : list (string * V) :=
  fold_left (λ acc kv, dict_set kv.1 kv.2 acc) e d.

(** ** traitlets.config.loader.Config *)

Module Config.

Definition is_lower (c : ascii) : bool :=
  let n := nat_of_ascii c in (97 <=? n)%nat && (n <=? 122)%nat.

(** [_is_section_key]: [key and key[0].upper() == key[0] and not
    key.startswith('_')] (on ASCII, only a-z differ from their upper case). *)
Definition _is_section_key (key : string) : bool :=
  match key with
  | EmptyString => false
  | String c _ => negb (is_lower c) && negb (startswith key "_")
  end.

(** [Config.__getitem__]: a missing section key is created as an empty
    [Config], a missing ordinary key as a [LazyConfigValue], and a missing
    key that starts with an underscore raises [KeyError]. *)
Definition getitem (key : string) (c : gmap string pyval)
  : result (pyval * gmap string pyval) :=
  match c !! key with
  | Some v => Return (v, c)
  | None =>
      if _is_section_key key then Return (VConfig ∅, <[key := VConfig ∅]> c)
      else if negb (startswith key "_") then Return (VLazy, <[key := VLazy]> c)
      else Raise (KeyError key)
  end.

(** [Config.__setitem__] (also reached through [__setattr__]). *)
Definition setitem (key : string) (v : pyval) (c : gmap string pyval)
  : result (gmap string pyval) :=
  if _is_section_key key && negb (is_config v)
  then Raise (ValueError "values whose keys begin with an uppercase char must be Config instances")
  else Return (<[key := v]> c).

(** [key in self] ([Config.__contains__]).  A key without a dot is looked
    up in the dictionary.  A key with a dot is split at its first dot,
    [first, remainder = key.split('.', 1)]: the test is false when [first]
    is not a key, and is [remainder in self[first]] otherwise, whatever
    [self[first]] is.  [first] collects the characters read so far. *)
Fixpoint contains_from (first key : string) (self : gmap string pyval)
  : result bool :=
  match key with
  | EmptyString => Return (bool_decide (is_Some (self !! first)))
  | String c remainder =>
      if Ascii.eqb c "." then
        match self !! first with
        | None => Return false
        | Some (VConfig d) => contains_from "" remainder d
        | Some v => in_value remainder v
        end
      else contains_from (first +:+ String c "") remainder self
  end.

Definition __contains__ (key : string) (self : gmap string pyval)
  : result bool :=
  contains_from "" key self.

(** The keys of [other] in the order in which [other.items()] yields them:
    the order given by [order], made into an enumeration of the keys (a
    key that [order] leaves out comes first, of a key listed twice the last
    position counts). *)
Definition items_keys (order : gmap string pyval → list string)
    (other : gmap string pyval) : list string :=
  remove_dups ((map_to_list other).*1 ++ order other).

(** One round of the loop of [Config.merge], for the key [k] of [other]:
    [st] is [self] and [to_update].  [inplace] holds, for each key [self]
    had when the loop started, the recursive merge into the item under that
    key.  A section that [self[k]] creates in this round is empty, and
    merging [v] into it leaves the items of [v]. *)
Definition merge_step (inplace : gmap string (gmap string pyval → result pyval))
    (other : gmap string pyval)
    (st : gmap string pyval * gmap string pyval) (k : string)
  : result (gmap string pyval * gmap string pyval) :=
  let '(self, to_update) := st in
  match other !! k with
  | None => Return st
  | Some v =>
      present ← __contains__ k self;
      if negb present then Return (self, <[k := v]> to_update)
      else
        match v with
        | VConfig o =>
            '(mine, self) ← getitem k self;
            match mine with
            | VConfig _ =>
                merged ← match inplace !! k with
                         | Some merge_mine => merge_mine o
                         | None => Return (VConfig o)
                         end;
                Return (<[k := merged]> self, to_update)
            | _ => Return (self, <[k := v]> to_update)
            end
        | _ => Return (self, <[k := v]> to_update)
        end
  end.

(** The loop of [Config.merge] and the final [self.update(to_update)]. *)
Definition merge_loop (order : gmap string pyval → list string)
    (inplace : gmap string (gmap string pyval → result pyval))
    (self other : gmap string pyval) : result (gmap string pyval) :=
  '(self, to_update) ← foldM (merge_step inplace other) (self, ∅)
                         (items_keys order other);
  Return (to_update ∪ self).

(** [mine.merge(theirs)] for an item [mine] of a config that is itself a
    [Config]; the result is the item as the merge leaves it. *)
Fixpoint merge_into (order : gmap string pyval → list string) (mine : pyval)
    (theirs : gmap string pyval) {struct mine} : result pyval :=
  match mine with
  | VConfig self =>
      VConfig <$> merge_loop order (merge_into order <$> self) self theirs
  | _ => Return (VConfig theirs)
  end.

(** [self.merge(other)] (traitlets 4.3): [for k, v in other.items()], a key
    that is not [in self] is put into [to_update]; a key that is, is merged
    in place when [v] and [self[k]] are both a [Config] and put into
    [to_update] otherwise; then [self.update(to_update)]. *)
Definition merge (order : gmap string pyval → list string)
    (self other : gmap string pyval) : result (gmap string pyval) :=
  merge_loop order (merge_into order <$> self) self other.

End Config.


(** The value of field [k] of section [s], when [c] holds a [Config] under [s]. *)
Definition field (s k : string) (c : gmap string pyval) : option pyval :=
  match c !! s with
  | Some (VConfig sec) => sec !! k
  | _ => None
  end.

(** Field [k] of section [s] is not set in layer [c]: the layer has no such
    section, or its section has no such key. *)
Definition unset (s k : string) (c : gmap string pyval) : Prop :=
  c !! s = None ∨ ∃ sec, c !! s = Some (VConfig sec) ∧ sec !! k = None.

(** [k in v] for a string [k]: the membership test of a [Config], or of
    the built-in types. *)
Definition py_contains (k : string) (v : pyval) : result bool :=
  match v with
  | VConfig d => Config.__contains__ k d
  | _ => in_value k v
  end.

(** [v.get(k)]: only a [dict] (or [Config]) has the method. *)
Definition py_get (k : string) (v : pyval) : result (option pyval) :=
  match v with
  | VConfig d | VDict d => Return (d !! k)
  | _ => Raise AttributeError
  end.

(** [**v] in a call: [v] must be a mapping. *)
Definition py_kwargs (v : pyval) : result (gmap string pyval) :=
  match v with
  | VConfig d | VDict d => Return d
  | _ => Raise TypeError
  end.

(** Attribute reads and writes reach the items of a [Config] only. *)
Definition as_config (v : pyval) : result (gmap string pyval) :=
  match v with
  | VConfig d => Return d
  | _ => Raise AttributeError
  end.

(** ** The operating system, as the module sees it *)

Record os_state : Type := {
  environ : gmap string string;         (* os.environ *)
  getcwd : string;                      (* os.getcwd() *)
  pw_dir_uid : option string;           (* pwd.getpwuid(os.getuid()).pw_dir *)
  pw_dir_name : string → option string; (* pwd.getpwnam(name).pw_dir *)
  path_exists : string → bool;          (* os.path.exists *)
}.

(** ** posixpath *)

Module posixpath.

Definition sep : ascii := "/"%char.

Definition isabs (s : string) : bool := startswith s "/".

(** [s.split('/')] *)
Fixpoint split_sep (s : string) : list string :=
  match s with
  | EmptyString => [EmptyString]
  | String c r =>
      if Ascii.eqb c sep then EmptyString :: split_sep r
      else match split_sep r with
           | [] => [String c EmptyString]
           | h :: t => String c h :: t
           end
  end.

(** ['/'.join(l)] *)
Fixpoint join_sep (l : list string) : string :=
  match l with
  | [] => EmptyString
  | [x] => x
  | x :: r => x +:+ String sep (join_sep r)
  end.

Fixpoint slashes (n : nat) : string :=
  match n with
  | O => EmptyString
  | S m => String sep (slashes m)
  end.

(** POSIX allows one or two initial slashes, but treats three or more as
    a single slash. *)
Definition initial_slashes (path : string) : nat :=
  if startswith path "/" then
    if startswith path "//" && negb (startswith path "///") then 2%nat
    else 1%nat
  else 0%nat.

(** One round of the loop of [normpath]; [new_comps] is kept in reverse,
    so that its last element is the head. *)
Definition norm_step (initial : nat) (new_comps : list string) (comp : string)
  : list string :=
  if decide (comp = "" ∨ comp = ".") then new_comps
  else if decide (comp ≠ ".." ∨ (initial = 0%nat ∧ new_comps = [])
                  ∨ head new_comps = Some "..")
  then comp :: new_comps
  else tail new_comps.

Definition normpath (path : string) : string :=
  if decide (path = "") then "."
  else
    let initial := initial_slashes path in
    let comps := rev (fold_left (norm_step initial) (split_sep path) []) in
    let path := slashes initial +:+ join_sep comps in
    if decide (path = "") then "." else path.

(** [join(a, b)] with a single second argument. *)
Definition join (a b : string) : string :=
  if startswith b "/" then b
  else if bool_decide (a = "") || endswith_char a sep then a +:+ b
  else a +:+ String sep b.

Definition abspath (os : os_state) (path : string) : string :=
  normpath (if isabs path then path else join (getcwd os) path).

(** [\w] under [re.ASCII] *)
Definition is_word (c : ascii) : bool :=
  let n := nat_of_ascii c in
  ((48 <=? n) && (n <=? 57) || (65 <=? n) && (n <=? 90)
   || (97 <=? n) && (n <=? 122) || (n =? 95))%nat.

(** The longest prefix of word characters, and the rest. *)
Fixpoint span_word (s : string) : string * string :=
  match s with
  | EmptyString => (EmptyString, EmptyString)
  | String c r =>
      if is_word c then let '(w, rest) := span_word r in (String c w, rest)
      else (EmptyString, s)
  end.

(** The text up to the first closing brace, and the text after it. *)
Fixpoint until_brace (s : string) : option (string * string) :=
  match s with
  | EmptyString => None
  | String c r =>
      if Ascii.eqb c "}" then Some (EmptyString, r)
      else '(n, rest) ← until_brace r; Some (String c n, rest)
  end.

(** A match of [\$(\w+|\{[^}]*\})] whose dollar sign has just been read:
    the variable name, the matched text without the dollar, the rest. *)
Definition match_var (s : string) : option (string * string * string) :=
  match s with
  | String "{" r =>
      '(n, rest) ← until_brace r; Some (n, "{" +:+ n +:+ "}", rest)
  | _ =>
      let '(w, rest) := span_word s in
      if decide (w = "") then None else Some (w, w, rest)
  end.

(** The loop of [expandvars] from index [i] on: [s] is [path[i:]].  A
    variable that is set is replaced by its value and the search goes on
    behind the value; one that is not set is kept. *)
Fixpoint expandvars_from (os : os_state) (fuel : nat) (s : string) : string :=
  match fuel, s with
  | O, _ => s
  | S fuel, EmptyString => EmptyString
  | S fuel, String c r =>
      if Ascii.eqb c "$" then
        match match_var r with
        | Some (name, text, rest) =>
            match environ os !! name with
            | Some value => value +:+ expandvars_from os fuel rest
            | None => String c text +:+ expandvars_from os fuel rest
            end
        | None => String c (expandvars_from os fuel r)
        end
      else String c (expandvars_from os fuel r)
  end.

Definition expandvars (os : os_state) (path : string) : string :=
  if negb (char_in "$" path) then path
  else expandvars_from os (S (String.length path)) path.

(** [s.rstrip('/')] *)
Fixpoint rstrip_sep (s : string) : string :=
  match s with
  | EmptyString => EmptyString
  | String c r =>
      match rstrip_sep r with
      | EmptyString => if Ascii.eqb c sep then EmptyString else String c EmptyString
      | r' => String c r'
      end
  end.

(** The text before the first slash, and the text from that slash on. *)
Fixpoint break_sep (s : string) : string * string :=
  match s with
  | EmptyString => (EmptyString, EmptyString)
  | String c r =>
      if Ascii.eqb c sep then (EmptyString, s)
      else let '(a, b) := break_sep r in (String c a, b)
  end.

Definition expanduser (os : os_state) (path : string) : string :=
  match path with
  | String "~" r =>
      let '(name, tail) := break_sep r in     (* path[1:i], path[i:] *)
      let userhome :=
        if decide (name = "") then
          match environ os !! "HOME" with
          | Some h => Some h
          | None => pw_dir_uid os
          end
        else pw_dir_name os name in
      match userhome with
      | None => path
      | Some h =>
          let res := rstrip_sep h +:+ tail in
          if decide (res = "") then "/" else res
      end
  | _ => path
  end.

(** [s.rfind(c)], -1 when [c] does not occur. *)
Fixpoint rfind (c : ascii) (s : string) : Z :=
  match s with
  | EmptyString => -1
  | String a r =>
      let i := rfind c r in
      if 0 <=? i then i + 1 else if Ascii.eqb a c then 0 else -1
  end.

(** The [while] loop of [genericpath._splitext]: from [filenameIndex],
    within the next [n] characters, is there one that is not a dot? *)
Fixpoint has_non_dot (p : string) (filenameIndex n : nat) : bool :=
  match n with
  | O => false
  | S m =>
      match String.get filenameIndex p with
      | Some c =>
          if Ascii.eqb c "." then has_non_dot p (S filenameIndex) m else true
      | None => true
      end
  end.

Definition splitext (p : string) : string * string :=
  let sepIndex := rfind sep p in
  let dotIndex := rfind "." p in
  if (sepIndex <? dotIndex)
     && has_non_dot p (Z.to_nat (sepIndex + 1)) (Z.to_nat (dotIndex - (sepIndex + 1)))
  then (String.substring 0 (Z.to_nat dotIndex) p,
        String.substring (Z.to_nat dotIndex)
          (String.length p - Z.to_nat dotIndex) p)
  else (p, EmptyString).

End posixpath.

(** ** Command-line loaders

    [argparse] and the [traitlets] loaders [ArgParseConfigLoader] and
    [KVArgParseConfigLoader], as far as [config.py] drives them. *)

(** The value of a flag: the sections to update and, per section, the items,
    as in [{'LogConfig': {'stream_log_level': 'DEBUG'}}]. *)
Definition flagcfg : Type := list (string * list (string * pyval)).

(** Values of the keyword arguments given to [add_argument]. *)
Inductive kwval : Type :=
  | KStr (s : string)
  | KSuppress                 (* argparse.SUPPRESS *)
  | KTextType                 (* six.text_type *)
  | KConst (c : flagcfg).

(** What is left of an alias or flag description once its ['trait'] or
    ['value'] has been popped. *)
Record extension : Type := {
  add_args : option (list string);
  add_kwargs : option (list (string * kwval));
  section : option string;
}.

(** [bool(values)] for such a dictionary *)
Definition ext_nonempty (e : extension) : bool :=
  bool_decide (is_Some (add_args e)) || bool_decide (is_Some (add_kwargs e))
  || bool_decide (is_Some (section e)).

(** The description of an alias ([X := string], the trait) or of a flag
    ([X := flagcfg * string], the value and its help). *)
Record described (X : Type) : Type := {
  main : option X;
  ext : extension;
}.
Arguments main {X} d.
Arguments ext {X} d.

(** One call of [parser.add_argument]: the positional and the keyword
    arguments. *)
Record argument : Type := {
  option_strings : list string;
  arg_kwargs : list (string * kwval);
}.

(** What [parse_known_args] leaves in the namespace under a [dest]. *)
Inductive nsval : Type :=
  | NStr (s : string)
  | NNone
  | NConsts (l : list flagcfg).

Inductive parsed : Type :=
  | Parsed (ns : list (string * nsval)) (extra_args : list string)
  | ParserExit.               (* parser.error() or --help: SystemExit *)

Inductive file_loader : Type := PyFileConfigLoader | JSONFileConfigLoader.

(** What [ast.literal_eval] does with a text, as far as [_exec_config_str]
    tells it apart. *)
Inductive literal : Type :=
  | Literal (v : pyval)     (* the value of the expression *)
  | NotLiteral              (* it raises NameError, SyntaxError or ValueError *)
  | Uncaught (e : exn).     (* it raises another exception: TypeError, ... *)

(** Behaviour of libraries and of modules of the package that are outside
    this file, taken as given. *)
Record library : Type := {
  PKG_NAME : string;
  DESCRIPTION : string;
  (* ast.literal_eval on the texts that [ast.literal_eval] below leaves open *)
  literal_eval_rest : string → literal;
  (* the keys of a Config in the order in which its items() yields them *)
  items_order : gmap string pyval → list string;
  (* argparse on argument vectors that [parse_fragment] below leaves open *)
  argparse_rest : list argument → list string → parsed;
  (* KeyValueConfigLoader().load_config(extra_args), then its config *)
  kv_load_config : list string → result (gmap string pyval);
  (* loader_class(path, path=path).load_config() *)
  file_load_config : file_loader → string → result (gmap string pyval);
  (* helper.TraitValidation *)
  not_falsey : pyval → string → result unit;
  trait_path_exists : pyval → result unit;
  (* str() of a value other than None, a bool, an int or a string *)
  py_repr : pyval → string;
}.

(** [str(v)], as used by the [%s] conversion *)
Definition pystr (lib : library) (v : pyval) : string :=
  match v with
  | VNone => "None"
  | VBool true => "True"
  | VBool false => "False"
  | VInt z => pretty z
  | VStr s => s
  | _ => py_repr lib v
  end.

Module ast.

Definition is_name_start (c : ascii) : bool :=
  let n := nat_of_ascii c in
  ((65 <=? n) && (n <=? 90) || (97 <=? n) && (n <=? 122) || (n =? 95))%nat.

Definition is_name_or_dot (c : ascii) : bool :=
  let n := nat_of_ascii c in
  ((48 <=? n) && (n <=? 57) || (65 <=? n) && (n <=? 90)
   || (97 <=? n) && (n <=? 122) || (n =? 95) || (n =? 46))%nat.

Fixpoint all_chars (p : ascii → bool) (s : string) : bool :=
  match s with
  | EmptyString => true
  | String c r => p c && all_chars p r
  end.

(** A text that starts with a letter or an underscore and consists of
    letters, digits, underscores and dots.  It is a name, a keyword, a
    chain of attribute references, or no expression at all. *)
Definition name_like (s : string) : bool :=
  match s with
  | EmptyString => false
  | String c r => is_name_start c && all_chars is_name_or_dot r
  end.

Definition digit (c : ascii) : option Z :=
  let n := nat_of_ascii c in
  if ((48 <=? n) && (n <=? 57))%nat then Some (Z.of_nat n - 48) else None.

Fixpoint decimal_from (acc : Z) (s : string) : option Z :=
  match s with
  | EmptyString => Some acc
  | String c r => d ← digit c; decimal_from (10 * acc + d) r
  end.

(** A decimal integer literal without sign and without a leading zero, of
    at most 4300 digits (longer ones are refused by recent versions of
    Python). *)
Definition decimal (s : string) : option Z :=
  match s with
  | EmptyString => None
  | String "0" EmptyString => Some 0
  | String "0" _ => None
  | _ => if (String.length s <=? 4300)%nat then decimal_from 0 s else None
  end.

(** The part of [literal_eval] spelled out here: the three constant
    names; any other text that is [name_like], which parses to a name or an
    attribute reference (a malformed node: ValueError) or does not parse
    (SyntaxError); a decimal integer.  The library decides on the rest. *)
Definition literal_eval (lib : library) (s : string) : literal :=
  if String.eqb s "None" then Literal VNone
  else if String.eqb s "True" then Literal (VBool true)
  else if String.eqb s "False" then Literal (VBool false)
  else if name_like s then NotLiteral
  else match decimal s with
       | Some z => Literal (VInt z)
       | None => literal_eval_rest lib s
       end.

End ast.

Module argparse.

(** The parser as [ArgumentParser(...)] leaves it: the help option. *)
Definition new_parser : list argument :=
  [ {| option_strings := ["-h"; "--help"];
       arg_kwargs := [("action", KStr "help"); ("dest", KStr "help");
                      ("default", KSuppress)] |} ].

Definition registered (s : string) (parser : list argument) : bool :=
  existsb (λ a, existsb (String.eqb s) (option_strings a)) parser.

(** [add_argument]: an option string that is already taken is a conflict. *)
Definition add_argument (parser : list argument) (args : list string)
    (kw : list (string * kwval)) : result (list argument) :=
  if existsb (λ s, registered s parser) args
  then Raise (ArgparseError "conflicting option string")
  else Return (parser ++ [ {| option_strings := args; arg_kwargs := kw |} ]).

Inductive action : Type :=
  | Store (dest : string) (optional_value : bool)   (* nargs None or '?' *)
  | AppendConst (dest : string) (const : flagcfg)
  | Help.

Definition action_of (a : argument) : option action :=
  match dict_get "action" (arg_kwargs a), dict_get "dest" (arg_kwargs a) with
  | None, Some (KStr d) =>
      match dict_get "nargs" (arg_kwargs a) with
      | None => Some (Store d false)
      | Some (KStr "?") => Some (Store d true)
      | _ => None
      end
  | Some (KStr "append_const"), Some (KStr d) =>
      match dict_get "const" (arg_kwargs a) with
      | Some (KConst c) => Some (AppendConst d c)
      | _ => None
      end
  | Some (KStr "help"), _ => Some Help
  | _, _ => None
  end.

Definition find_action (tok : string) (parser : list argument) : option argument :=
  find (λ a, existsb (String.eqb tok) (option_strings a)) parser.

(** The defaults put into the namespace before parsing: those given as a
    string to [add_argument] (the parser-wide default is [SUPPRESS]). *)
Fixpoint defaults (parser : list argument) (ns : list (string * nsval))
  : list (string * nsval) :=
  match parser with
  | [] => ns
  | a :: r =>
      match dict_get "dest" (arg_kwargs a), dict_get "default" (arg_kwargs a) with
      | Some (KStr d), Some (KStr v) =>
          defaults r (if dict_mem d ns then ns else dict_set d (NStr v) ns)
      | _, _ => defaults r ns
      end
  end.

Definition append_const (d : string) (c : flagcfg) (ns : list (string * nsval))
  : list (string * nsval) :=
  match dict_get d ns with
  | Some (NConsts l) => dict_set d (NConsts (l ++ [c])) ns
  | _ => dict_set d (NConsts [c]) ns
  end.

(** The part of [parse_known_args] spelled out here: every token that
    starts with a dash is exactly a registered option string; an option
    that stores a value takes the next token, which does not start with a
    dash; any other token is left over.  [None] outside this part. *)
Fixpoint parse_fragment (parser : list argument) (toks : list string)
    (ns : list (string * nsval)) (extras : list string) : option parsed :=
  match toks with
  | [] => Some (Parsed ns extras)
  | t :: rest =>
      if startswith t "-" then
        a ← find_action t parser;
        act ← action_of a;
        match act with
        | AppendConst d c => parse_fragment parser rest (append_const d c ns) extras
        | Store d false =>
            match rest with
            | [] => Some ParserExit        (* expected one argument *)
            | v :: rest' =>
                if startswith v "-" then None
                else parse_fragment parser rest' (dict_set d (NStr v) ns) extras
            end
        | Store _ true => None
        | Help => Some ParserExit
        end
      else parse_fragment parser rest ns (extras ++ [t])
  end.

Definition parse_known_args (lib : library) (parser : list argument)
    (argv : list string) : parsed :=
  if forallb (λ a, bool_decide (is_Some (action_of a))) parser then
    match parse_fragment parser argv (defaults parser []) [] with
    | Some r => r
    | None => argparse_rest lib parser argv
    end
  else argparse_rest lib parser argv.

End argparse.

(** The loader object: the attributes set by the constructors. *)
Record loader : Type := {
  aliases : list (string * string);
  flags : list (string * (flagcfg * string));
  alias_extensions : list (string * extension);
  flag_extensions : list (string * extension);
  description : string;
}.

(** *** traitlets.config.loader.KVArgParseConfigLoader *)

Module KVArgParseConfigLoader.

(** [exec('self.config.<lhs> = value')] along the dotted path [lhs]. *)
Fixpoint set_path (path : list string) (value : pyval) (c : gmap string pyval)
  : result (gmap string pyval) :=
  match path with
  | [] => Return c
  | [k] => Config.setitem k value c
  | k :: rest =>
      '(sub, c') ← Config.getitem k c;
      match sub with
      | VConfig d =>
          d' ← set_path rest value d; Return (<[k := VConfig d']> c')
      | VLazy =>
          (* a plain attribute of the LazyConfigValue object *)
          match rest with [_] => Return c' | _ => Raise AttributeError end
      | _ => Raise AttributeError
      end
  end.

Fixpoint split_dots (s : string) : list string :=
  match s with
  | EmptyString => [EmptyString]
  | String c r =>
      if Ascii.eqb c "." then EmptyString :: split_dots r
      else match split_dots r with
           | [] => [String c EmptyString]
           | h :: t => String c h :: t
           end
  end.

(** The first lines of [_exec_config_str(lhs, rhs)] (traitlets 4.3): [rhs =
    os.path.expanduser(rhs)], then [value = literal_eval(rhs)], or [value =
    rhs] when that raises NameError, SyntaxError or ValueError. *)
Definition rhs_value (os : os_state) (lib : library) (rhs : string)
  : result pyval :=
  let rhs := posixpath.expanduser os rhs in
  match ast.literal_eval lib rhs with
  | Literal v => Return v
  | NotLiteral => Return (VStr rhs)
  | Uncaught e => Raise e
  end.

(** [_exec_config_str(lhs, rhs)]: the value, then the assignment. *)
Definition _exec_config_str (os : os_state) (lib : library) (lhs rhs : string)
    (c : gmap string pyval) : result (gmap string pyval) :=
  value ← rhs_value os lib rhs;
  set_path (split_dots lhs) value c.

(** [_load_flag(cfg)]: [for sec, c in cfg.items(): self.config[sec].update(c)].
    The update of a [LazyConfigValue] stays inside that object. *)
Fixpoint _load_flag (cfg : flagcfg) (c : gmap string pyval)
  : result (gmap string pyval) :=
  match cfg with
  | [] => Return c
  | (sec, items) :: r =>
      '(sub, c') ← Config.getitem sec c;
      match sub with
      | VConfig d => _load_flag r (<[sec := VConfig (list_to_map items ∪ d)]> c')
      | VDict d => _load_flag r (<[sec := VDict (list_to_map items ∪ d)]> c')
      | VLazy => _load_flag r c'
      | _ => Raise AttributeError
      end
  end.

Definition pyval_of_flagcfg (cfg : flagcfg) : pyval :=
  VDict (list_to_map (map (λ '(sec, items), (sec, VDict (list_to_map items))) cfg)).

(** The first loop of [_convert_to_config], over the namespace without
    [_flags]: [None] stands for a flag that shares the name of an alias; a
    list of constants is no path for [os.path.expanduser]. *)
Fixpoint convert_values (os : os_state) (lib : library)
    (alias_flags : list (string * flagcfg))
    (ns : list (string * nsval)) (subcs : list flagcfg) (c : gmap string pyval)
  : result (list flagcfg * gmap string pyval) :=
  match ns with
  | [] => Return (subcs, c)
  | (k, v) :: r =>
      match v with
      | NNone =>
          match dict_get k alias_flags with
          | Some f => convert_values os lib alias_flags r (subcs ++ [f]) c
          | None => Raise (KeyError k)
          end
      | NStr rhs =>
          c' ← _exec_config_str os lib k rhs c;
          convert_values os lib alias_flags r subcs c'
      | NConsts l => Raise TypeError
      end
  end.

Fixpoint load_flags (subcs : list flagcfg) (c : gmap string pyval)
  : result (gmap string pyval) :=
  match subcs with
  | [] => Return c
  | subc :: r => c' ← _load_flag subc c; load_flags r c'
  end.

Definition _convert_to_config (os : os_state) (lib : library)
    (alias_flags : list (string * flagcfg))
    (ns : list (string * nsval)) (extra_args : list string)
  : result (gmap string pyval) :=
  subcs ← match dict_get "_flags" ns with
          | Some (NConsts l) => Return l
          | Some _ => Raise TypeError
          | None => Return []
          end;
  let ns := filter (λ kv, kv.1 ≠ "_flags") ns in
  '(subcs, c) ← convert_values os lib alias_flags ns subcs ∅;
  c ← load_flags subcs c;
  match extra_args with
  | [] => Return c
  | _ => sub ← kv_load_config lib extra_args; Config.merge (items_order lib) c sub
  end.

End KVArgParseConfigLoader.

(** *** RichKVArgParseConfigLoader (config.py, lines 40-147) *)

Module RichKVArgParseConfigLoader.

(** The loop over [aliases.items()] of [__init__].  The loop variable
    [alias] stays bound to the last key after the loop. *)
Fixpoint init_aliases (l : list (string * described string))
    (super_aliases : list (string * string))
    (alias_extensions : list (string * extension)) (alias : option string)
  : result (list (string * string) * list (string * extension) * option string) :=
  match l with
  | [] => Return (super_aliases, alias_extensions, alias)
  | (a, values) :: r =>
      match main values with
      | None => Raise (AssertionError "alias values must contain a trait")
      | Some t =>
          init_aliases r (dict_set a t super_aliases)
            (if ext_nonempty (ext values)
             then dict_set a (ext values) alias_extensions
             else alias_extensions)
            (Some a)
      end
  end.

(** The loop over [flags.items()] of [__init__]; line 102 stores the
    extension under [alias], the variable of the loop before. *)
Fixpoint init_flags (l : list (string * described (flagcfg * string)))
    (alias : option string)
    (super_flags : list (string * (flagcfg * string)))
    (flag_extensions : list (string * extension))
  : result (list (string * (flagcfg * string)) * list (string * extension)) :=
  match l with
  | [] => Return (super_flags, flag_extensions)
  | (flag, values) :: r =>
      match main values with
      | None => Raise (AssertionError "flag value dict must contain a value")
      | Some v =>
          if ext_nonempty (ext values) then
            match alias with
            | Some a =>
                init_flags r alias (dict_set flag v super_flags)
                  (dict_set a (ext values) flag_extensions)
            | None => Raise (NameError "alias")
            end
          else init_flags r alias (dict_set flag v super_flags) flag_extensions
      end
  end.

Definition __init__ (aliases0 : list (string * described string))
    (flags0 : list (string * described (flagcfg * string)))
    (description0 : string) : result loader :=
  '(super_aliases, alias_extensions0, alias) ← init_aliases aliases0 [] [] None;
  '(super_flags, flag_extensions0) ← init_flags flags0 alias [] [];
  Return {| aliases := super_aliases; flags := super_flags;
            alias_extensions := alias_extensions0;
            flag_extensions := flag_extensions0;
            description := description0 |}.

(** [['-'+key] if len(key) is 1 else ['--'+key]] *)
Definition default_switch (key : string) : list string :=
  if (String.length key =? 1)%nat then ["-" +:+ key] else ["--" +:+ key].

(** [extensions.get(key, {}).get('add_args', [])], replaced by the default
    switch when empty. *)
Definition switches (extensions : list (string * extension)) (key : string)
  : list string :=
  match dict_get key extensions ≫= add_args with
  | Some (a :: l) => a :: l
  | _ => default_switch key
  end.

(** [extensions.get(key, {}).get('add_kwargs', {})] *)
Definition extra_kwargs (extensions : list (string * extension)) (key : string)
  : list (string * kwval) :=
  default [] (dict_get key extensions ≫= add_kwargs).

(** The loop over the aliases of [_add_arguments]. *)
Fixpoint add_alias_arguments (self : loader) (l : list (string * string))
    (parser : list argument) : result (list argument) :=
  match l with
  | [] => Return parser
  | (key, value) :: r =>
      let args := switches (alias_extensions self) key in
      let kw := [("dest", KStr value); ("type", KTextType)] in
      let kw := dict_update kw (extra_kwargs (alias_extensions self) key) in
      let kw := if dict_mem key (flags self)
                then dict_set "nargs" (KStr "?") kw else kw in
      parser' ← argparse.add_argument parser args kw;
      add_alias_arguments self r parser'
  end.

(** The loop over the flags of [_add_arguments]. *)
Fixpoint add_flag_arguments (self : loader)
    (l : list (string * (flagcfg * string)))
    (alias_flags : list (string * flagcfg)) (parser : list argument)
  : result (list (string * flagcfg) * list argument) :=
  match l with
  | [] => Return (alias_flags, parser)
  | (key, (value, help)) :: r =>
      match dict_get key (aliases self) with
      | Some trait =>
          add_flag_arguments self r (dict_set trait value alias_flags) parser
      | None =>
          let args := switches (flag_extensions self) key in
          let kw := [("dest", KStr "_flags"); ("action", KStr "append_const");
                     ("const", KConst value); ("help", KStr help)] in
          let kw := dict_update kw (extra_kwargs (flag_extensions self) key) in
          parser' ← argparse.add_argument parser args kw;
          add_flag_arguments self r alias_flags parser'
      end
  end.

Definition _add_arguments (self : loader) (parser : list argument)
  : result (list (string * flagcfg) * list argument) :=
  parser' ← add_alias_arguments self (aliases self) parser;
  add_flag_arguments self (flags self) [] parser'.

(** [ArgParseConfigLoader.load_config(argv)]: a fresh config, the parser
    built by [_add_arguments], then parsing and conversion. *)
Definition load_config (os : os_state) (lib : library) (self : loader)
    (argv : list string) : result (gmap string pyval) :=
  '(alias_flags, parser) ← _add_arguments self argparse.new_parser;
  match argparse.parse_known_args lib parser argv with
  | ParserExit => Raise SystemExit
  | Parsed ns extra_args =>
      KVArgParseConfigLoader._convert_to_config os lib alias_flags ns extra_args
  end.

End RichKVArgParseConfigLoader.

(** ** config.py *)

(** *** RichConfigurable (lines 149-172) *)

(** A trait of a configurable class: its metadata tags (the [switch] tag
    apart) and its default value. *)
Record trait : Type := {
  switch : option string;
  metadata : list (string * kwval);
  default_value : pyval;
}.

(** A subclass of [RichConfigurable]: its name and the traits it declares. *)
Record configurable : Type := {
  __name__ : string;
  traits : list (string * trait);
}.

Module RichConfigurable.

(** The traits every [Configurable] inherits. *)
Definition inherited : list (string * trait) :=
  [ ("config", {| switch := None; metadata := []; default_value := VConfig ∅ |});
    ("parent", {| switch := None; metadata := []; default_value := VNone |}) ].

Fixpoint insert_sorted (m : string * trait) (l : list (string * trait))
  : list (string * trait) :=
  match l with
  | [] => [m]
  | x :: r => if String.leb m.1 x.1 then m :: l else x :: insert_sorted m r
  end.

(** [getmembers(cls)], restricted to the traits: sorted by name. *)
Definition getmembers (cls : configurable) : list (string * trait) :=
  foldr insert_sorted [] (traits cls ++ inherited).

(** [re.sub('_', '-', key)] *)
Fixpoint dashed (key : string) : string :=
  match key with
  | EmptyString => EmptyString
  | String c r => String (if Ascii.eqb c "_" then "-"%char else c) (dashed r)
  end.

Definition lower_char (c : ascii) : ascii :=
  let n := nat_of_ascii c in
  if ((65 <=? n) && (n <=? 90))%nat then ascii_of_nat (n + 32) else c.

Fixpoint lower (s : string) : string :=
  match s with
  | EmptyString => EmptyString
  | String c r => String (lower_char c) (lower r)
  end.

(** [trait_meta.pop('switch', re.sub('_', '-', key))] *)
Definition alias_key (key : string) (t : trait) : string :=
  default (dashed key) (switch t).

Definition alias_dict (lib : library) (cls : configurable) (key : string)
    (t : trait) : described string :=
  let trait_meta := metadata t in
  let kw := if is_empty_str (default_value t) then trait_meta
            else dict_update trait_meta
                   [("default", KStr (pystr lib (default_value t)))] in
  {| main := Some (__name__ cls +:+ "." +:+ key);
     ext := {| add_args := None; add_kwargs := Some kw;
               section := Some (lower (__name__ cls)) |} |}.

(** The loop of [trait_argparse_aliases]: [aliases[alias_key] = alias_dict]. *)
Fixpoint collect (lib : library) (cls : configurable)
    (members : list (string * trait))
    (aliases : list (string * described string))
  : list (string * described string) :=
  match members with
  | [] => aliases
  | (key, t) :: r =>
      if bool_decide (key = "config" ∨ key = "parent")
      then collect lib cls r aliases
      else collect lib cls r
             (dict_set (alias_key key t) (alias_dict lib cls key t) aliases)
  end.

Definition trait_argparse_aliases (lib : library) (cls : configurable)
  : list (string * described string) :=
  collect lib cls (getmembers cls) [].

End RichConfigurable.

(** *** RichConfig (lines 174-181) *)

Module RichConfig.

(** [RichConfig()]: an empty [Config] whose [__setattr__] stores the
    [_sources] dictionary as an item. *)
Definition __init__ : gmap string pyval := {[ "_sources" := VDict ∅ ]}.

(** [merge_source]: [self._sources[name] = other], then [self.merge(other)]. *)
Definition merge_source (lib : library) (name : string)
    (other : gmap string pyval) (self : gmap string pyval)
  : result (gmap string pyval) :=
  match self !! "_sources" with
  | None => Raise AttributeError
  | Some (VDict d) =>
      Config.merge (items_order lib)
        (<["_sources" := VDict (<[name := VConfig other]> d)]> self) other
  | Some (VConfig d) =>
      Config.merge (items_order lib)
        (<["_sources" := VConfig (<[name := VConfig other]> d)]> self) other
  | Some _ => Raise TypeError
  end.

End RichConfig.

(** *** The configurable classes (lines 183-288) *)

Definition dq : string := String "034"%char EmptyString.

Definition Unicode (default : string) (sw : option string)
    (meta : list (string * kwval)) : trait :=
  {| switch := sw; metadata := meta; default_value := VStr default |}.

Definition Integer (sw : option string) (meta : list (string * kwval)) : trait :=
  {| switch := sw; metadata := meta; default_value := VInt 0 |}.

Definition XeroApiConfig : configurable :=
  {| __name__ := "XeroApiConfig";
     traits :=
       [ ("rsa_key_path", Unicode "" (Some "xero-key-path")
            [("metavar", KStr "PATH");
             ("help", KStr "The path to the Xero API RSA key file")]);
         ("consumer_key", Unicode "" (Some "xero-consumer-key")
            [("metavar", KStr "KEY");
             ("help", KStr "The Xero API Consumer Key")]) ] |}.

Definition LogConfig (lib : library) : configurable :=
  {| __name__ := "LogConfig";
     traits :=
       [ ("stream_log_level", Unicode "WARNING" (Some "verbosity")
            [("metavar", KStr "LEVEL");
             ("help", KStr "Set custom message output level")]);
         ("file_log_level", Unicode "DEBUG" None
            [("metavar", KStr "LEVEL"); ("help", KSuppress)]);
         ("log_dir", Unicode "" None
            [("metavar", KStr "PATH");
             ("help", KStr "Directory containing log files")]);
         ("log_path", Unicode (PKG_NAME lib +:+ ".log") None
            [("metavar", KStr "PATH"); ("help", KSuppress)]) ] |}.

Definition BaseConfig : configurable :=
  {| __name__ := "BaseConfig";
     traits :=
       [ ("contact_limit", Integer None
            [("metavar", KStr "LIMIT");
             ("help", KStr "Limit the number of contacts downloaded from the API")]);
         ("config_dir", Unicode "" None
            [("metavar", KStr "PATH");
             ("help", KStr "Directory containing config files")]);
         ("config_path", Unicode "" None
            [("metavar", KStr "PATH");
             ("help", KStr "Load extra config from file relative to config_dir if provided")]);
         ("data_dir", Unicode "" None
            [("metavar", KStr "PATH");
             ("help", KStr "Directory to dump data")]);
         ("dump_path", Unicode "contacts.csv" None
            [("metavar", KStr "PATH");
             ("help", KStr "Location where CSV data is dumped relative to data_dir if provided")]) ] |}.

Definition FilterConfig : configurable :=
  {| __name__ := "FilterConfig";
     traits :=
       [ ("contact_groups", Unicode "" (Some "filter-contact-groups")
            [("metavar", KStr (dq +:+ "GROUP1|GROUP2" +:+ dq));
             ("help", KStr "Filter by Xero contact group names separated by '|'")]);
         ("states", Unicode "" (Some "filter-states")
            [("metavar", KStr (dq +:+ "STATE1|STATE2" +:+ dq));
             ("help", KStr "Filter by main address state. Separate states with '|'")]);
         ("countries", Unicode "" (Some "filter-countries")
            [("metavar", KStr (dq +:+ "COUNTRY1|COUNTRY2" +:+ dq));
             ("help", KStr "Filter by main address country. Separate countries with '|'")]) ] |}.

(** The cross-validators (lines 193-203, 259-264, 271-276, 283-288).  A
    proposal is the dictionary the validator receives; [self.__class__]
    prints as [class_repr]. *)
Definition class_repr (cls : configurable) : string :=
  "<class 'xero_map_gen.config." +:+ __name__ cls +:+ "'>".

Definition _valid_rsa_key_path (lib : library) (proposal : gmap string pyval)
  : result pyval :=
  match proposal !! "rsa_key_path" with
  | None => Raise (KeyError "rsa_key_path")
  | Some v =>
      _ ← trait_path_exists lib v;
      Return v                        (* return proposal['rsa_key_path'] *)
  end.

(** The common shape of the four other validators: the check, and no
    [return] statement. *)
Definition not_falsey_validator (lib : library) (cls : configurable)
    (name : string) (proposal : gmap string pyval) : result pyval :=
  match proposal !! name with
  | None => Raise (KeyError name)
  | Some v =>
      _ ← not_falsey lib v (class_repr cls +:+ "." +:+ name);
      Return VNone
  end.

Definition _valid_consumer_key (lib : library) :=
  not_falsey_validator lib XeroApiConfig "consumer_key".
Definition _valid_contact_groups (lib : library) :=
  not_falsey_validator lib FilterConfig "contact_groups".
Definition _valid_states (lib : library) :=
  not_falsey_validator lib FilterConfig "states".
Definition _valid_countries (lib : library) :=
  not_falsey_validator lib FilterConfig "countries".

(** [traitlets.TraitType._cross_validate]: the registered validator is
    called with the proposal [{'trait': ..., 'value': value, 'owner': ...}]
    and what it returns is the value that is stored. *)
Definition _cross_validate (validator : gmap string pyval → result pyval)
    (value : pyval) : result pyval :=
  validator {[ "trait" := VObject "TraitType"; "value" := value;
               "owner" := VObject "Configurable" ]}.

(** *** get_argparse_loader (lines 290-321) *)

Definition builtin_flag (level help : string) (args : list string)
  : described (flagcfg * string) :=
  {| main := Some ([("LogConfig", [("stream_log_level", VStr level)])], help);
     ext := {| add_args := Some args; add_kwargs := None;
               section := Some "logging" |} |}.

Definition builtin_flags : list (string * described (flagcfg * string)) :=
  [ ("debug", builtin_flag "DEBUG" "display debug messages" ["-d"; "--debug"]);
    ("verbose", builtin_flag "INFO" "display extra information messages"
                  ["-v"; "--verbose"]);
    ("quiet", builtin_flag "ERROR" "suppress warning messages" ["-q"; "--quiet"]) ].

Definition config_classes (lib : library) : list configurable :=
  [XeroApiConfig; LogConfig lib; BaseConfig; FilterConfig].

(** The alias mapping: [aliases.update(config_class.trait_argparse_aliases())]
    for each class in turn. *)
Definition registry (lib : library) : list (string * described string) :=
  fold_left
    (λ aliases cls,
       dict_update aliases (RichConfigurable.trait_argparse_aliases lib cls))
    (config_classes lib) [].

Definition get_argparse_loader (lib : library) : result loader :=
  RichKVArgParseConfigLoader.__init__ (registry lib) builtin_flags (DESCRIPTION lib).

(** [config.argparse_loader.load_config(argv)] on the loader built by
    [get_argparse_loader]: the cli layer. *)
Definition parse_cli (os : os_state) (lib : library) (argv : list string)
  : result (gmap string pyval) :=
  ld ← get_argparse_loader lib;
  RichKVArgParseConfigLoader.load_config os lib ld argv.

(** The built-in shortcuts of [get_argparse_loader], with the long switch
    and the level each one sets. *)
Inductive shortcut : Type := debug | verbose | quiet.

Definition long_switch (f : shortcut) : string :=
  match f with debug => "--debug" | verbose => "--verbose" | quiet => "--quiet" end.

Definition short_switch (f : shortcut) : string :=
  match f with debug => "-d" | verbose => "-v" | quiet => "-q" end.

Definition level (f : shortcut) : string :=
  match f with debug => "DEBUG" | verbose => "INFO" | quiet => "ERROR" end.

(** *** The loading functions (lines 323-469) *)

Section Loading.

Context (os : os_state) (lib : library).

(** [config_runtime_exception]: log, print the usage, [exit()]. *)
Definition config_runtime_exception {A} (exc : exn) (config : gmap string pyval)
  : result A := Raise SystemExit.

(** [load_cli_config(argv, config)]: the loader is stored in [config]; an
    [ArgumentError] ends the process; the [LogConfig] section of the
    result is read to set up logging. *)
Definition load_cli_config (argv : list string) (config : gmap string pyval)
  : result (gmap string pyval * gmap string pyval) :=
  ld ← get_argparse_loader lib;
  config ← Config.setitem "argparse_loader" (VObject "RichKVArgParseConfigLoader") config;
  cli_config ← match RichKVArgParseConfigLoader.load_config os lib ld argv with
               | Raise (ArgumentError msg) =>
                   config_runtime_exception (ArgumentError msg) config
               | r => r
               end;
  '(log, cli_config) ← Config.getitem "LogConfig" cli_config;
  _ ← py_kwargs log;
  Return (cli_config, config).

(** [str(extension_loaders.keys())] *)
Definition extension_keys_str : string := "dict_keys(['.py', '.json'])".

(** Lines 348-360 of [load_single_file_config]: the loader class for the
    extension of the path. *)
Definition loader_class (config_path : string) : result file_loader :=
  let '(_, extension) := posixpath.splitext config_path in
  if String.eqb extension ".py" then Return PyFileConfigLoader
  else if String.eqb extension ".json" then Return JSONFileConfigLoader
  else Raise (ConfigException
                ("invalid config file extension (must be in " +:+ extension_keys_str
                 +:+ ") in file " +:+ config_path)).

Definition load_single_file_config (config_path : string)
    (config : gmap string pyval) : result (gmap string pyval) :=
  cls ← loader_class config_path;
  file_load_config lib cls config_path.

(** The three expansions applied to the path and to the directory. *)
Definition expand (p : string) : string :=
  posixpath.expanduser os (posixpath.normpath (posixpath.expandvars os p)).

(** [expand_relative_path(path, dir)]; [os.path] raises [TypeError] on an
    argument that is not a string. *)
Definition expand_relative_path (path dir : pyval) : result string :=
  match path with
  | VStr p =>
      let p := expand p in
      if negb (startswith p "/") && truthy dir then
        match dir with
        | VStr d => Return (posixpath.abspath os (posixpath.join (expand d) p))
        | _ => Raise TypeError
        end
      else Return (posixpath.abspath os p)
  | _ => Raise TypeError
  end.

(** [validate_config_path(config_path, config)]: [None] for an empty path,
    else the expanded path when it exists. *)
Definition validate_config_path (config_path : pyval) (config : gmap string pyval)
  : result (option string * gmap string pyval) :=
  if negb (truthy config_path) then Return (None, config)
  else
    '(base, config) ← Config.getitem "BaseConfig" config;
    config_dir ← default VNone <$> py_get "config_dir" base;
    path ← expand_relative_path config_path config_dir;
    if negb (path_exists os path) then
      Raise (ConfigFileNotFound
               ("config_path " +:+ path +:+ " does not exist under config_dir "
                +:+ pystr lib config_dir))
    else Return (Some path, config).

(** The loop of [load_file_config] over the collected paths. *)
Fixpoint merge_files (config_paths : list string) (config file_config : gmap string pyval)
  : result (gmap string pyval) :=
  match config_paths with
  | [] => Return file_config
  | config_path :: r =>
      new_config ← load_single_file_config config_path config;
      file_config ← Config.merge (items_order lib) file_config new_config;
      merge_files r config file_config
  end.

Definition load_file_config (config : gmap string pyval)
  : result (gmap string pyval * gmap string pyval) :=
  let file_config : gmap string pyval := ∅ in
  let config_paths : list string := [] in
  '(base, config) ← Config.getitem "BaseConfig" config;
  has_dir ← py_contains "config_dir" base;
  config ← (if has_dir : bool then
              '(base, config) ← Config.getitem "BaseConfig" config;
              d ← as_config base;
              '(_, d) ← Config.getitem "config_dir" d;
              Return (<["BaseConfig" := VConfig d]> config)
            else Return config);
  '(base, config) ← Config.getitem "BaseConfig" config;
  config_path ← default VNone <$> py_get "config_path" base;
  (* maybe_add_config_path *)
  '(config_path, config) ← validate_config_path config_path config;
  let config_paths :=
    match config_path with
    | Some p =>
        if truthy (VStr p) && negb (bool_decide (p ∈ config_paths))
        then config_paths ++ [p] else config_paths
    | None => config_paths
    end in
  file_config ← merge_files config_paths config file_config;
  Return (file_config, config).

Definition credentials_message : string :=
  "To connect to the Xero API, you must either specify a Xero API consumer key or a config file containing such a key".

(** [validate_config(config)].  Each [config.XeroApiConfig] is an item
    access on the config, so the config is returned as well, also when
    the function raises. *)
Definition validate_config (config : gmap string pyval)
  : result unit * gmap string pyval :=
  match Config.getitem "XeroApiConfig" config with
  | Raise e => (Raise e, config)
  | Return (xero, config) =>
      match py_get "rsa_key_path" xero with
      | Raise e => (Raise e, config)
      | Return rsa_key_path =>
          match Config.getitem "XeroApiConfig" config with
          | Raise e => (Raise e, config)
          | Return (xero, config) =>
              match py_get "consumer_key" xero with
              | Raise e => (Raise e, config)
              | Return consumer_key =>
                  if truthy (default VNone rsa_key_path)
                     && truthy (default VNone consumer_key)
                  then (Return (), config)
                  else (Raise (ConfigException credentials_message), config)
              end
          end
      end
  end.

(** Lines 447-452 of [load_config], one of the three fields: the value
    the cli layer holds is copied into the accumulating config. *)
Definition pull_field (sec key : string) (cli_config config : gmap string pyval)
  : result (gmap string pyval * gmap string pyval) :=
  '(csec, cli_config) ← Config.getitem sec cli_config;
  present ← py_contains key csec;
  if present : bool then
    '(csec, cli_config) ← Config.getitem sec cli_config;
    d ← as_config csec;
    '(v, d) ← Config.getitem key d;
    let cli_config := <[sec := VConfig d]> cli_config in
    '(tsec, config) ← Config.getitem sec config;
    t ← as_config tsec;
    t ← Config.setitem key v t;
    Return (cli_config, <[sec := VConfig t]> config)
  else Return (cli_config, config).

Definition pull_forward (cli_config config : gmap string pyval)
  : result (gmap string pyval * gmap string pyval) :=
  '(cli_config, config) ← pull_field "BaseConfig" "config_path" cli_config config;
  '(cli_config, config) ← pull_field "BaseConfig" "config_dir" cli_config config;
  pull_field "LogConfig" "stream_log_level" cli_config config.

(** [load_config] up to line 452: the proto layer is merged, the command
    line is parsed and the three fields are pulled forward.  Returns the
    cli layer and the accumulating config. *)
Definition load_config_before_file (argv : list string)
    (proto_config : gmap string pyval)
  : result (gmap string pyval * gmap string pyval) :=
  let config := RichConfig.__init__ in
  config ← RichConfig.merge_source lib "proto" proto_config config;
  '(log, config) ← Config.getitem "LogConfig" config;
  _ ← py_kwargs log;
  '(cli_config, config) ← load_cli_config argv config;
  pull_forward cli_config config.

(** [load_config] from line 461 on. *)
Definition load_config_from_file (cli_config config : gmap string pyval)
  : result (gmap string pyval) :=
  '(file_config, config) ← load_file_config config;
  config ← RichConfig.merge_source lib "file" file_config config;
  config ← RichConfig.merge_source lib "cli" cli_config config;
  match validate_config config with
  | (Raise (ConfigException msg), config) =>
      config_runtime_exception (ConfigException msg) config
  | (Raise e, _) => Raise e
  | (Return _, config) => Return config
  end.

Definition load_config (argv : list string) (proto_config : gmap string pyval)
  : result (gmap string pyval) :=
  '(cli_config, config) ← load_config_before_file argv proto_config;
  load_config_from_file cli_config config.

End Loading.

(** ** Vocabulary of the statements *)

(** The partial configuration a built-in shortcut applies. *)
Definition shortcut_cfg (f : shortcut) : flagcfg :=
  [("LogConfig", [("stream_log_level", VStr (level f))])].

(** Every item the config holds is a [Config]. *)
Definition sections_only (c : gmap string pyval) : Prop :=
  ∀ s, c !! s = None ∨ ∃ d, c !! s = Some (VConfig d).

(** The value of [config.BaseConfig.get('config_dir')], [None] when unset. *)
Definition config_dir_of (config : gmap string pyval) : pyval :=
  default VNone (field "BaseConfig" "config_dir" config).

(** The item under [key] is missing or is a [Config]. *)
Definition section_or_missing (key : string) (config : gmap string pyval) : Prop :=
  config !! key = None ∨ ∃ d, config !! key = Some (VConfig d).

(** A credential is unset, or set to a value that Python treats as false
    (for a string: the empty string). *)
Definition unset_or_empty (o : option pyval) : Prop :=
  match o with
  | None => True
  | Some v => truthy v = false
  end.

(** The Xero API credential [k], as [validate_config] reads it. *)
Definition credential (k : string) (config : gmap string pyval) : option pyval :=
  field "XeroApiConfig" k config.

(** The config as an access to [config.<key>] leaves it. *)
Definition with_section (key : string) (config : gmap string pyval)
  : gmap string pyval :=
  match config !! key with
  | Some _ => config
  | None => <[key := VConfig ∅]> config
  end.

(** ** Example inputs *)

Definition example_lib : library :=
  {| PKG_NAME := "xero_map_gen";
     DESCRIPTION := "Xero contacts to CSV";
     literal_eval_rest := λ _, NotLiteral;
     items_order := λ _, [];
     argparse_rest := λ _ _, ParserExit;
     kv_load_config := λ _, Raise (ArgumentError "Unrecognized flag");
     file_load_config := λ _ path,
       if String.eqb path "/etc/xmg/conf.json"
       then Return {[ "XeroApiConfig" :=
                        VConfig {[ "consumer_key" := VStr "from-file";
                                   "rsa_key_path" := VStr "/etc/xmg/key.pem" ]} ]}
       else Raise (ConfigFileNotFound path);
     not_falsey := λ v name,
       if truthy v then Return () else Raise (OtherError "TraitError" name);
     trait_path_exists := λ _, Return ();
     py_repr := λ _, "<object>" |}.

Definition example_os : os_state :=
  {| environ := {[ "A" := "$B"; "B" := "x"; "HOME" := "/home/user" ]};
     getcwd := "/work";
     pw_dir_uid := Some "/home/user";
     pw_dir_name := λ _, None;
     path_exists := λ p, String.eqb p "/etc/xmg/conf.json" |}.

(** A class with two traits that produce the same alias key. *)
Definition colliding_class : configurable :=
  {| __name__ := "Dup";
     traits := [ ("log_dir", Unicode "" None []);
                 ("other", Unicode "" (Some "log-dir") []) ] |}.

(** The fields that [load_config] copies from the cli layer before the file
    layer is resolved. *)
Definition pulled_forward (s k : string) : bool :=
  bool_decide ((s, k) ∈ [("BaseConfig", "config_path");
                         ("BaseConfig", "config_dir");
                         ("LogConfig", "stream_log_level")]).

Definition example_argv : list string :=
  ["--config-path"; "conf.json"; "--config-dir"; "/etc/xmg";
   "--xero-consumer-key"; "from-cli"; "--verbose"].

Definition example_proto : gmap string pyval :=
  {[ "BaseConfig" := VConfig {[ "data_dir" := VStr "/data";
                                 "config_path" := VStr "proto.json" ]};
     "XeroApiConfig" := VConfig {[ "consumer_key" := VStr "from-proto" ]} ]}.

(** A library whose [literal_eval] reads [1.5] as a float and raises
    [TypeError] on a dictionary display with a list as key. *)
Definition literal_lib : library :=
  {| PKG_NAME := PKG_NAME example_lib;
     DESCRIPTION := DESCRIPTION example_lib;
     literal_eval_rest := λ s,
       if String.eqb s "1.5" then Literal (VFloat 1.5)
       else if String.eqb s "{[1]:2}" then Uncaught TypeError
       else NotLiteral;
     items_order := items_order example_lib;
     argparse_rest := argparse_rest example_lib;
     kv_load_config := kv_load_config example_lib;
     file_load_config := file_load_config example_lib;
     not_falsey := not_falsey example_lib;
     trait_path_exists := trait_path_exists example_lib;
     py_repr := py_repr example_lib |}.

(** A library whose config file holds a section with a dot in its name,
    and a proto layer with a section of the same name. *)
Definition dotted_lib : library :=
  {| PKG_NAME := PKG_NAME example_lib;
     DESCRIPTION := DESCRIPTION example_lib;
     literal_eval_rest := literal_eval_rest example_lib;
     items_order := items_order example_lib;
     argparse_rest := argparse_rest example_lib;
     kv_load_config := kv_load_config example_lib;
     file_load_config := λ _ _,
       Return {[ "X.Y" := VConfig {[ "b" := VInt 2 ]};
                 "XeroApiConfig" :=
                   VConfig {[ "consumer_key" := VStr "from-file";
                              "rsa_key_path" := VStr "/etc/xmg/key.pem" ]} ]};
     not_falsey := not_falsey example_lib;
     trait_path_exists := trait_path_exists example_lib;
     py_repr := py_repr example_lib |}.

Definition dotted_proto : gmap string pyval :=
  {[ "X.Y" := VConfig {[ "a" := VInt 1 ]} ]}.

Definition dotted_argv : list string := ["--config-path"; "/etc/xmg/conf.json"].

(** The invariant of the stack of [normpath]: no empty and no dot
    component, and a dot-dot only on a relative path, at the bottom of the
    stack or on top of another dot-dot. *)
Fixpoint normal_stack (initial : nat) (st : list string) : Prop :=
  match st with
  | [] => True
  | c :: st' =>
      c ≠ "" ∧ c ≠ "."
      ∧ (c = ".." → initial = 0%nat ∧ (st' = [] ∨ head st' = Some ".."))
      ∧ normal_stack initial st'
  end.

(** ** Vocabulary of the further properties *)

(** The same system seen from another working directory. *)
Definition chdir (cwd : string) (os : os_state) : os_state :=
  {| environ := environ os; getcwd := cwd; pw_dir_uid := pw_dir_uid os;
     pw_dir_name := pw_dir_name os; path_exists := path_exists os |}.

(** The value a call returned, [d] when it raised. *)
Definition returned {A} (d : A) (r : result A) : A :=
  match r with Return a => a | Raise _ => d end.

(** [bool(values)] once the main entry of a description has been popped. *)
Definition has_extension {X} (kv : string * described X) : bool :=
  ext_nonempty (ext kv.2).

(** The description carries its ['trait'] (alias) or ['value'] (flag). *)
Definition has_main {X} (kv : string * described X) : Prop := is_Some (main kv.2).

(** A trait that [trait_argparse_aliases] turns into an alias. *)
Definition aliased (m : string * trait) : Prop := m.1 ≠ "config" ∧ m.1 ≠ "parent".

#[global] Instance aliased_dec (m : string * trait) : Decision (aliased m) :=
  and_dec _ _.

(** The flags that get an option of their own: those whose name is not an
    alias key. *)
Definition own_flags (self : loader) : list (string * (flagcfg * string)) :=
  List.filter (λ f, negb (dict_mem f.1 (aliases self))) (flags self).

(** The value of the last flag of [l] whose name is an alias key for
    [trait]. *)
Fixpoint aliased_value (self : loader) (trait : string)
    (l : list (string * (flagcfg * string))) : option flagcfg :=
  match l with
  | [] => None
  | (key, (value, _)) :: r =>
      match aliased_value self trait r with
      | Some v => Some v
      | None =>
          if bool_decide (dict_get key (aliases self) = Some trait)
          then Some value else None
      end
  end.

(** No option string is registered by two arguments of the parser. *)
Fixpoint conflict_free (parser : list argument) : Prop :=
  match parser with
  | [] => True
  | a :: r =>
      (∀ s, s ∈ option_strings a → argparse.registered s r = false)
      ∧ conflict_free r
  end.

(** The extension each loader class is registered under (line 348). *)
Definition extension_of (cls : file_loader) : string :=
  match cls with
  | PyFileConfigLoader => ".py"
  | JSONFileConfigLoader => ".json"
  end.

(** One item of a command line: an alias switch with its value, or one of
    the built-in shortcuts. *)
Inductive cli_item : Type :=
  | Opt (key value : string)      (* --key value *)
  | Flag (f : shortcut).          (* --debug, --verbose, --quiet *)

Definition tokens (it : cli_item) : list string :=
  match it with
  | Opt key value => ["--" +:+ key; value]
  | Flag f => [long_switch f]
  end.

Definition argv_of (items : list cli_item) : list string :=
  concat (tokens <$> items).

(** The trait an alias key of [get_argparse_loader] stands for. *)
Definition dest_of (lib : library) (key : string) : string :=
  default "" (dict_get key (registry lib) ≫= main).

(** The switch is one of the registered aliases and its value does not look
    like an option. *)
Definition item_ok (lib : library) (it : cli_item) : Prop :=
  match it with
  | Opt key value => dict_mem key (registry lib) = true ∧ startswith value "-" = false
  | Flag _ => True
  end.

(** [literal_eval] raises nothing on the value of the switch that
    [_exec_config_str] lets through. *)
Definition item_evaluates (os : os_state) (lib : library) (it : cli_item) : Prop :=
  match it with
  | Opt _ value => is_Return (KVArgParseConfigLoader.rhs_value os lib value) = true
  | Flag _ => True
  end.

(** The layer holds no [Config] under the key [_sources.<name>], the one
    key with a dot that is [in] a [RichConfig] which has recorded the layer
    under [name]. *)
Definition no_source_section (name : string) (c : gmap string pyval) : Prop :=
  ∀ o, c !! ("_sources." +:+ name) ≠ Some (VConfig o).

(** The value of the last switch of the command line that stands for
    [trait]. *)
Fixpoint given (lib : library) (trait : string) (items : list cli_item)
  : option string :=
  match items with
  | [] => None
  | Opt key value :: r =>
      match given lib trait r with
      | Some v => Some v
      | None => if String.eqb (dest_of lib key) trait then Some value else None
      end
  | Flag _ :: r => given lib trait r
  end.

(** The shortcuts of the command line, in order. *)
Definition shortcuts_of (items : list cli_item) : list shortcut :=
  omap (λ it, match it with Flag f => Some f | Opt _ _ => None end) items.

(** The text that reaches [_exec_config_str] for trait [name] of class
    [cls]: the last value given on the command line, else the default of
    the trait unless that is the empty string. *)
Definition cli_text (lib : library) (items : list cli_item)
    (cls : configurable) (name : string) (t : trait) : option string :=
  match given lib (__name__ cls +:+ "." +:+ name) items with
  | Some v => Some v
  | None =>
      if is_empty_str (default_value t) then None
      else Some (pystr lib (default_value t))
  end.

(** What the cli layer holds for trait [name] of class [cls]: the level of
    the last shortcut for the stream log level, else the value of the text
    given for the trait. *)
Definition cli_value (os : os_state) (lib : library) (items : list cli_item)
    (cls : configurable) (name : string) (t : trait) : result (option pyval) :=
  match (if bool_decide (__name__ cls = "LogConfig" ∧ name = "stream_log_level")
         then last (shortcuts_of items) else None) with
  | Some f => Return (Some (VStr (level f)))
  | None =>
      match cli_text lib items cls name t with
      | Some rhs => Some <$> KVArgParseConfigLoader.rhs_value os lib rhs
      | None => Return None
      end
  end.

(** What one item does to the namespace. *)
Definition apply_item (lib : library) (ns : list (string * nsval)) (it : cli_item)
  : list (string * nsval) :=
  match it with
  | Opt key value => dict_set (dest_of lib key) (NStr value) ns
  | Flag f => argparse.append_const "_flags" (shortcut_cfg f) ns
  end.

(** A name of the form [Section.key]. *)
Definition two_level (T : string) : Prop :=
  ∃ sec name, KVArgParseConfigLoader.split_dots T = [sec; name]
              ∧ Config._is_section_key sec = true
              ∧ Config._is_section_key name = false.

(** Every item under a section key is a [Config]. *)
Definition sections_ok (c : gmap string pyval) : Prop :=
  ∀ s, Config._is_section_key s = true → section_or_missing s c.

(** The [_sources] item is a mapping. *)
Definition sources_ok (c : gmap string pyval) : Prop :=
  ∃ d, c !! "_sources" = Some (VDict d) ∨ c !! "_sources" = Some (VConfig d).

(** [literal_eval] returns no [Config]: a typing condition on the library. *)
Definition literals_plain (lib : library) : Prop :=
  ∀ s v, literal_eval_rest lib s = Literal v → is_config v = false.

(** No key of the config has a dot. *)
Definition plain_keys (c : gmap string pyval) : Prop :=
  ∀ s, is_Some (c !! s) → char_in "." s = false.

(** No field of a section has a dot in its name or holds a [Config]. *)
Definition plain_fields (c : gmap string pyval) : Prop :=
  ∀ s k v, field s k c = Some v → char_in "." k = false ∧ is_config v = false.

(** What ends a command line without a result: a request for help, or an
    alias switch that is the last token and so lacks its value. *)
Definition usage_exit (lib : library) (toks : list string) : Prop :=
  (∃ h rest, (h = "-h" ∨ h = "--help") ∧ toks = h :: rest)
  ∨ ∃ key, dict_mem key (registry lib) = true ∧ toks = ["--" +:+ key].


(** * Properties *)

(** ** Results *)

Lemma bind_Return {A B} (m : result A) (k : A → result B) b :
  m ≫= k = Return b → ∃ a, m = Return a ∧ k a = Return b.
Proof. destruct m as [a|e]; [eauto | discriminate]. Qed.

Lemma fmap_Return {A B} (f : A → B) (m : result A) b :
  f <$> m = Return b → ∃ a, m = Return a ∧ b = f a.
Proof. destruct m as [a|e]; [| discriminate]. intros [= <-]. eauto. Qed.

Lemma returned_pair {A B} (d : A * B) (r : result (A * B)) :
  is_Return r = true → r = Return ((returned d r).1, (returned d r).2).
Proof. by destruct r as [[a b]|e]. Qed.

Lemma returned_eq {A} (d : A) (r : result A) :
  is_Return r = true → r = Return (returned d r).
Proof. by destruct r. Qed.


(** ** Strings *)

Lemma string_app_cons x (a b : string) : String x a +:+ b = String x (a +:+ b).
Proof. reflexivity. Qed.

Lemma string_app_nil_l (a : string) : "" +:+ a = a.
Proof. reflexivity. Qed.

Lemma string_app_assoc (a b c : string) : (a +:+ b) +:+ c = a +:+ b +:+ c.
Proof.
  induction a as [|x a IH]; [done|]. by rewrite !string_app_cons, IH.
Qed.

Lemma string_app_nil_r (a : string) : a +:+ "" = a.
Proof. induction a as [|x a IH]; [done|]. by rewrite string_app_cons, IH. Qed.

Lemma contains_here needle post : contains needle (needle +:+ post).
Proof. by exists "", post. Qed.

Lemma contains_end needle : contains needle needle.
Proof. exists "", "". by rewrite string_app_nil_l, string_app_nil_r. Qed.

Lemma contains_app_r needle pre hay :
  contains needle hay → contains needle (pre +:+ hay).
Proof.
  intros (a & b & ->). exists (pre +:+ a), b. by rewrite string_app_assoc.
Qed.

(** ** Config *)

Lemma foldM_app {A B} (f : A → B → result A) a l1 l2 :
  foldM f a (l1 ++ l2) = a' ← foldM f a l1; foldM f a' l2.
Proof.
  revert a. induction l1 as [|b l1 IH]; intros a; [done|].
  cbn [foldM app]. destruct (f a b) as [a'|e]; [apply IH | done].
Qed.

(** *** Membership *)

Lemma append_char_assoc a c b : (a +:+ String c "") +:+ b = a +:+ String c b.
Proof. by rewrite string_app_assoc, string_app_cons, string_app_nil_l. Qed.

Lemma contains_from_plain first key self :
  char_in "." key = false →
  Config.contains_from first key self
  = Return (bool_decide (is_Some (self !! (first +:+ key)))).
Proof.
  revert first. induction key as [|c key IH]; intros first Hk.
  - cbn. by rewrite string_app_nil_r.
  - cbn in Hk. apply orb_false_iff in Hk as [Hc Hk].
    cbn [Config.contains_from]. rewrite Hc, IH by done.
    by rewrite append_char_assoc.
Qed.

(** On a key without a dot, [in] is the membership test of the dictionary. *)
Lemma contains_plain key self :
  char_in "." key = false →
  Config.__contains__ key self = Return (bool_decide (is_Some (self !! key))).
Proof. intros H. unfold Config.__contains__. by rewrite contains_from_plain. Qed.

Lemma py_contains_plain key v :
  char_in "." key = false → py_contains key v = in_value key v.
Proof. intros H. destruct v; try done. cbn. by apply contains_plain. Qed.

(** *** The loop of [merge] *)

Lemma getitem_inv key c v c' :
  Config.getitem key c = Return (v, c') →
  (c !! key = Some v ∧ c' = c)
  ∨ (c !! key = None ∧ c' = <[key := v]> c ∧ (v = VConfig ∅ ∨ v = VLazy)).
Proof.
  unfold Config.getitem. destruct (c !! key) as [x|].
  - intros [= <- <-]. by left.
  - destruct (Config._is_section_key key); [intros [= <- <-]; right; eauto|].
    destruct (negb _); [intros [= <- <-]; right; eauto | done].
Qed.

(** What one round of the loop does for its key: the item goes into
    [to_update], or it is merged in place into a [Config] that [self] holds
    under the key or has just created there. *)
Lemma merge_step_inv inplace other self upd k self' upd' :
  Config.merge_step inplace other (self, upd) k = Return (self', upd') →
  (∀ k', k' ≠ k → self' !! k' = self !! k' ∧ upd' !! k' = upd !! k')
  ∧ match other !! k with
    | None => self' = self ∧ upd' = upd
    | Some v =>
        upd' !! k = Some v
        ∨ ∃ o merged,
            v = VConfig o ∧ upd' = upd ∧ self' !! k = Some merged
            ∧ Config.__contains__ k self = Return true
            ∧ match inplace !! k with
              | Some merge_mine => merge_mine o
              | None => Return (VConfig o)
              end = Return merged
            ∧ (self !! k = None ∨ ∃ xs, self !! k = Some (VConfig xs))
    end.
Proof.
  unfold Config.merge_step. destruct (other !! k) as [v|]; [|by intros [= <- <-]].
  destruct (Config.__contains__ k self) as [present|e] eqn:Hin; [|done].
  cbn [mbind result_bind].
  assert (Hput : ∀ s u, Return (s, <[k := v]> u) = Return (self', upd') →
                 s = self' ∧ <[k := v]> u = upd').
  { by intros s u [= <- <-]. }
  destruct present; cbn [negb].
  2:{ intros [<- <-]%Hput. split; [|left; apply lookup_insert_eq].
      intros k' Hne. by rewrite lookup_insert_ne. }
  destruct v as [| | | | | | |o| |];
    try (intros [<- <-]%Hput; split; [|left; apply lookup_insert_eq];
         intros k' Hne; by rewrite lookup_insert_ne).
  destruct (Config.getitem k self) as [[mine self1]|e] eqn:Hget; [|done].
  cbn [mbind result_bind].
  assert (Hself1 : ∀ k', k' ≠ k → self1 !! k' = self !! k').
  { intros k' Hne. apply getitem_inv in Hget as [[_ ->] | (_ & -> & _)]; [done|].
    by rewrite lookup_insert_ne. }
  destruct mine as [| | | | | | |xs| |];
    try (intros [<- <-]%Hput; split; [|left; apply lookup_insert_eq];
         intros k' Hne; rewrite lookup_insert_ne by done; by rewrite Hself1).
  destruct (match inplace !! k with Some f => f o | None => Return (VConfig o) end)
    as [merged|e] eqn:Hm; [|done].
  cbn [mbind result_bind]. intros [= <- <-]. split.
  - intros k' Hne. rewrite lookup_insert_ne by done. by rewrite Hself1.
  - right. exists o, merged. rewrite lookup_insert_eq. repeat split; try done.
    apply getitem_inv in Hget as [[H _] | (H & _ & _)]; eauto.
Qed.

Lemma merge_step_plain inplace other self upd k xs o :
  char_in "." k = false →
  self !! k = Some (VConfig xs) → other !! k = Some (VConfig o) →
  Config.merge_step inplace other (self, upd) k
  = merged ← match inplace !! k with
             | Some merge_mine => merge_mine o
             | None => Return (VConfig o)
             end;
    Return (<[k := merged]> self, upd).
Proof.
  intros Hk Hs Ho. unfold Config.merge_step. rewrite Ho, contains_plain by done.
  rewrite Hs. rewrite bool_decide_true by eauto. cbn [mbind result_bind negb].
  unfold Config.getitem. rewrite Hs. reflexivity.
Qed.

Lemma merge_fold_other inplace other ks st st' k :
  foldM (Config.merge_step inplace other) st ks = Return st' → k ∉ ks →
  st'.1 !! k = st.1 !! k ∧ st'.2 !! k = st.2 !! k.
Proof.
  revert st. induction ks as [|k0 ks IH]; intros st.
  - by intros [= <-].
  - cbn [foldM]. intros H Hk.
    destruct (Config.merge_step inplace other st k0) as [st1|e] eqn:H1; [|done].
    cbn [mbind result_bind] in H. apply not_elem_of_cons in Hk as [Hne Hk].
    destruct (IH _ H Hk) as [-> ->]. destruct st as [s u], st1 as [s1 u1].
    apply merge_step_inv in H1 as [H1 _]. by apply H1.
Qed.

(** In a run of the loop over distinct keys, the round of [k] meets the
    items that [self] and [to_update] held under [k] at the start, and what
    it leaves under [k] stays. *)
Lemma merge_fold_at inplace other ks st st' k :
  foldM (Config.merge_step inplace other) st ks = Return st' →
  NoDup ks → k ∈ ks →
  ∃ st1 st2,
    Config.merge_step inplace other st1 k = Return st2
    ∧ st1.1 !! k = st.1 !! k ∧ st1.2 !! k = st.2 !! k
    ∧ st'.1 !! k = st2.1 !! k ∧ st'.2 !! k = st2.2 !! k.
Proof.
  revert st. induction ks as [|k0 ks IH]; intros st H Hnd Hk.
  - by apply elem_of_nil in Hk.
  - cbn [foldM] in H. apply NoDup_cons in Hnd as [Hk0 Hnd].
    destruct (Config.merge_step inplace other st k0) as [st1|e] eqn:H1; [|done].
    cbn [mbind result_bind] in H.
    apply elem_of_cons in Hk as [-> | Hk].
    + exists st, st1. destruct (merge_fold_other _ _ _ _ _ _ H Hk0) as [-> ->].
      done.
    + destruct (IH _ H Hnd Hk) as (sa & sb & Hstep & Ha1 & Ha2 & Hb1 & Hb2).
      exists sa, sb. rewrite Ha1, Ha2, Hb1, Hb2.
      assert (k ≠ k0) as Hne by (intros ->; done).
      destruct st as [s u], st1 as [s1 u1]. cbn [fst snd].
      apply merge_step_inv in H1 as [H1 _]. destruct (H1 k Hne) as [-> ->].
      done.
Qed.

Lemma items_keys_NoDup order other : NoDup (Config.items_keys order other).
Proof. apply NoDup_remove_dups. Qed.

Lemma items_keys_elem order other k v :
  other !! k = Some v → k ∈ Config.items_keys order other.
Proof.
  intros H. unfold Config.items_keys. apply elem_of_remove_dups, elem_of_app.
  left. apply list_elem_of_fmap. exists (k, v). split; [done|].
  by apply elem_of_map_to_list.
Qed.

Lemma merge_step_absent inplace other st k :
  other !! k = None → Config.merge_step inplace other st k = Return st.
Proof. intros H. destruct st as [s u]. unfold Config.merge_step. by rewrite H. Qed.


(** *** [merge], key by key *)

Lemma merge_loop_inv order inplace self other c :
  Config.merge_loop order inplace self other = Return c →
  ∃ self' upd,
    foldM (Config.merge_step inplace other) (self, ∅) (Config.items_keys order other)
    = Return (self', upd)
    ∧ c = upd ∪ self'.
Proof.
  unfold Config.merge_loop.
  destruct (foldM _ _ _) as [[self' upd]|e]; [|done].
  intros [= <-]. eauto.
Qed.

Lemma merge_into_config order xs o :
  Config.merge_into order (VConfig xs) o = VConfig <$> Config.merge order xs o.
Proof. reflexivity. Qed.

(** What [merge] leaves under a key: a key that [other] lacks keeps its
    item; a key of [other] gets the item of [other], unless both items are
    a [Config] and [self] holds its own under the key, in which case the
    two may have been merged. *)
Lemma merge_lookup order self other c k :
  Config.merge order self other = Return c →
  match other !! k with
  | None => c !! k = self !! k
  | Some v =>
      c !! k = Some v
      ∨ ∃ xs o m, self !! k = Some (VConfig xs) ∧ v = VConfig o
                  ∧ Config.merge order xs o = Return m
                  ∧ c !! k = Some (VConfig m)
  end.
Proof.
  intros (self' & upd & Hfold & ->)%merge_loop_inv.
  destruct (other !! k) as [v|] eqn:Ho.
  - destruct (merge_fold_at _ _ _ _ _ k Hfold) as ([s1 u1] & [s2 u2] & Hstep & Hs1 & Hu1 & Hs2 & Hu2).
    { apply items_keys_NoDup. } { by eapply items_keys_elem. }
    cbn [fst snd] in *. rewrite lookup_empty in Hu1.
    apply merge_step_inv in Hstep as [_ Hstep]. rewrite Ho in Hstep.
    rewrite lookup_union, Hs2, Hu2.
    destruct Hstep as [-> | (o & merged & -> & -> & Hm2 & _ & Hm & Hmine)].
    { left. by destruct (s2 !! k). }
    rewrite Hu1, Hm2. cbn. rewrite lookup_fmap, <- Hs1 in Hm.
    destruct Hmine as [Hnone | [xs Hxs]].
    + rewrite Hnone in Hm. cbn in Hm. injection Hm as <-. by left.
    + rewrite Hxs in Hm. cbn [fmap option_fmap option_map] in Hm.
      rewrite merge_into_config in Hm.
      destruct (Config.merge order xs o) as [m|e] eqn:Hmerge; [|done].
      injection Hm as <-. right. exists xs, o, m. by rewrite <- Hs1.
  - assert (∀ ks st st', foldM (Config.merge_step (Config.merge_into order <$> self) other) st ks = Return st' →
                         st'.1 !! k = st.1 !! k ∧ st'.2 !! k = st.2 !! k) as Hkeep.
    { induction ks as [|k0 ks IH]; intros st st'; [by intros [= <-]|].
      cbn [foldM]. destruct (Config.merge_step _ other st k0) as [st1|e] eqn:H1; [|done].
      cbn [mbind result_bind]. intros H. destruct (IH _ _ H) as [-> ->].
      destruct st as [s u], st1 as [s1 u1].
      apply merge_step_inv in H1 as [Hne H1].
      destruct (decide (k = k0)) as [->|Hk]; [|by apply Hne].
      rewrite Ho in H1. by destruct H1 as [-> ->]. }
    destruct (Hkeep _ _ _ Hfold) as [H1 H2]. cbn [fst snd] in *.
    rewrite lookup_union, H1, H2, lookup_empty. by destruct (self !! k).
Qed.

Lemma merge_lookup_keep order self other c k :
  Config.merge order self other = Return c → other !! k = None →
  c !! k = self !! k.
Proof. intros H Ho. apply (merge_lookup _ _ _ _ k) in H. by rewrite Ho in H. Qed.

Lemma merge_lookup_leaf order self other c k v :
  Config.merge order self other = Return c →
  other !! k = Some v → is_config v = false → c !! k = Some v.
Proof.
  intros H Ho Hv. apply (merge_lookup _ _ _ _ k) in H. rewrite Ho in H.
  destruct H as [H | (xs & o & m & _ & -> & _)]; done.
Qed.

Lemma merge_lookup_new order self other c k :
  Config.merge order self other = Return c → self !! k = None →
  c !! k = other !! k.
Proof.
  intros H Hs. apply (merge_lookup _ _ _ _ k) in H.
  destruct (other !! k) as [v|]; [|by rewrite H].
  destruct H as [H | (xs & o & m & Hx & _)]; [done | congruence].
Qed.

Lemma merge_lookup_over order self other c k x v :
  Config.merge order self other = Return c →
  self !! k = Some x → is_config x = false → other !! k = Some v →
  c !! k = Some v.
Proof.
  intros H Hs Hx Ho. apply (merge_lookup _ _ _ _ k) in H. rewrite Ho in H.
  destruct H as [H | (xs & o & m & Hxs & _)]; [done|].
  rewrite Hs in Hxs. by injection Hxs as ->.
Qed.

(** Two [Config]s under a key without a dot are merged. *)
Lemma merge_lookup_config order self other c k xs o :
  Config.merge order self other = Return c → char_in "." k = false →
  self !! k = Some (VConfig xs) → other !! k = Some (VConfig o) →
  ∃ m, Config.merge order xs o = Return m ∧ c !! k = Some (VConfig m).
Proof.
  intros (self' & upd & Hfold & ->)%merge_loop_inv Hk Hs Ho.
  destruct (merge_fold_at _ _ _ _ _ k Hfold) as ([s1 u1] & [s2 u2] & Hstep & Hs1 & Hu1 & Hs2 & Hu2).
  { apply items_keys_NoDup. } { by eapply items_keys_elem. }
  cbn [fst snd] in *. rewrite lookup_empty in Hu1. rewrite Hs in Hs1.
  rewrite (merge_step_plain _ _ _ _ _ xs o) in Hstep by done.
  rewrite lookup_fmap, Hs in Hstep. cbn [fmap option_fmap option_map] in Hstep.
  rewrite merge_into_config in Hstep.
  destruct (Config.merge order xs o) as [m|e]; [|done].
  cbn in Hstep. injection Hstep as <- <-. exists m. split; [done|].
  by rewrite lookup_union, Hs2, Hu2, Hu1, lookup_insert_eq.
Qed.

(** *** The exceptions of [merge] *)






(** *** Fields *)

Lemma field_merge_set order self other c s k v :
  Config.merge order self other = Return c →
  field s k other = Some v → is_config v = false →
  field s k c = Some v.
Proof.
  intros H. unfold field. destruct (other !! s) as [[]|] eqn:Ho; try done.
  intros Hv Hleaf. apply (merge_lookup _ _ _ _ s) in H. rewrite Ho in H.
  destruct H as [-> | (xs & o & m & _ & [= <-] & Hm & ->)]; [done|].
  by eapply merge_lookup_leaf.
Qed.

Lemma field_merge_unset order self other c s k :
  Config.merge order self other = Return c →
  char_in "." s = false → unset s k other →
  field s k c = field s k self.
Proof.
  intros H Hs [Ho | (sec & Ho & Hk)]; unfold field.
  - by rewrite (merge_lookup_keep _ _ _ _ _ H Ho).
  - destruct (self !! s) as [x|] eqn:Hx.
    + destruct (is_config x) eqn:Hc.
      * destruct x; try done.
        destruct (merge_lookup_config _ _ _ _ _ _ _ H Hs Hx Ho) as (m & Hm & ->).
        by eapply merge_lookup_keep.
      * rewrite (merge_lookup_over _ _ _ _ _ _ _ H Hx Hc Ho), Hk.
        by destruct x.
    + by rewrite (merge_lookup_new _ _ _ _ _ H Hx), Ho.
Qed.

(** *** Merging with an empty [Config] *)


Lemma contains_from_empty key first :
  Config.contains_from first key ∅ = Return false.
Proof.
  revert first. induction key as [|c key IH]; intros first.
  - cbn. rewrite lookup_empty. by rewrite bool_decide_false by (by intros [? ?]).
  - cbn [Config.contains_from]. destruct (Ascii.eqb c "."); [|apply IH].
    by rewrite lookup_empty.
Qed.

Lemma contains_empty key : Config.__contains__ key ∅ = Return false.
Proof. apply contains_from_empty. Qed.

Lemma merge_fold_empty inplace other ks upd :
  ∃ upd', foldM (Config.merge_step inplace other) (∅, upd) ks = Return (∅, upd').
Proof.
  revert upd. induction ks as [|k ks IH]; intros upd; [by exists upd|].
  cbn [foldM]. destruct (other !! k) as [v|] eqn:Ho.
  - replace (Config.merge_step inplace other (∅, upd) k)
      with (Return (∅ : gmap string pyval, <[k := v]> upd)).
    + apply IH.
    + unfold Config.merge_step. by rewrite Ho, contains_empty.
  - rewrite merge_step_absent by done. apply IH.
Qed.

(** Merging into an empty [Config] takes over the items of [other]. *)
Lemma merge_empty_l order other : Config.merge order ∅ other = Return other.
Proof.
  destruct (Config.merge order ∅ other) as [c|e] eqn:H.
  - f_equal. apply map_eq. intros k.
    by rewrite (merge_lookup_new _ _ _ _ k H) by apply lookup_empty.
  - unfold Config.merge, Config.merge_loop in H. rewrite fmap_empty in H.
    by destruct (merge_fold_empty ∅ other (Config.items_keys order other) ∅)
      as [upd' Hf]; rewrite Hf in H.
Qed.




Lemma section_key_not_sources s :
  Config._is_section_key s = true → s ≠ "_sources".
Proof. by intros H ->. Qed.

Lemma section_key_not_loader s :
  Config._is_section_key s = true → s ≠ "argparse_loader".
Proof. by intros H ->. Qed.

Lemma field_insert_ne s s' k v c :
  s ≠ s' → field s k (<[s' := v]> c) = field s k c.
Proof. intros H. unfold field. by rewrite lookup_insert_ne. Qed.

Lemma merge_source_inv lib name other self c :
  RichConfig.merge_source lib name other self = Return c →
  ∃ v, Config.merge (items_order lib) (<["_sources" := v]> self) other = Return c.
Proof.
  unfold RichConfig.merge_source.
  destruct (self !! "_sources") as [[]|]; try done; eauto.
Qed.


Lemma merge_source_field_set lib name other self c s k v :
  RichConfig.merge_source lib name other self = Return c →
  field s k other = Some v → is_config v = false →
  field s k c = Some v.
Proof. intros [x H]%merge_source_inv. by apply (field_merge_set _ _ _ _ _ _ _ H). Qed.

Lemma merge_source_field_unset lib name other self c s k :
  RichConfig.merge_source lib name other self = Return c →
  Config._is_section_key s = true → char_in "." s = false → unset s k other →
  field s k c = field s k self.
Proof.
  intros [x H]%merge_source_inv Hs%section_key_not_sources Hd Hu.
  by rewrite (field_merge_unset _ _ _ _ _ _ H Hd Hu), field_insert_ne.
Qed.

Lemma getitem_lookup key c v c' k :
  Config.getitem key c = Return (v, c') → k ≠ key → c' !! k = c !! k.
Proof.
  intros [[_ ->] | (_ & -> & _)]%getitem_inv Hne; [done|].
  by rewrite lookup_insert_ne.
Qed.

Lemma getitem_field key c v c' s k :
  Config.getitem key c = Return (v, c') → field s k c' = field s k c.
Proof.
  intros [[_ ->] | (Hnone & -> & Hv)]%getitem_inv; [done|].
  unfold field. destruct (decide (s = key)) as [->|Hne].
  - rewrite lookup_insert_eq, Hnone. by destruct Hv as [-> | ->].
  - by rewrite lookup_insert_ne.
Qed.

Lemma getitem_unset key c v c' s k :
  Config.getitem key c = Return (v, c') → unset s k c' → field s k c = None.
Proof.
  intros Hget Hu. rewrite <- (getitem_field _ _ _ _ s k Hget).
  unfold field. by destruct Hu as [-> | (sec & -> & ->)].
Qed.

(** ** Insertion-ordered dictionaries *)

Lemma dict_get_set_eq {V} k (v : V) d : dict_get k (dict_set k v d) = Some v.
Proof.
  induction d as [|[k' v'] d IH]; simpl.
  - by rewrite String.eqb_refl.
  - destruct (String.eqb k k') eqn:E; simpl; rewrite ?String.eqb_refl, ?E; done.
Qed.

Lemma dict_get_set_ne {V} k k' (v : V) d :
  k ≠ k' → dict_get k (dict_set k' v d) = dict_get k d.
Proof.
  intros Hne. induction d as [|[k'' v''] d IH]; simpl.
  - by apply String.eqb_neq in Hne as ->.
  - destruct (String.eqb k' k'') eqn:E; simpl.
    + apply String.eqb_eq in E as <-. by apply String.eqb_neq in Hne as ->.
    + by rewrite IH.
Qed.

Lemma dict_set_fresh {V} k (v : V) d :
  dict_get k d = None → dict_set k v d = d ++ [(k, v)].
Proof.
  induction d as [|[k' v'] d IH]; simpl; [done|].
  destruct (String.eqb k k'); [done|]. intros H. by rewrite IH.
Qed.

Lemma dict_get_snoc {V} k (v : V) d :
  dict_get k d = None → dict_get k (d ++ [(k, v)]) = Some v.
Proof.
  induction d as [|[k' v'] d IH]; simpl.
  - by rewrite String.eqb_refl.
  - destruct (String.eqb k k'); [done|]. apply IH.
Qed.

Lemma dict_set_snoc {V} k (v v' : V) d :
  dict_get k d = None → dict_set k v' (d ++ [(k, v)]) = d ++ [(k, v')].
Proof.
  induction d as [|[k' w] d IH]; simpl.
  - by rewrite String.eqb_refl.
  - destruct (String.eqb k k'); [done|]. intros H. by rewrite IH.
Qed.

(** ** The command line *)

Lemma append_consts_more ns l fs :
  dict_get "_flags" ns = None →
  fold_left (λ ns f, argparse.append_const "_flags" (shortcut_cfg f) ns) fs
    (ns ++ [("_flags", NConsts l)])
  = ns ++ [("_flags", NConsts (l ++ map shortcut_cfg fs))].
Proof.
  intros Hns. revert l. induction fs as [|g fs IH]; intros l; simpl.
  - by rewrite app_nil_r.
  - unfold argparse.append_const at 2. rewrite (dict_get_snoc _ _ _ Hns).
    rewrite (dict_set_snoc _ _ _ _ Hns), IH. by rewrite <- app_assoc.
Qed.

Lemma append_consts_snoc ns f fs :
  dict_get "_flags" ns = None →
  fold_left (λ ns f, argparse.append_const "_flags" (shortcut_cfg f) ns) (f :: fs) ns
  = ns ++ [("_flags", NConsts (map shortcut_cfg (f :: fs)))].
Proof.
  intros Hns. cbn [fold_left]. unfold argparse.append_const at 2. rewrite Hns.
  rewrite (dict_set_fresh _ _ _ Hns). by rewrite append_consts_more.
Qed.

Lemma parse_shortcuts parser fs ns extras :
  (∀ f, argparse.find_action (long_switch f) parser ≫= argparse.action_of
        = Some (argparse.AppendConst "_flags" (shortcut_cfg f))) →
  argparse.parse_fragment parser (map long_switch fs) ns extras
  = Some (Parsed (fold_left (λ ns f, argparse.append_const "_flags" (shortcut_cfg f) ns) fs ns)
            extras).
Proof.
  intros Hact. revert ns. induction fs as [|f fs IH]; intros ns; [done|].
  cbn [map argparse.parse_fragment].
  replace (startswith (long_switch f) "-") with true by by destruct f.
  specialize (Hact f).
  destruct (argparse.find_action (long_switch f) parser) as [a|]; [|done].
  cbn [mbind option_bind] in *. rewrite Hact. apply IH.
Qed.

Lemma load_flags_shortcuts fs last c d :
  c !! "LogConfig" = Some (VConfig d) →
  ∃ c', KVArgParseConfigLoader.load_flags (map shortcut_cfg (fs ++ [last])) c = Return c'
        ∧ field "LogConfig" "stream_log_level" c' = Some (VStr (level last)).
Proof.
  revert c d. induction fs as [|f fs IH]; intros c d Hc; simpl.
  - unfold Config.getitem. rewrite Hc. simpl. eexists. split; [done|].
    unfold field. rewrite lookup_insert_eq.
    apply lookup_union_Some_l. by rewrite lookup_insert_eq.
  - unfold Config.getitem. rewrite Hc. simpl.
    eapply IH. by rewrite lookup_insert_eq.
Qed.


Lemma cli_parser lib :
  ∃ ld parser,
    get_argparse_loader lib = Return ld
    ∧ RichKVArgParseConfigLoader._add_arguments ld argparse.new_parser
      = Return ([], parser)
    ∧ forallb (λ a, bool_decide (is_Some (argparse.action_of a))) parser = true
    ∧ (∀ f, argparse.find_action (long_switch f) parser ≫= argparse.action_of
            = Some (argparse.AppendConst "_flags" (shortcut_cfg f)))
    ∧ (∀ f, argparse.registered (long_switch f) parser = true
            ∧ argparse.registered (short_switch f) parser = false)
    ∧ flag_extensions ld
      = [("filter-states",
          {| add_args := Some ["-q"; "--quiet"]; add_kwargs := None;
             section := Some "logging" |})]
    ∧ argparse.defaults parser []
      = [("LogConfig.file_log_level", NStr "DEBUG");
         ("LogConfig.log_path", NStr (PKG_NAME lib +:+ ".log"));
         ("LogConfig.stream_log_level", NStr "WARNING");
         ("BaseConfig.contact_limit", NStr "0");
         ("BaseConfig.dump_path", NStr "contacts.csv")].
Proof.
  destruct lib as [pkg descr le io ar kv fl nf tp pr]. destruct pkg as [|a pkg].
  all: do 2 eexists.
  all: (split; [vm_compute; reflexivity|]).
  all: split; [vm_compute; reflexivity|].
  all: split; [vm_compute; reflexivity|].
  all: split; [intros []; vm_compute; reflexivity|].
  all: split; [intros []; split; vm_compute; reflexivity|].
  all: split; vm_compute; reflexivity.
Qed.

(** *** The value of a text *)

Lemma all_chars_app p a b :
  ast.all_chars p (a +:+ b) = ast.all_chars p a && ast.all_chars p b.
Proof.
  induction a as [|c a IH]; [done|].
  rewrite string_app_cons. cbn [ast.all_chars]. by rewrite IH, andb_assoc.
Qed.

Lemma name_like_app a b :
  ast.name_like a = true → ast.all_chars ast.is_name_or_dot b = true →
  ast.name_like (a +:+ b) = true.
Proof.
  destruct a as [|c a]; [done|]. rewrite string_app_cons. cbn [ast.name_like].
  intros [-> Ha]%andb_true_iff Hb. by rewrite all_chars_app, Ha, Hb.
Qed.

Lemma char_in_app_r c a b : char_in c b = true → char_in c (a +:+ b) = true.
Proof.
  intros Hb. induction a as [|x a IH]; [by rewrite string_app_nil_l|].
  rewrite string_app_cons. cbn [char_in]. by rewrite IH, orb_true_r.
Qed.

Lemma expanduser_name os s :
  ast.name_like s = true → posixpath.expanduser os s = s.
Proof.
  destruct s as [|c r]; [done|]. cbn [ast.name_like].
  intros [Hc _]%andb_true_iff.
  destruct c as [[] [] [] [] [] [] [] []]; done.
Qed.

(** A name with a dot in it, such as [contacts.csv], is kept as a string. *)
Lemma rhs_value_dotted_name os lib s :
  ast.name_like s = true → char_in "." s = true →
  KVArgParseConfigLoader.rhs_value os lib s = Return (VStr s).
Proof.
  intros Hn Hd. unfold KVArgParseConfigLoader.rhs_value.
  rewrite expanduser_name by done. unfold ast.literal_eval. rewrite Hn.
  destruct (String.eqb_spec s "None") as [->|_]; [done|].
  destruct (String.eqb_spec s "True") as [->|_]; [done|].
  by destruct (String.eqb_spec s "False") as [->|_].
Qed.

Lemma rhs_value_log_path os lib :
  ast.name_like (PKG_NAME lib) = true →
  KVArgParseConfigLoader.rhs_value os lib (PKG_NAME lib +:+ ".log")
  = Return (VStr (PKG_NAME lib +:+ ".log")).
Proof.
  intros H. apply rhs_value_dotted_name.
  - by apply name_like_app.
  - by apply char_in_app_r.
Qed.

Lemma exec_config_str_field os lib lhs sec key rhs c :
  KVArgParseConfigLoader.split_dots lhs = [sec; key] →
  Config._is_section_key sec = true →
  Config._is_section_key key = false →
  is_Return (KVArgParseConfigLoader.rhs_value os lib rhs) = true →
  sections_only c →
  ∃ c', KVArgParseConfigLoader._exec_config_str os lib lhs rhs c = Return c'
        ∧ sections_only c' ∧ is_Some (c' !! sec)
        ∧ ∀ s, is_Some (c !! s) → is_Some (c' !! s).
Proof.
  intros Hsplit Hsec Hkey Hval Hc.
  unfold KVArgParseConfigLoader._exec_config_str. rewrite Hsplit.
  destruct (KVArgParseConfigLoader.rhs_value os lib rhs) as [value|e]; [|done].
  cbn [mbind result_bind].
  cbn [KVArgParseConfigLoader.set_path]. unfold Config.getitem, Config.setitem.
  rewrite Hsec, Hkey. simpl.
  destruct (Hc sec) as [Hnone | [d Hd]]; [rewrite Hnone | rewrite Hd]; simpl.
  all: eexists; split; [reflexivity|]; split; [|split].
  all: try (intros s; destruct (decide (s = sec)) as [->|Hne];
            [right; rewrite lookup_insert_eq; eauto
            |rewrite !lookup_insert_ne by done; apply Hc]).
  all: try (rewrite lookup_insert_eq; eauto).
  all: intros s Hs; destruct (decide (s = sec)) as [->|Hne];
       [rewrite lookup_insert_eq; eauto | by rewrite !lookup_insert_ne by done].
Qed.

Lemma convert_values_fields os lib alias_flags ns subcs c :
  Forall (λ kv : string * nsval,
            ∃ sec key rhs, kv.2 = NStr rhs
              ∧ KVArgParseConfigLoader.split_dots kv.1 = [sec; key]
              ∧ Config._is_section_key sec = true
              ∧ Config._is_section_key key = false
              ∧ is_Return (KVArgParseConfigLoader.rhs_value os lib rhs) = true) ns →
  sections_only c →
  ∃ c', KVArgParseConfigLoader.convert_values os lib alias_flags ns subcs c
        = Return (subcs, c')
        ∧ sections_only c'
        ∧ (∀ s, is_Some (c !! s) → is_Some (c' !! s))
        ∧ Forall (λ kv : string * nsval,
                    ∀ sec key, KVArgParseConfigLoader.split_dots kv.1 = [sec; key] →
                               is_Some (c' !! sec)) ns.
Proof.
  intros Hns. revert c.
  induction Hns as [|[k v] ns (sec & key & rhs & Hv & Hsplit & Hsec & Hkey & Hval) _ IH];
    intros c Hc.
  - exists c. repeat split; auto.
  - simpl in Hv, Hsplit. subst v. simpl.
    destruct (exec_config_str_field os lib k sec key rhs c Hsplit Hsec Hkey Hval Hc)
      as (c1 & -> & Hc1 & Hsome & Hmono).
    simpl. destruct (IH c1 Hc1) as (c' & -> & Hc' & Hmono' & Hall).
    exists c'. repeat split; auto.
    constructor; [|done]. simpl. intros sec' key' Heq. rewrite Hsplit in Heq.
    injection Heq as <- <-. by apply Hmono'.
Qed.

Lemma parse_cli_shortcuts os lib fs last :
  ast.name_like (PKG_NAME lib) = true →
  ∃ cli, parse_cli os lib (map long_switch (fs ++ [last])) = Return cli
         ∧ field "LogConfig" "stream_log_level" cli = Some (VStr (level last)).
Proof.
  intros Hpkg.
  destruct (cli_parser lib)
    as (ld & parser & Hld & Hargs & Hacts & Hfind & _ & _ & Hdefaults).
  assert (dict_get "_flags" (argparse.defaults parser []) = None) as Hflags
    by by rewrite Hdefaults.
  unfold parse_cli, RichKVArgParseConfigLoader.load_config.
  rewrite Hld. simpl. rewrite Hargs. simpl.
  unfold argparse.parse_known_args. rewrite Hacts.
  rewrite (parse_shortcuts _ _ _ _ Hfind).
  destruct (fs ++ [last]) as [|f fs'] eqn:Hfs; [by destruct fs|].
  rewrite (append_consts_snoc _ _ _ Hflags).
  unfold KVArgParseConfigLoader._convert_to_config.
  rewrite (dict_get_snoc _ _ _ Hflags).
  rewrite filter_app, filter_cons_False, filter_nil, app_nil_r by (simpl; tauto).
  rewrite Hdefaults.
  match goal with |- context [filter ?P ?l] =>
    replace (filter P l) with l by reflexivity end.
  cbn [mbind result_bind].
  match goal with |- context [KVArgParseConfigLoader.convert_values os lib [] ?ns ?subcs ∅] =>
    destruct (convert_values_fields os lib [] ns subcs ∅) as (c & Hconv & Hc & _ & Hall)
  end.
  { repeat first [apply Forall_cons_2 | apply Forall_nil_2].
    all: eexists _, _, _; do 4 (split; [reflexivity|]).
    all: cbn [snd]; try reflexivity.
    by rewrite rhs_value_log_path. }
  { intros s. left. apply lookup_empty. }
  rewrite Hconv. cbn [mbind result_bind].
  apply Forall_cons_1 in Hall as [Hlog _].
  specialize (Hlog "LogConfig" "file_log_level" eq_refl).
  destruct (Hc "LogConfig") as [Hnone | [d Hd]]; [rewrite Hnone in Hlog; by destruct Hlog|].
  rewrite <- Hfs.
  destruct (load_flags_shortcuts fs last c d Hd) as (c' & -> & Hfield).
  eauto.
Qed.

(** C9.  Shortcut flags are applied to the cli layer in command-line token
    order, a later one overwriting an earlier one: whatever shortcuts come
    first, the stream log level of the cli layer is the level of the last
    one.  In particular [--verbose --quiet] gives ERROR and
    [--quiet --verbose] gives INFO. *)
Theorem shortcuts_apply_in_token_order (os : os_state) (lib : library) :
  ast.name_like (PKG_NAME lib) = true →
  (∀ fs last, ∃ cli,
      parse_cli os lib (map long_switch (fs ++ [last])) = Return cli
      ∧ field "LogConfig" "stream_log_level" cli = Some (VStr (level last)))
  ∧ (∃ cli, parse_cli os lib ["--verbose"; "--quiet"] = Return cli
            ∧ field "LogConfig" "stream_log_level" cli = Some (VStr "ERROR"))
  ∧ (∃ cli, parse_cli os lib ["--quiet"; "--verbose"] = Return cli
            ∧ field "LogConfig" "stream_log_level" cli = Some (VStr "INFO")).
Proof.
  intros Hpkg. split; [intros fs last; by apply parse_cli_shortcuts|].
  split; [by apply (parse_cli_shortcuts os lib [verbose] quiet)
         |by apply (parse_cli_shortcuts os lib [quiet] verbose)].
Qed.

Lemma shortcuts_apply_in_token_order_witness :
  ast.name_like (PKG_NAME example_lib) = true
  ∧ ∃ cli, parse_cli example_os example_lib ["--verbose"; "--quiet"] = Return cli
           ∧ field "LogConfig" "stream_log_level" cli = Some (VStr "ERROR").
Proof.
  split; [reflexivity|].
  apply (shortcuts_apply_in_token_order example_os example_lib eq_refl).
Defined.

(** C3.  What the parser of [get_argparse_loader] registers for the three
    shortcuts: the extension of the last flag ends up under the last alias
    key, every flag falls back to its default switch, and so the long
    spellings are registered and the short ones are not. *)
Theorem short_switches_not_registered (lib : library) :
  ∃ ld alias_flags parser,
    get_argparse_loader lib = Return ld
    ∧ RichKVArgParseConfigLoader._add_arguments ld argparse.new_parser
      = Return (alias_flags, parser)
    ∧ flag_extensions ld
      = [("filter-states",
          {| add_args := Some ["-q"; "--quiet"]; add_kwargs := None;
             section := Some "logging" |})]
    ∧ ∀ f, argparse.registered (long_switch f) parser = true
           ∧ argparse.registered (short_switch f) parser = false.
Proof.
  destruct (cli_parser lib) as (ld & parser & Hld & Hargs & _ & _ & Hreg & Hext & _).
  exists ld, [], parser. auto.
Qed.

(** ** The file loader *)

(** C6.  [load_single_file_config] selects its loader by the extension of
    the path alone: [.py] and [.json] go to their loader, and for any other
    extension it raises a [ConfigException] whose message names both
    supported extensions and the path.  The equation holds for every
    library, including one whose file loaders fail on every path, so no
    loader was run before the exception. *)
Theorem load_single_file_config_by_extension
    (lib : library) (config_path : string) (config : gmap string pyval) :
  let extension := (posixpath.splitext config_path).2 in
  (extension = ".py" →
   load_single_file_config lib config_path config
   = file_load_config lib PyFileConfigLoader config_path)
  ∧ (extension = ".json" →
     load_single_file_config lib config_path config
     = file_load_config lib JSONFileConfigLoader config_path)
  ∧ (extension ≠ ".py" → extension ≠ ".json" →
     ∃ msg, load_single_file_config lib config_path config
            = Raise (ConfigException msg)
            ∧ contains ".py" msg ∧ contains ".json" msg
            ∧ contains config_path msg).
Proof.
  unfold load_single_file_config, loader_class.
  destruct (posixpath.splitext config_path) as [root extension]. simpl.
  split; [|split].
  - by intros ->.
  - by intros ->.
  - intros Hpy Hjson.
    apply String.eqb_neq in Hpy as ->. apply String.eqb_neq in Hjson as ->.
    eexists. split; [reflexivity|]. unfold extension_keys_str.
    split; [|split].
    + exists "invalid config file extension (must be in dict_keys(['",
        ("', '.json'])) in file " +:+ config_path). reflexivity.
    + exists "invalid config file extension (must be in dict_keys(['.py', '",
        ("'])) in file " +:+ config_path). reflexivity.
    + apply contains_app_r, contains_app_r, contains_app_r, contains_end.
Qed.

Lemma load_single_file_config_by_extension_witness :
  ∃ msg, load_single_file_config example_lib "config.yaml" ∅
         = Raise (ConfigException msg)
         ∧ contains ".py" msg ∧ contains ".json" msg
         ∧ contains "config.yaml" msg.
Proof.
  apply (load_single_file_config_by_extension example_lib "config.yaml" ∅);
    vm_compute; discriminate.
Defined.

(** ** The config path *)

Lemma expand_relative_path_total os p dir :
  dir = VNone ∨ (∃ d, dir = VStr d) →
  ∃ path, expand_relative_path os (VStr p) dir = Return path.
Proof.
  intros [-> | [d ->]]; unfold expand_relative_path; simpl.
  - rewrite andb_false_r. eauto.
  - destruct (_ && _); eauto.
Qed.

(** C7.  For a non-empty path string, [validate_config_path] expands the
    path relative to the configured [config_dir] and raises
    [ConfigFileNotFound] exactly when the expanded path does not exist; the
    message holds the expanded path and the [config_dir] it was given
    ([None] when none is configured).  Otherwise it returns the expanded
    path. *)
Theorem validate_config_path_spec
    (os : os_state) (lib : library) (p : string) (config : gmap string pyval) :
  p ≠ "" →
  section_or_missing "BaseConfig" config →
  (config_dir_of config = VNone ∨ ∃ d, config_dir_of config = VStr d) →
  ∃ path,
    expand_relative_path os (VStr p) (config_dir_of config) = Return path
    ∧ if path_exists os path
      then validate_config_path os lib (VStr p) config
           = Return (Some path, with_section "BaseConfig" config)
      else ∃ msg,
           validate_config_path os lib (VStr p) config
           = Raise (ConfigFileNotFound msg)
           ∧ contains path msg
           ∧ contains (pystr lib (config_dir_of config)) msg.
Proof.
  intros Hp Hsec Hdir.
  destruct (expand_relative_path_total os p _ Hdir) as [path Hpath].
  exists path. split; [done|].
  assert (truthy (VStr p) = true) as Htrue.
  { simpl. by apply String.eqb_neq in Hp as ->. }
  unfold validate_config_path. rewrite Htrue. cbn [negb].
  assert (∃ base, Config.getitem "BaseConfig" config
                  = Return (VConfig base, with_section "BaseConfig" config)
                  ∧ default VNone (base !! "config_dir") = config_dir_of config)
    as (base & -> & Hbase).
  { unfold Config.getitem, with_section, config_dir_of, field.
    destruct Hsec as [-> | [d ->]]; simpl; eauto. }
  cbn [mbind result_bind py_get fmap result_fmap]. rewrite Hbase.
  cbn [mbind result_bind]. rewrite Hpath. cbn [mbind result_bind].
  destruct (path_exists os path); cbn [negb]; [done|].
  eexists. split; [reflexivity|]. split.
  - apply contains_app_r, contains_here.
  - apply contains_app_r, contains_app_r, contains_app_r, contains_end.
Qed.

Lemma validate_config_path_spec_witness :
  ∃ path,
    expand_relative_path example_os (VStr "conf.json")
      (config_dir_of {[ "BaseConfig" := VConfig {[ "config_dir" := VStr "/etc/xmg" ]} ]})
    = Return path
    ∧ if path_exists example_os path
      then validate_config_path example_os example_lib (VStr "conf.json")
             {[ "BaseConfig" := VConfig {[ "config_dir" := VStr "/etc/xmg" ]} ]}
           = Return (Some path,
                     with_section "BaseConfig"
                       {[ "BaseConfig" := VConfig {[ "config_dir" := VStr "/etc/xmg" ]} ]})
      else ∃ msg,
           validate_config_path example_os example_lib (VStr "conf.json")
             {[ "BaseConfig" := VConfig {[ "config_dir" := VStr "/etc/xmg" ]} ]}
           = Raise (ConfigFileNotFound msg)
           ∧ contains path msg
           ∧ contains (pystr example_lib
                         (config_dir_of
                            {[ "BaseConfig" := VConfig {[ "config_dir" := VStr "/etc/xmg" ]} ]}))
               msg.
Proof.
  apply (validate_config_path_spec example_os example_lib "conf.json").
  - discriminate.
  - right. eexists. reflexivity.
  - right. eexists. reflexivity.
Defined.

(** ** The validator *)

Lemma validate_config_unfold config d :
  config !! "XeroApiConfig" = Some (VConfig d) →
  validate_config config
  = (if truthy (default VNone (d !! "rsa_key_path"))
        && truthy (default VNone (d !! "consumer_key"))
     then Return () else Raise (ConfigException credentials_message), config).
Proof.
  intros H. unfold validate_config, Config.getitem. rewrite H. simpl.
  rewrite H. simpl. by destruct (_ && _).
Qed.

Lemma validate_config_with_section config :
  section_or_missing "XeroApiConfig" config →
  validate_config config
  = ((validate_config (with_section "XeroApiConfig" config)).1,
     with_section "XeroApiConfig" config).
Proof.
  unfold with_section. intros [Hnone | [d Hd]].
  - rewrite Hnone.
    rewrite (validate_config_unfold (<["XeroApiConfig" := VConfig ∅]> config) ∅)
      by apply lookup_insert_eq.
    unfold validate_config, Config.getitem. rewrite Hnone. simpl.
    by rewrite lookup_insert_eq.
  - rewrite Hd. by rewrite (validate_config_unfold _ _ Hd).
Qed.

Lemma truthy_default o :
  truthy (default VNone o) = false ↔ unset_or_empty o.
Proof. destruct o; simpl; [done|]. split; auto. Qed.

(** C8 (as amended).  When the [XeroApiConfig] item is missing or a
    [Config], [validate_config] raises the credentials [ConfigException] if
    and only if one of [rsa_key_path] and [consumer_key] is unset or empty,
    and returns normally otherwise.  In both cases the config is left as it
    was, except that a missing [XeroApiConfig] section is created empty. *)
Theorem validate_config_spec (config : gmap string pyval) :
  section_or_missing "XeroApiConfig" config →
  ((validate_config config).1 = Raise (ConfigException credentials_message)
   ↔ unset_or_empty (credential "rsa_key_path" config)
     ∨ unset_or_empty (credential "consumer_key" config))
  ∧ ((validate_config config).1 = Return ()
     ↔ ¬ (unset_or_empty (credential "rsa_key_path" config)
          ∨ unset_or_empty (credential "consumer_key" config)))
  ∧ (validate_config config).2 = with_section "XeroApiConfig" config
  ∧ (is_Some (config !! "XeroApiConfig") → (validate_config config).2 = config).
Proof.
  intros Hsec.
  assert (∃ d, with_section "XeroApiConfig" config !! "XeroApiConfig" = Some (VConfig d)
               ∧ ∀ k, credential k config = d !! k) as (d & Hd & Hcred).
  { unfold with_section, credential, field.
    destruct Hsec as [-> | [d' Hd']].
    - exists ∅. by rewrite lookup_insert_eq.
    - rewrite Hd'. eauto. }
  rewrite (validate_config_with_section _ Hsec), (validate_config_unfold _ _ Hd).
  rewrite !Hcred, <- !truthy_default. simpl.
  split; [|split; [|split]].
  - destruct (truthy (default VNone (d !! "rsa_key_path"))),
             (truthy (default VNone (d !! "consumer_key"))); simpl;
      (split; [intros; try done; auto | intros [?|?]; done]).
  - destruct (truthy (default VNone (d !! "rsa_key_path"))),
             (truthy (default VNone (d !! "consumer_key"))); simpl;
      (split; [intros ? [?|?]; done | intros H; try done; exfalso; apply H; auto]).
  - done.
  - intros [v Hv]. unfold with_section. by rewrite Hv.
Qed.

Lemma validate_config_spec_witness :
  (validate_config
     {[ "XeroApiConfig" := VConfig {[ "rsa_key_path" := VStr "key.pem";
                                      "consumer_key" := VStr "abc" ]} ]}).1
  = Return ().
Proof.
  apply (validate_config_spec
           {[ "XeroApiConfig" := VConfig {[ "rsa_key_path" := VStr "key.pem";
                                            "consumer_key" := VStr "abc" ]} ]}).
  - right. eexists. reflexivity.
  - vm_compute. intros [H | H]; discriminate H.
Defined.

(** C8, the claim as stated: on a config without an [XeroApiConfig] section
    the function raises and the config has changed. *)
Lemma validate_config_changes_config :
  (validate_config ∅).1 = Raise (ConfigException credentials_message)
  ∧ (validate_config ∅).2 ≠ ∅.
Proof.
  split; [reflexivity|]. intros H.
  assert ((validate_config ∅).2 !! "XeroApiConfig" = (∅ : gmap string pyval) !! "XeroApiConfig")
    as Hl by by rewrite H.
  vm_compute in Hl. discriminate Hl.
Qed.

(** ** The trait validators *)

(** A validator of the common shape returns only on a proposal that holds
    a value under the name of the trait, and then returns [None]. *)
Lemma not_falsey_validator_returns lib cls name proposal v :
  not_falsey_validator lib cls name proposal = Return v →
  v = VNone ∧ is_Some (proposal !! name).
Proof.
  unfold not_falsey_validator. destruct (proposal !! name) as [x|]; [|done].
  destruct (not_falsey lib x _); [|done]. simpl. intros [= <-]. eauto.
Qed.

(** C10.  Assigning a value to one of the validated traits hands its
    validator the proposal of traitlets, with the keys [trait], [value] and
    [owner].  Each of the five validators reads the proposal under the
    name of its own trait and not under [value]: the lookup raises
    [KeyError], whatever the value, so the validator returns nothing and
    the assignment stores nothing. *)
Theorem validators_raise_key_error (lib : library) (value : pyval) :
  _cross_validate (_valid_consumer_key lib) value = Raise (KeyError "consumer_key")
  ∧ _cross_validate (_valid_contact_groups lib) value
    = Raise (KeyError "contact_groups")
  ∧ _cross_validate (_valid_states lib) value = Raise (KeyError "states")
  ∧ _cross_validate (_valid_countries lib) value = Raise (KeyError "countries")
  ∧ _cross_validate (_valid_rsa_key_path lib) value
    = Raise (KeyError "rsa_key_path").
Proof. repeat split; reflexivity. Qed.

Example assignment_of_consumer_key :
  _cross_validate (_valid_consumer_key example_lib) (VStr "abc")
  = Raise (KeyError "consumer_key").
Proof. reflexivity. Qed.

(** ** The alias mapping *)

Lemma collect_app lib cls m1 m2 acc :
  RichConfigurable.collect lib cls (m1 ++ m2) acc
  = RichConfigurable.collect lib cls m2 (RichConfigurable.collect lib cls m1 acc).
Proof.
  revert acc. induction m1 as [|[key t] m1 IH]; intros acc; [done|].
  simpl. by destruct (bool_decide _).
Qed.

Lemma collect_other_keys lib cls members acc K :
  Forall (λ m : string * trait,
            m.1 = "config" ∨ m.1 = "parent"
            ∨ RichConfigurable.alias_key m.1 m.2 ≠ K) members →
  dict_get K (RichConfigurable.collect lib cls members acc) = dict_get K acc.
Proof.
  intros H. revert acc. induction H as [|[key t] members Hm _ IH]; intros acc; [done|].
  simpl in *. case_bool_decide as Hres; [apply IH|].
  rewrite IH. apply dict_get_set_ne. intros ->. tauto.
Qed.

(** C4 (as amended).  Two fields that produce the same alias key do not
    make the registration fail: [trait_argparse_aliases] returns a mapping
    in every case, in which the key is bound to the entry of the field that
    comes last among the members with that key, whatever came before; and
    the registry of the four shipped classes is accepted by the loader. *)
Theorem alias_collision_last_wins
    (lib : library) (cls : configurable)
    (pre post : list (string * trait)) (key : string) (t : trait) :
  RichConfigurable.getmembers cls = pre ++ (key, t) :: post →
  key ≠ "config" → key ≠ "parent" →
  Forall (λ m : string * trait,
            m.1 = "config" ∨ m.1 = "parent"
            ∨ RichConfigurable.alias_key m.1 m.2 ≠ RichConfigurable.alias_key key t)
         post →
  dict_get (RichConfigurable.alias_key key t)
           (RichConfigurable.trait_argparse_aliases lib cls)
  = Some (RichConfigurable.alias_dict lib cls key t)
  ∧ ∃ ld, get_argparse_loader lib = Return ld.
Proof.
  intros Hmembers Hc Hp Hpost. split.
  - unfold RichConfigurable.trait_argparse_aliases. rewrite Hmembers.
    rewrite collect_app. simpl.
    rewrite bool_decide_eq_false_2 by tauto.
    rewrite (collect_other_keys _ _ _ _ _ Hpost). apply dict_get_set_eq.
  - destruct (cli_parser lib) as (ld & _ & Hld & _). eauto.
Qed.

Lemma alias_collision_last_wins_witness :
  dict_get "log-dir" (RichConfigurable.trait_argparse_aliases example_lib colliding_class)
  = Some (RichConfigurable.alias_dict example_lib colliding_class "other"
            (Unicode "" (Some "log-dir") []))
  ∧ ∃ ld, get_argparse_loader example_lib = Return ld.
Proof.
  apply (alias_collision_last_wins example_lib colliding_class
           [("config", {| switch := None; metadata := []; default_value := VConfig ∅ |});
            ("log_dir", Unicode "" None [])]
           [("parent", {| switch := None; metadata := []; default_value := VNone |})]
           "other" (Unicode "" (Some "log-dir") [])).
  - reflexivity.
  - discriminate.
  - discriminate.
  - constructor; [right; left; reflexivity | constructor].
Defined.

(** C4, the claim as stated: the two traits of [colliding_class] produce the
    same alias key, and yet the alias mapping is built, with a single entry
    for that key, the loader is constructed from it and its parser is set
    up, all without an error. *)
Lemma colliding_aliases_are_accepted :
  RichConfigurable.alias_key "log_dir" (Unicode "" None [])
  = RichConfigurable.alias_key "other" (Unicode "" (Some "log-dir") [])
  ∧ ∃ ld alias_flags parser,
      RichKVArgParseConfigLoader.__init__
        (RichConfigurable.trait_argparse_aliases example_lib colliding_class)
        builtin_flags "" = Return ld
      ∧ aliases ld = [("log-dir", "Dup.other")]
      ∧ RichKVArgParseConfigLoader._add_arguments ld argparse.new_parser
        = Return (alias_flags, parser).
Proof.
  split; [reflexivity|]. do 3 eexists.
  split; [vm_compute; reflexivity|]. split; vm_compute; reflexivity.
Qed.

(** ** The layers of [load_config] *)

Lemma getitem_lookup_eq key c v c' :
  Config.getitem key c = Return (v, c') → c' !! key = Some v.
Proof.
  intros [[? ->] | (_ & -> & _)]%getitem_inv; [done|]. apply lookup_insert_eq.
Qed.

Lemma getitem_present key c v :
  c !! key = Some v → Config.getitem key c = Return (v, c).
Proof. intros H. unfold Config.getitem. by rewrite H. Qed.

Lemma setitem_inv key v c c' :
  Config.setitem key v c = Return c' → c' = <[key := v]> c.
Proof. unfold Config.setitem. destruct (_ && _); [done|]. by intros [= <-]. Qed.

Lemma as_config_inv v d : as_config v = Return d → v = VConfig d.
Proof. destruct v; try done. by intros [= <-]. Qed.

Lemma py_contains_false key v c s :
  char_in "." key = false →
  c !! s = Some v → py_contains key v = Return false → field s key c = None.
Proof.
  unfold field. intros Hk -> H. rewrite py_contains_plain in H by done.
  destruct v; try done. simpl in H.
  injection H as H. apply bool_decide_eq_false in H.
  by apply eq_None_not_Some.
Qed.

Lemma pull_field_spec sec key cli config cli' config' :
  pull_field sec key cli config = Return (cli', config') →
  char_in "." key = false →
  (∀ s k, field s k cli' = field s k cli)
  ∧ (∀ s k, field s k config'
            = if decide (s = sec ∧ k = key)
              then match field sec key cli with
                   | Some v => Some v
                   | None => field s k config
                   end
              else field s k config)
  ∧ (∀ x, x ≠ sec → config' !! x = config !! x).
Proof.
  unfold pull_field. intros H Hplain.
  apply bind_Return in H as ([csec cli1] & Hget & H).
  apply bind_Return in H as (present & Hin & H).
  rewrite py_contains_plain in Hin by done.
  pose proof (getitem_lookup_eq _ _ _ _ Hget) as Hcsec.
  destruct present.
  - apply bind_Return in H as ([csec2 cli2] & Hget2 & H).
    rewrite (getitem_present _ _ _ Hcsec) in Hget2. injection Hget2 as <- <-.
    apply bind_Return in H as (d & ->%as_config_inv & H).
    apply bind_Return in H as ([v d'] & Hkey & H).
    simpl in Hin. injection Hin as Hin. apply bool_decide_eq_true in Hin as [v0 Hv0].
    rewrite (getitem_present _ _ _ Hv0) in Hkey. injection Hkey as <- <-.
    apply bind_Return in H as ([tsec config1] & Hget3 & H).
    apply bind_Return in H as (t & ->%as_config_inv & H).
    apply bind_Return in H as (t' & ->%setitem_inv & H).
    injection H as <- <-.
    assert (field sec key cli = Some v0) as Hfield.
    { rewrite <- (getitem_field _ _ _ _ sec key Hget). unfold field. by rewrite Hcsec. }
    rewrite (insert_id _ _ _ Hcsec).
    split; [intros s k; apply (getitem_field _ _ _ _ s k Hget)|]. split.
    + intros s k. rewrite Hfield.
      rewrite <- (getitem_field _ _ _ _ s k Hget3).
      pose proof (getitem_lookup_eq _ _ _ _ Hget3) as Ht.
      unfold field. destruct (decide (s = sec)) as [->|Hne].
      * rewrite lookup_insert_eq, Ht.
        destruct (decide (k = key)) as [->|Hk].
        -- rewrite lookup_insert_eq. by rewrite decide_True.
        -- rewrite lookup_insert_ne by done. rewrite decide_False; [done|tauto].
      * rewrite lookup_insert_ne by done. rewrite decide_False; [done|tauto].
    + intros x Hx. rewrite lookup_insert_ne by done.
      by apply (getitem_lookup _ _ _ _ _ Hget3).
  - injection H as <- <-.
    assert (field sec key cli = None) as Hfield.
    { rewrite <- (getitem_field _ _ _ _ sec key Hget).
      eapply py_contains_false; [done..|]. by rewrite py_contains_plain. }
    split; [intros s k; apply (getitem_field _ _ _ _ s k Hget)|]. split; [|done].
    intros s k. rewrite Hfield. by destruct (decide _).
Qed.

Lemma pull_forward_spec cli config cli' config' :
  pull_forward cli config = Return (cli', config') →
  (∀ s k, field s k cli' = field s k cli)
  ∧ (∀ s k, field s k config'
            = if pulled_forward s k
              then match field s k cli with
                   | Some v => Some v
                   | None => field s k config
                   end
              else field s k config)
  ∧ (∀ x, x ≠ "BaseConfig" → x ≠ "LogConfig" → config' !! x = config !! x).
Proof.
  unfold pull_forward. intros H.
  apply bind_Return in H as ([cli1 config1] & H1 & H).
  apply pull_field_spec in H1 as (Hc1 & Hf1 & Hx1); [|done].
  apply bind_Return in H as ([cli2 config2] & H2 & H).
  apply pull_field_spec in H2 as (Hc2 & Hf2 & Hx2); [|done].
  apply pull_field_spec in H as (Hc3 & Hf3 & Hx3); [|done].
  split; [intros s k; by rewrite Hc3, Hc2, Hc1|]. split.
  - intros s k. rewrite Hf3, Hf2, Hf1, !Hc2, !Hc1. unfold pulled_forward.
    destruct (decide (s = "LogConfig" ∧ k = "stream_log_level")) as [[-> ->]|H3].
    { rewrite bool_decide_eq_true_2 by set_solver.
      by rewrite !decide_False by (intros [? ?]; done). }
    destruct (decide (s = "BaseConfig" ∧ k = "config_dir")) as [[-> ->]|H2].
    { rewrite bool_decide_eq_true_2 by set_solver.
      by rewrite !decide_False by (intros [? ?]; done). }
    destruct (decide (s = "BaseConfig" ∧ k = "config_path")) as [[-> ->]|H1].
    { by rewrite bool_decide_eq_true_2 by set_solver. }
    rewrite bool_decide_eq_false_2; [done|]. intros Hin.
    rewrite !elem_of_cons, elem_of_nil in Hin.
    destruct Hin as [[= -> ->]|[[= -> ->]|[[= -> ->]|[]]]]; tauto.
  - intros x Hb Hl. by rewrite Hx3, Hx2, Hx1.
Qed.

Lemma load_cli_config_spec os lib argv config cli config' :
  load_cli_config os lib argv config = Return (cli, config') →
  config' = <["argparse_loader" := VObject "RichKVArgParseConfigLoader"]> config
  ∧ ∃ parsed, parse_cli os lib argv = Return parsed
              ∧ ∀ s k, field s k cli = field s k parsed.
Proof.
  unfold load_cli_config, parse_cli. intros H.
  apply bind_Return in H as (ld & -> & H). cbn [mbind result_bind].
  apply bind_Return in H as (config1 & ->%setitem_inv & H).
  apply bind_Return in H as (parsed & Hparsed & H).
  apply bind_Return in H as ([log cli1] & Hget & H).
  apply bind_Return in H as (kw & _ & H). injection H as <- <-.
  split; [done|]. exists parsed. split.
  - destruct (RichKVArgParseConfigLoader.load_config os lib ld argv) as [c|[]];
      try done.
  - intros s k. apply (getitem_field _ _ _ _ s k Hget).
Qed.

Lemma load_config_before_file_spec os lib argv proto cli config :
  load_config_before_file os lib argv proto = Return (cli, config) →
  (∃ parsed, parse_cli os lib argv = Return parsed
             ∧ ∀ s k, field s k cli = field s k parsed)
  ∧ ∀ s k, Config._is_section_key s = true →
      field s k config
      = if pulled_forward s k
        then match field s k cli with
             | Some v => Some v
             | None => field s k proto
             end
        else field s k proto.
Proof.
  unfold load_config_before_file. intros H.
  apply bind_Return in H as (config1 & [x Hmerge]%merge_source_inv & H).
  apply bind_Return in H as ([log config2] & Hget & H).
  apply bind_Return in H as (kw & _ & H).
  apply bind_Return in H as ([cli1 config3] & (-> & parsed & Hparsed & Hcli1)%load_cli_config_spec & H).
  apply pull_forward_spec in H as (Hcli & Hconfig & _).
  split.
  - exists parsed. split; [done|]. intros s k. by rewrite Hcli, Hcli1.
  - intros s k Hs. rewrite Hconfig, Hcli.
    assert (field s k (<["argparse_loader" := VObject "RichKVArgParseConfigLoader"]> config2)
            = field s k proto) as ->; [|done].
    rewrite field_insert_ne by by apply section_key_not_loader.
    rewrite (getitem_field _ _ _ _ s k Hget).
    unfold field. rewrite (merge_lookup_new _ _ _ _ s Hmerge); [done|].
    rewrite lookup_insert_ne by (apply not_eq_sym; by apply section_key_not_sources).
    unfold RichConfig.__init__.
    by rewrite lookup_singleton_ne
      by (apply not_eq_sym; by apply section_key_not_sources).
Qed.

Lemma validate_config_path_field os lib p config r config' s k :
  validate_config_path os lib p config = Return (r, config') →
  field s k config' = field s k config.
Proof.
  unfold validate_config_path. destruct (negb (truthy p)); [by intros [= <- <-]|].
  intros H.
  apply bind_Return in H as ([base config1] & Hget & H).
  apply bind_Return in H as (dir & _ & H).
  apply bind_Return in H as (path & _ & H).
  destruct (negb _); [done|]. injection H as <- <-.
  apply (getitem_field _ _ _ _ s k Hget).
Qed.

Lemma load_file_config_field os lib config file config' s k :
  load_file_config os lib config = Return (file, config') →
  field s k config' = field s k config.
Proof.
  unfold load_file_config. intros H.
  apply bind_Return in H as ([base config1] & Hget1 & H).
  apply bind_Return in H as (has_dir & Hin & H).
  apply bind_Return in H as (config2 & Hdir & H).
  apply bind_Return in H as ([base3 config3] & Hget3 & H).
  apply bind_Return in H as (cp & _ & H).
  apply bind_Return in H as ([cp' config4] & Hval & H).
  apply bind_Return in H as (fc & _ & H). injection H as <- <-.
  rewrite (validate_config_path_field _ _ _ _ _ _ s k Hval).
  rewrite (getitem_field _ _ _ _ s k Hget3).
  rewrite <- (getitem_field _ _ _ _ s k Hget1).
  pose proof (getitem_lookup_eq _ _ _ _ Hget1) as Hbase.
  destruct has_dir; [|by injection Hdir as <-].
  apply bind_Return in Hdir as ([base2 config1'] & Hget2 & Hdir).
  rewrite (getitem_present _ _ _ Hbase) in Hget2. injection Hget2 as <- <-.
  apply bind_Return in Hdir as (d & ->%as_config_inv & Hdir).
  apply bind_Return in Hdir as ([v d'] & Hkey & Hdir). injection Hdir as <-.
  rewrite py_contains_plain in Hin by done.
  simpl in Hin. injection Hin as Hin. apply bool_decide_eq_true in Hin as [v0 Hv0].
  rewrite (getitem_present _ _ _ Hv0) in Hkey. injection Hkey as <- <-.
  by rewrite (insert_id _ _ _ Hbase).
Qed.

Lemma validate_config_field config s k :
  field s k (validate_config config).2 = field s k config.
Proof.
  unfold validate_config.
  destruct (Config.getitem "XeroApiConfig" config) as [[xero config1]|e] eqn:Hget;
    [|done].
  pose proof (getitem_field _ _ _ _ s k Hget) as Hf.
  destruct (py_get "rsa_key_path" xero); [|done].
  rewrite (getitem_present _ _ _ (getitem_lookup_eq _ _ _ _ Hget)).
  destruct (py_get "consumer_key" xero); [|done].
  by destruct (_ && _).
Qed.

(** C1.  A run of [load_config] that completes normally merges in the
    order proto, file, cli.  For every field of a section: the value the
    cli layer sets is the final value; and, when the name of the section
    has no dot, a value the file layer sets is the final value if the cli
    layer does not set the field, and a value only the proto layer sets is
    still there at the end, so such a section is merged key by key and not
    replaced as a whole.  (A value is a leaf when it is not itself a
    [Config].) *)
Theorem load_config_precedence
    (os : os_state) (lib : library) (argv : list string)
    (proto_config final : gmap string pyval) :
  load_config os lib argv proto_config = Return final →
  ∃ cli_config config file_config config',
    load_config_before_file os lib argv proto_config = Return (cli_config, config)
    ∧ load_file_config os lib config = Return (file_config, config')
    ∧ ∀ s k v, Config._is_section_key s = true →
        (is_config v = false → field s k cli_config = Some v →
         field s k final = Some v)
        ∧ (char_in "." s = false → is_config v = false → unset s k cli_config →
           field s k file_config = Some v → field s k final = Some v)
        ∧ (char_in "." s = false → unset s k cli_config → unset s k file_config →
           field s k proto_config = Some v → field s k final = Some v).
Proof.
  unfold load_config. intros H.
  apply bind_Return in H as ([cli config] & Hbefore & H).
  unfold load_config_from_file in H.
  apply bind_Return in H as ([file config'] & Hfile & H).
  apply bind_Return in H as (config1 & Hmerge1 & H).
  apply bind_Return in H as (config2 & Hmerge2 & H).
  exists cli, config, file, config'. split; [done|]. split; [done|].
  assert (∀ s k, field s k final = field s k config2) as Hfinal.
  { intros s k. rewrite <- (validate_config_field config2 s k).
    destruct (validate_config config2) as [[[]|[]] c]; try done.
    by injection H as <-. }
  intros s k v Hs. rewrite Hfinal. split; [|split].
  - intros Hleaf Hcli. by eapply merge_source_field_set.
  - intros Hd Hleaf Hcli Hf.
    rewrite (merge_source_field_unset _ _ _ _ _ _ _ Hmerge2 Hs Hd Hcli).
    by eapply merge_source_field_set.
  - intros Hd Hcli Hf Hproto.
    rewrite (merge_source_field_unset _ _ _ _ _ _ _ Hmerge2 Hs Hd Hcli).
    rewrite (merge_source_field_unset _ _ _ _ _ _ _ Hmerge1 Hs Hd Hf).
    rewrite (load_file_config_field _ _ _ _ _ s k Hfile).
    destruct (load_config_before_file_spec _ _ _ _ _ _ Hbefore) as [_ Hconfig].
    rewrite (Hconfig s k Hs).
    assert (field s k cli = None) as ->.
    { unfold field. by destruct Hcli as [-> | (sec & -> & ->)]. }
    by destruct (pulled_forward s k).
Qed.

(** A section whose name has a dot is replaced as a whole: the config
    file holds [{'X.Y': {'b': 2}}], the proto layer [{'X.Y': {'a': 1}}],
    the command line names the file only, and the run ends without the
    field [a] of the proto layer. *)
Lemma dotted_section_replaced :
  ∃ cli_config config file_config config' final,
    load_config_before_file example_os dotted_lib dotted_argv dotted_proto
    = Return (cli_config, config)
    ∧ load_file_config example_os dotted_lib config = Return (file_config, config')
    ∧ load_config example_os dotted_lib dotted_argv dotted_proto = Return final
    ∧ Config._is_section_key "X.Y" = true
    ∧ unset "X.Y" "a" cli_config ∧ unset "X.Y" "a" file_config
    ∧ field "X.Y" "a" dotted_proto = Some (VInt 1)
    ∧ field "X.Y" "a" final = None
    ∧ field "X.Y" "b" final = Some (VInt 2).
Proof.
  set (r1 := load_config_before_file example_os dotted_lib dotted_argv dotted_proto).
  set (r2 := load_file_config example_os dotted_lib (returned (∅, ∅) r1).2).
  set (r3 := load_config example_os dotted_lib dotted_argv dotted_proto).
  exists (returned (∅, ∅) r1).1, (returned (∅, ∅) r1).2,
         (returned (∅, ∅) r2).1, (returned (∅, ∅) r2).2, (returned ∅ r3).
  split; [apply returned_pair; vm_compute; reflexivity|].
  split; [apply returned_pair; vm_compute; reflexivity|].
  split; [apply returned_eq; vm_compute; reflexivity|].
  split; [reflexivity|].
  split; [left; vm_compute; reflexivity|].
  split; [right; exists {[ "b" := VInt 2 ]}; split; vm_compute; reflexivity|].
  repeat split; vm_compute; reflexivity.
Qed.

(** C2.  Up to the point where the file layer is resolved, the
    accumulating config holds the proto layer's fields, except that
    [BaseConfig.config_path], [BaseConfig.config_dir] and
    [LogConfig.stream_log_level] hold the value of the parsed cli layer
    wherever that layer has one; and it is this config that
    [load_file_config] is run on. *)
Theorem cli_fields_pulled_forward
    (os : os_state) (lib : library) (argv : list string)
    (proto_config cli_config config : gmap string pyval) :
  load_config_before_file os lib argv proto_config = Return (cli_config, config) →
  (∃ parsed, parse_cli os lib argv = Return parsed
             ∧ ∀ s k, field s k cli_config = field s k parsed)
  ∧ (∀ s k, Config._is_section_key s = true →
       field s k config
       = if pulled_forward s k
         then match field s k cli_config with
              | Some v => Some v
              | None => field s k proto_config
              end
         else field s k proto_config)
  ∧ load_config os lib argv proto_config
    = ('(file_config, config) ← load_file_config os lib config;
       config ← RichConfig.merge_source lib "file" file_config config;
       config ← RichConfig.merge_source lib "cli" cli_config config;
       match validate_config config with
       | (Raise (ConfigException msg), config) => Raise SystemExit
       | (Raise e, _) => Raise e
       | (Return _, config) => Return config
       end).
Proof.
  intros H. destruct (load_config_before_file_spec _ _ _ _ _ _ H) as [Hcli Hconfig].
  split; [done|]. split; [done|].
  unfold load_config. by rewrite H.
Qed.

Lemma load_config_precedence_witness :
  ∃ final,
    load_config example_os example_lib example_argv example_proto = Return final
    ∧ ∃ cli_config config file_config config',
        load_config_before_file example_os example_lib example_argv example_proto
        = Return (cli_config, config)
        ∧ load_file_config example_os example_lib config = Return (file_config, config')
        ∧ ∀ s k v, Config._is_section_key s = true →
            (is_config v = false → field s k cli_config = Some v →
             field s k final = Some v)
            ∧ (char_in "." s = false → is_config v = false → unset s k cli_config →
               field s k file_config = Some v → field s k final = Some v)
            ∧ (char_in "." s = false → unset s k cli_config → unset s k file_config →
               field s k example_proto = Some v → field s k final = Some v).
Proof.
  assert (is_Return (load_config example_os example_lib example_argv example_proto) = true)
    as Hr by (vm_compute; reflexivity).
  destruct (load_config example_os example_lib example_argv example_proto)
    as [final|e] eqn:H; [|discriminate Hr].
  exists final. split; [reflexivity|].
  exact (load_config_precedence example_os example_lib example_argv example_proto final H).
Defined.

Example load_config_example :
  (λ final, (field "XeroApiConfig" "consumer_key" final,
             field "XeroApiConfig" "rsa_key_path" final,
             field "BaseConfig" "data_dir" final,
             field "BaseConfig" "config_path" final,
             field "LogConfig" "stream_log_level" final))
  <$> load_config example_os example_lib example_argv example_proto
  = Return (Some (VStr "from-cli"), Some (VStr "/etc/xmg/key.pem"),
            Some (VStr "/data"), Some (VStr "conf.json"), Some (VStr "INFO")).
Proof. vm_compute. reflexivity. Qed.

Lemma cli_fields_pulled_forward_witness :
  ∃ cli_config config,
    load_config_before_file example_os example_lib example_argv example_proto
    = Return (cli_config, config)
    ∧ (∃ parsed, parse_cli example_os example_lib example_argv = Return parsed
                 ∧ ∀ s k, field s k cli_config = field s k parsed)
    ∧ (∀ s k, Config._is_section_key s = true →
         field s k config
         = if pulled_forward s k
           then match field s k cli_config with
                | Some v => Some v
                | None => field s k example_proto
                end
           else field s k example_proto)
    ∧ load_config example_os example_lib example_argv example_proto
      = ('(file_config, config) ← load_file_config example_os example_lib config;
         config ← RichConfig.merge_source example_lib "file" file_config config;
         config ← RichConfig.merge_source example_lib "cli" cli_config config;
         match validate_config config with
         | (Raise (ConfigException msg), config) => Raise SystemExit
         | (Raise e, _) => Raise e
         | (Return _, config) => Return config
         end).
Proof.
  assert (is_Return (load_config_before_file example_os example_lib example_argv example_proto) = true)
    as Hr by (vm_compute; reflexivity).
  destruct (load_config_before_file example_os example_lib example_argv example_proto)
    as [[cli_config config]|e] eqn:H; [|discriminate Hr].
  exists cli_config, config. split; [reflexivity|].
  exact (cli_fields_pulled_forward example_os example_lib example_argv
           example_proto cli_config config H).
Defined.

(** ** posixpath *)

Lemma isabs_inv s : posixpath.isabs s = true → ∃ r, s = String posixpath.sep r.
Proof.
  unfold posixpath.isabs. intros H.
  destruct s as [|c r]; [done|]. cbn [startswith] in H.
  apply andb_prop in H as [<-%Ascii.eqb_eq _]. eauto.
Qed.

Lemma isabs_cons r : posixpath.isabs (String posixpath.sep r) = true.
Proof. reflexivity. Qed.

Lemma split_sep_cons_sep s :
  posixpath.split_sep (String posixpath.sep s) = "" :: posixpath.split_sep s.
Proof. reflexivity. Qed.

Lemma split_sep_cons c s :
  c ≠ posixpath.sep →
  posixpath.split_sep (String c s)
  = match posixpath.split_sep s with
    | [] => [String c ""]
    | h :: t => String c h :: t
    end.
Proof. intros Hc. simpl. by apply Ascii.eqb_neq in Hc as ->. Qed.

Lemma split_sep_nonempty s : posixpath.split_sep s ≠ [].
Proof.
  induction s as [|c s IH]; [done|]. simpl.
  destruct (Ascii.eqb c posixpath.sep); [done|].
  by destruct (posixpath.split_sep s).
Qed.

Lemma split_sep_no_sep s :
  Forall (λ c, char_in posixpath.sep c = false) (posixpath.split_sep s).
Proof.
  induction s as [|c s IH]; [by repeat constructor|]. simpl.
  destruct (Ascii.eqb c posixpath.sep) eqn:Hc; [by constructor|].
  destruct (posixpath.split_sep s) as [|h t] eqn:Hs;
    [by destruct (split_sep_nonempty s)|].
  apply Forall_cons in IH as [Hh Ht]. constructor; [|done].
  simpl. by rewrite Hc.
Qed.

Lemma split_sep_plain x :
  char_in posixpath.sep x = false → posixpath.split_sep x = [x].
Proof.
  induction x as [|c x IH]; [done|]. simpl.
  destruct (Ascii.eqb c posixpath.sep); [done|]. simpl.
  intros H. by rewrite IH.
Qed.

Lemma split_sep_app x s :
  char_in posixpath.sep x = false →
  posixpath.split_sep (x +:+ String posixpath.sep s) = x :: posixpath.split_sep s.
Proof.
  induction x as [|c x IH]; [done|]. rewrite string_app_cons. simpl.
  destruct (Ascii.eqb c posixpath.sep); [done|]. simpl.
  intros H. by rewrite IH.
Qed.

Lemma split_join_sep l :
  l ≠ [] → Forall (λ c, char_in posixpath.sep c = false) l →
  posixpath.split_sep (posixpath.join_sep l) = l.
Proof.
  induction l as [|x l IH]; [done|]. intros _ [Hx Hl]%Forall_cons.
  destruct l as [|y l]; [by apply split_sep_plain|].
  change (posixpath.join_sep (x :: y :: l))
    with (x +:+ String posixpath.sep (posixpath.join_sep (y :: l))).
  rewrite split_sep_app by done. by rewrite IH.
Qed.

Lemma norm_step_normal initial st comp :
  normal_stack initial st → normal_stack initial (posixpath.norm_step initial st comp).
Proof.
  intros Hst. unfold posixpath.norm_step.
  destruct (decide (comp = "" ∨ comp = ".")) as [|Hne]; [done|].
  destruct (decide _) as [Hpush|Hpop].
  - cbn [normal_stack].
    split; [intros ->; apply Hne; auto|]. split; [intros ->; apply Hne; auto|].
    split; [|done].
    intros ->. destruct Hpush as [?|[[? ->]|Hhead]]; [done|by auto|].
    destruct st as [|c st]; [done|]. injection Hhead as ->.
    destruct Hst as (_ & _ & Hdd & _). destruct (Hdd eq_refl) as [-> _]. auto.
  - destruct st as [|c st]; [done|]. simpl. by destruct Hst as (_ & _ & _ & ?).
Qed.

Lemma fold_norm_step_normal initial comps st :
  normal_stack initial st →
  normal_stack initial (fold_left (posixpath.norm_step initial) comps st).
Proof.
  revert st. induction comps as [|c comps IH]; intros st Hst; [done|].
  simpl. by apply IH, norm_step_normal.
Qed.

Lemma fold_norm_step_no_sep initial comps st :
  Forall (λ c, char_in posixpath.sep c = false) comps →
  Forall (λ c, char_in posixpath.sep c = false) st →
  Forall (λ c, char_in posixpath.sep c = false)
         (fold_left (posixpath.norm_step initial) comps st).
Proof.
  intros Hcomps. revert st.
  induction Hcomps as [|c comps Hc _ IH]; intros st Hst; [done|].
  simpl. apply IH. unfold posixpath.norm_step.
  repeat case_decide; [done|by constructor|].
  destruct st; [done|]. by apply Forall_cons in Hst as [_ ?].
Qed.

(** Running the loop again over a normal stack rebuilds the stack. *)
Lemma fold_norm_step_replay initial st :
  normal_stack initial st →
  fold_left (posixpath.norm_step initial) (rev st) [] = st.
Proof.
  induction st as [|c st IH]; [done|]. intros (Hc1 & Hc2 & Hdd & Hst).
  simpl. rewrite fold_left_app. simpl. rewrite IH by done.
  unfold posixpath.norm_step.
  rewrite decide_False by tauto. rewrite decide_True; [done|].
  destruct (decide (c = "..")) as [->|]; [|by left].
  right. destruct (Hdd eq_refl) as [-> [->|?]]; auto.
Qed.

Lemma fold_norm_step_skip initial n comps st :
  fold_left (posixpath.norm_step initial) (replicate n "" ++ comps) st
  = fold_left (posixpath.norm_step initial) comps st.
Proof.
  induction n as [|n IH]; [done|]. cbn [replicate app fold_left].
  replace (posixpath.norm_step initial st "") with st; [done|].
  unfold posixpath.norm_step. by rewrite decide_True by auto.
Qed.

Lemma split_sep_slashes n s :
  posixpath.split_sep (posixpath.slashes n +:+ s)
  = replicate n "" ++ posixpath.split_sep s.
Proof.
  induction n as [|n IH]; [done|]. simpl posixpath.slashes.
  rewrite string_app_cons, split_sep_cons_sep. by rewrite IH.
Qed.

Lemma normal_stack_nonempty initial st :
  normal_stack initial st → Forall (λ c, c ≠ "") st.
Proof.
  induction st as [|c st IH]; [done|]. intros (Hc & _ & _ & Hst).
  constructor; auto.
Qed.

Lemma join_sep_head c l :
  ∃ rest, posixpath.join_sep (c :: l) = c +:+ rest.
Proof.
  destruct l as [|y l]; [exists ""; by rewrite string_app_nil_r|].
  by exists (String posixpath.sep (posixpath.join_sep (y :: l))).
Qed.

Lemma join_sep_relative comps :
  Forall (λ c, c ≠ "") comps →
  Forall (λ c, char_in posixpath.sep c = false) comps →
  startswith (posixpath.join_sep comps) "/" = false.
Proof.
  destruct comps as [|c l]; [done|].
  intros [Hc _]%Forall_cons [Hsep _]%Forall_cons.
  destruct (join_sep_head c l) as [rest ->].
  destruct c as [|a c]; [done|]. rewrite string_app_cons.
  cbn [char_in] in Hsep. apply orb_false_elim in Hsep as [Ha _].
  unfold posixpath.sep in Ha.
  cbn [startswith]. rewrite Ascii.eqb_sym. by rewrite Ha.
Qed.

Lemma initial_slashes_slashes i rest :
  (i ≤ 2)%nat → startswith rest "/" = false →
  posixpath.initial_slashes (posixpath.slashes i +:+ rest) = i.
Proof.
  intros Hi Hrest. unfold posixpath.initial_slashes.
  destruct rest as [|b rest].
  - by destruct i as [|[|[|i]]]; [| | |lia].
  - cbn [startswith] in Hrest. rewrite andb_true_r in Hrest.
    destruct i as [|[|[|i]]]; [| | |lia];
      cbn [posixpath.slashes]; unfold posixpath.sep;
      rewrite ?string_app_cons, ?string_app_nil_l;
      cbn [startswith]; rewrite ?Ascii.eqb_refl, Hrest; done.
Qed.

Lemma initial_slashes_le path : (posixpath.initial_slashes path ≤ 2)%nat.
Proof.
  unfold posixpath.initial_slashes.
  destruct (startswith path "/"); [|lia]. destruct (_ && _); lia.
Qed.

Lemma normpath_dot : posixpath.normpath "." = ".".
Proof. reflexivity. Qed.

(** [normpath] returns a fixed point of [normpath]. *)
Lemma normpath_idem path :
  posixpath.normpath (posixpath.normpath path) = posixpath.normpath path.
Proof.
  unfold posixpath.normpath at 2 3.
  destruct (decide (path = "")) as [|Hpath]; [apply normpath_dot|].
  cbv zeta.
  set (i := posixpath.initial_slashes path).
  set (st := fold_left (posixpath.norm_step i) (posixpath.split_sep path) []).
  destruct (decide (posixpath.slashes i +:+ posixpath.join_sep (rev st) = ""))
    as [|Hres]; [apply normpath_dot|].
  assert (normal_stack i st) as Hst by by apply fold_norm_step_normal.
  assert (Forall (λ c, char_in posixpath.sep c = false) (rev st)) as Hsep.
  { apply Forall_rev, fold_norm_step_no_sep; [apply split_sep_no_sep | done]. }
  assert (Forall (λ c, c ≠ "") (rev st)) as Hne.
  { by eapply Forall_rev, normal_stack_nonempty. }
  unfold posixpath.normpath. rewrite decide_False by done. cbv zeta.
  rewrite initial_slashes_slashes
    by (apply initial_slashes_le || by apply join_sep_relative).
  rewrite split_sep_slashes, fold_norm_step_skip.
  assert (fold_left (posixpath.norm_step i)
            (posixpath.split_sep (posixpath.join_sep (rev st))) [] = st) as ->.
  { destruct st as [|c st'] eqn:Heq; [reflexivity|]. rewrite <- Heq in *.
    rewrite split_join_sep; [by apply fold_norm_step_replay| |done].
    rewrite Heq. simpl. by destruct (rev st'). }
  by rewrite decide_False by done.
Qed.

Lemma normpath_isabs path :
  posixpath.isabs path = true → posixpath.isabs (posixpath.normpath path) = true.
Proof.
  intros [r ->]%isabs_inv. unfold posixpath.normpath.
  rewrite decide_False by done. cbv zeta.
  assert (∃ n, posixpath.initial_slashes (String posixpath.sep r) = S n) as [n ->].
  { unfold posixpath.initial_slashes. cbn [startswith]. simpl.
    destruct (_ && _); eauto. }
  cbn [posixpath.slashes]. rewrite string_app_cons.
  by rewrite decide_False by done.
Qed.

Lemma join_isabs a b :
  posixpath.isabs a = true → posixpath.isabs (posixpath.join a b) = true.
Proof.
  intros Ha. unfold posixpath.join.
  destruct (startswith b "/") eqn:Hb; [done|].
  apply isabs_inv in Ha as [r ->].
  destruct (_ || _); by rewrite string_app_cons.
Qed.

Lemma abspath_spec os path :
  posixpath.isabs (getcwd os) = true →
  posixpath.isabs (posixpath.abspath os path) = true
  ∧ posixpath.normpath (posixpath.abspath os path) = posixpath.abspath os path.
Proof.
  intros Hcwd. unfold posixpath.abspath. split; [|apply normpath_idem].
  apply normpath_isabs. destruct (posixpath.isabs path) eqn:Hp; [done|].
  by apply join_isabs.
Qed.

Lemma expanduser_isabs os path :
  posixpath.isabs path = true → posixpath.expanduser os path = path.
Proof. by intros [r ->]%isabs_inv. Qed.

Lemma expandvars_no_dollar os path :
  char_in "$" path = false → posixpath.expandvars os path = path.
Proof. intros H. unfold posixpath.expandvars. by rewrite H. Qed.

Lemma expand_relative_path_abspath os p dir r :
  expand_relative_path os (VStr p) dir = Return r →
  ∃ path, r = posixpath.abspath os path.
Proof.
  unfold expand_relative_path.
  destruct (_ && _); [destruct dir; try done|]; intros [= <-]; eauto.
Qed.

(** C5 (as amended).  With an absolute current directory,
    [expand_relative_path] returns an absolute path that [normpath] leaves
    unchanged, and resolving that result again gives the same result
    whenever [expandvars] leaves it unchanged -- in particular whenever it
    holds no dollar sign. *)
Theorem expand_relative_path_fixed_point
    (os : os_state) (p : string) (dir : pyval) (r : string) :
  posixpath.isabs (getcwd os) = true →
  expand_relative_path os (VStr p) dir = Return r →
  posixpath.isabs r = true
  ∧ posixpath.normpath r = r
  ∧ (posixpath.expandvars os r = r ∨ char_in "$" r = false →
     expand_relative_path os (VStr r) dir = Return r).
Proof.
  intros Hcwd [path ->]%expand_relative_path_abspath.
  destruct (abspath_spec os path Hcwd) as [Habs Hnorm].
  split; [done|]. split; [done|]. intros Hvars.
  assert (posixpath.expandvars os (posixpath.abspath os path)
          = posixpath.abspath os path) as Hfix.
  { destruct Hvars as [?|?]; [done | by apply expandvars_no_dollar]. }
  unfold expand_relative_path, expand.
  rewrite Hfix, Hnorm, (expanduser_isabs _ _ Habs).
  pose proof Habs as Hstart. unfold posixpath.isabs in Hstart.
  rewrite Hstart. cbn [negb andb].
  f_equal. unfold posixpath.abspath at 1. by rewrite Habs.
Qed.

Lemma expand_relative_path_fixed_point_witness :
  posixpath.isabs "/home/user/out/data.csv" = true
  ∧ posixpath.normpath "/home/user/out/data.csv" = "/home/user/out/data.csv"
  ∧ (posixpath.expandvars example_os "/home/user/out/data.csv"
     = "/home/user/out/data.csv"
     ∨ char_in "$" "/home/user/out/data.csv" = false →
     expand_relative_path example_os (VStr "/home/user/out/data.csv")
       (VStr "/home/user/out")
     = Return "/home/user/out/data.csv").
Proof.
  apply (expand_relative_path_fixed_point example_os "data.csv" (VStr "/home/user/out"));
    reflexivity.
Defined.

(** C5, the claim as stated: with [A] set to [$B] and [B] set to [x], the
    path [$A] resolves to [/base/$B], and resolving that result again gives
    [/base/x]. *)
Lemma expand_relative_path_not_idempotent :
  expand_relative_path example_os (VStr "$A") (VStr "/base") = Return "/base/$B"
  ∧ expand_relative_path example_os (VStr "/base/$B") (VStr "/base") = Return "/base/x"
  ∧ (r ← expand_relative_path example_os (VStr "$A") (VStr "/base");
     expand_relative_path example_os (VStr r) (VStr "/base"))
    ≠ expand_relative_path example_os (VStr "$A") (VStr "/base").
Proof. split; [reflexivity|]. split; [reflexivity|]. vm_compute. discriminate. Qed.

Example expand_relative_path_examples :
  expand_relative_path example_os (VStr "data.csv") (VStr "/home/user/out")
  = Return "/home/user/out/data.csv"
  ∧ expand_relative_path example_os (VStr "/abs/data.csv") (VStr "/home/user/out")
    = Return "/abs/data.csv"
  ∧ expand_relative_path example_os (VStr "~/x/../y.csv") VNone
    = Return "/home/user/y.csv"
  ∧ expand_relative_path example_os (VStr "a//b/./c") (VStr "rel")
    = Return "/work/rel/a/b/c".
Proof. repeat split; reflexivity. Qed.

Example normpath_examples :
  map posixpath.normpath
    ["a//b/./c/.."; "/../x"; "//x/"; "///x"; ""; "../a/../.."; "~/../x"]
  = ["a/b"; "/x"; "//x"; "/x"; "."; "../.."; "x"].
Proof. reflexivity. Qed.

Example splitext_examples :
  map posixpath.splitext
    ["config.yaml"; "/a.b/c"; ".bashrc"; "a/..py"; "x.tar.gz"; "cfg.json"]
  = [("config", ".yaml"); ("/a.b/c", ""); (".bashrc", ""); ("a/..py", "");
     ("x.tar", ".gz"); ("cfg", ".json")].
Proof. reflexivity. Qed.

(** ** Further properties of the path resolver *)

Lemma expandvars_from_chdir cwd os fuel s :
  posixpath.expandvars_from (chdir cwd os) fuel s = posixpath.expandvars_from os fuel s.
Proof.
  revert s. induction fuel as [|fuel IH]; intros s; [reflexivity|].
  destruct s as [|c r]; [reflexivity|]. cbn [posixpath.expandvars_from].
  destruct (Ascii.eqb c "$"); [|by rewrite IH].
  destruct (posixpath.match_var r) as [[[name text] rest]|]; [|by rewrite IH].
  cbn [environ chdir]. by rewrite IH.
Qed.

Lemma expand_chdir cwd os p : expand (chdir cwd os) p = expand os p.
Proof.
  unfold expand, posixpath.expandvars. rewrite expandvars_from_chdir. reflexivity.
Qed.

Lemma expand_isabs_nonempty os d :
  posixpath.isabs (expand os d) = true → d ≠ "".
Proof. intros H ->. vm_compute in H. discriminate. Qed.

(** X1.  An absolute path never consults the directory.  When the path
    is absolute once expanded, [expand_relative_path] returns its normal
    form whatever [dir] is, even a value that is not a string; for a path
    that starts with a slash and holds no dollar sign this is the normal
    form of the path itself. *)
Theorem expand_relative_path_absolute (os : os_state) (p : string) (dir : pyval) :
  (posixpath.isabs (expand os p) = true →
   expand_relative_path os (VStr p) dir
   = Return (posixpath.normpath (expand os p)))
  ∧ (posixpath.isabs p = true → char_in "$" p = false →
     expand_relative_path os (VStr p) dir = Return (posixpath.normpath p)).
Proof.
  assert (posixpath.isabs (expand os p) = true →
          expand_relative_path os (VStr p) dir
          = Return (posixpath.normpath (expand os p))) as Habs.
  { intros H. unfold expand_relative_path. fold (posixpath.isabs (expand os p)).
    rewrite H. cbn [negb andb]. unfold posixpath.abspath. by rewrite H. }
  split; [exact Habs|]. intros Hp Hd.
  assert (expand os p = posixpath.normpath p) as He.
  { unfold expand. rewrite expandvars_no_dollar by done.
    apply expanduser_isabs, normpath_isabs, Hp. }
  rewrite Habs; rewrite He; [by rewrite normpath_idem|].
  by apply normpath_isabs.
Qed.

Lemma expand_relative_path_absolute_witness :
  expand_relative_path example_os (VStr "/etc//xmg/./conf.json") (VInt 7)
  = Return (posixpath.normpath "/etc//xmg/./conf.json").
Proof.
  apply (expand_relative_path_absolute example_os "/etc//xmg/./conf.json" (VInt 7));
    reflexivity.
Defined.

(** X2.  With a directory that is absolute once expanded, the result of
    [expand_relative_path] is the normal form of the expanded path joined
    onto the expanded directory, and the working directory plays no part:
    the call gives the same result from any other working directory. *)
Theorem expand_relative_path_absolute_dir
    (os : os_state) (p d : string) (cwd : string) :
  posixpath.isabs (expand os d) = true →
  expand_relative_path os (VStr p) (VStr d)
  = Return (posixpath.normpath (posixpath.join (expand os d) (expand os p)))
  ∧ expand_relative_path (chdir cwd os) (VStr p) (VStr d)
    = expand_relative_path os (VStr p) (VStr d).
Proof.
  intros Hd.
  assert (∀ os', expand os' d = expand os d → expand os' p = expand os p →
            expand_relative_path os' (VStr p) (VStr d)
            = Return (posixpath.normpath (posixpath.join (expand os d) (expand os p))))
    as Hform.
  { intros os' Ed Ep. unfold expand_relative_path. rewrite Ed, Ep.
    assert (truthy (VStr d) = true) as ->.
    { cbn. apply negb_true_iff, String.eqb_neq, (expand_isabs_nonempty os), Hd. }
    rewrite andb_true_r. unfold posixpath.abspath.
    destruct (startswith (expand os p) "/") eqn:Hp; cbn [negb].
    - fold (posixpath.isabs (expand os p)) in Hp |- *. rewrite Hp.
      unfold posixpath.join. unfold posixpath.isabs in Hp. by rewrite Hp.
    - by rewrite (join_isabs _ _ Hd). }
  split; [by apply Hform|].
  rewrite (Hform os) by done. apply Hform; apply expand_chdir.
Qed.

Lemma expand_relative_path_absolute_dir_witness :
  expand_relative_path example_os (VStr "../conf.json") (VStr "~/cfg")
  = Return (posixpath.normpath
              (posixpath.join (expand example_os "~/cfg")
                 (expand example_os "../conf.json")))
  ∧ expand_relative_path (chdir "/elsewhere" example_os)
      (VStr "../conf.json") (VStr "~/cfg")
    = expand_relative_path example_os (VStr "../conf.json") (VStr "~/cfg").
Proof.
  apply (expand_relative_path_absolute_dir example_os "../conf.json" "~/cfg"
           "/elsewhere").
  reflexivity.
Defined.

(** X3.  What [validate_config_path] returns (the working directory being
    absolute).  It returns [None] only for a path that Python treats as
    false, and then leaves the config untouched; a path it returns comes
    from a true value, exists, is absolute and is in normal form. *)
Theorem validate_config_path_result
    (os : os_state) (lib : library) (v : pyval)
    (config config' : gmap string pyval) (r : option string) :
  posixpath.isabs (getcwd os) = true →
  validate_config_path os lib v config = Return (r, config') →
  match r with
  | None => truthy v = false ∧ config' = config
  | Some path =>
      truthy v = true
      ∧ path_exists os path = true
      ∧ posixpath.isabs path = true
      ∧ posixpath.normpath path = path
  end.
Proof.
  intros Hcwd. unfold validate_config_path.
  destruct (truthy v) eqn:Hv; cbn [negb].
  2: { intros [= <- <-]. done. }
  intros H.
  apply bind_Return in H as ([base c1] & _ & H).
  apply bind_Return in H as (dir & _ & H).
  apply bind_Return in H as (path & Hpath & H).
  destruct (path_exists os path) eqn:Hex; cbn [negb] in H; [|discriminate].
  injection H as <- <-. split; [done|]. split; [done|].
  destruct v; try discriminate Hpath.
  apply expand_relative_path_abspath in Hpath as [x ->].
  by apply abspath_spec.
Qed.

Lemma validate_config_path_result_witness :
  truthy (VStr "/etc/xmg/conf.json") = true
  ∧ path_exists example_os "/etc/xmg/conf.json" = true
  ∧ posixpath.isabs "/etc/xmg/conf.json" = true
  ∧ posixpath.normpath "/etc/xmg/conf.json" = "/etc/xmg/conf.json".
Proof.
  apply (validate_config_path_result example_os example_lib
           (VStr "/etc/xmg/conf.json") ∅ (<["BaseConfig" := VConfig ∅]> ∅)
           (Some "/etc/xmg/conf.json")); reflexivity.
Defined.

(** ** Further properties of the file layer *)

(** [load_file_config] on a config that has its [BaseConfig] section. *)
Lemma load_file_config_unfold os lib config d :
  config !! "BaseConfig" = Some (VConfig d) →
  load_file_config os lib config
  = ('(r, config) ← validate_config_path os lib
                      (default VNone (d !! "config_path")) config;
     match r with
     | Some p =>
         if truthy (VStr p)
         then file ← load_single_file_config lib p config; Return (file, config)
         else Return (∅, config)
     | None => Return (∅, config)
     end).
Proof.
  intros Hb. unfold load_file_config.
  rewrite (getitem_present _ _ _ Hb). cbn [mbind result_bind].
  rewrite (py_contains_plain "config_dir") by done.
  cbn [mbind result_bind in_value].
  assert ((if bool_decide (is_Some (d !! "config_dir"))
           then '(base, config0) ← Config.getitem "BaseConfig" config;
                d0 ← as_config base;
                '(_, d1) ← Config.getitem "config_dir" d0;
                Return (<["BaseConfig" := VConfig d1]> config0)
           else Return config) = Return config) as ->.
  { case_bool_decide as Hd; [|done].
    rewrite (getitem_present _ _ _ Hb). cbn [mbind result_bind as_config].
    destruct Hd as [x Hx]. rewrite (getitem_present _ _ _ Hx).
    cbn [mbind result_bind]. by rewrite insert_id. }
  cbn [mbind result_bind]. rewrite (getitem_present _ _ _ Hb).
  cbn [mbind result_bind py_get fmap result_fmap].
  destruct (validate_config_path os lib (default VNone (d !! "config_path")) config)
    as [[r c1]|e] eqn:Hv; [|done]. cbn [mbind result_bind].
  destruct r as [p|]; [|done].
  destruct (truthy (VStr p)); [|done].
  rewrite bool_decide_eq_false_2 by apply not_elem_of_nil.
  cbn [andb negb app merge_files].
  destruct (load_single_file_config lib p c1) as [new|e]; [|done].
  cbn [mbind result_bind merge_files]. by rewrite merge_empty_l.
Qed.

Lemma getitem_missing_section key (c : gmap string pyval) :
  c !! key = None → Config._is_section_key key = true →
  Config.getitem key c = Return (VConfig ∅, <[key := VConfig ∅]> c).
Proof. intros Hn Hk. unfold Config.getitem. by rewrite Hn, Hk. Qed.

(** [load_file_config] creates the [BaseConfig] section first. *)
Lemma load_file_config_with_section os lib config :
  section_or_missing "BaseConfig" config →
  load_file_config os lib config
  = load_file_config os lib (with_section "BaseConfig" config).
Proof.
  intros [Hn|[d Hd]]; unfold with_section.
  - rewrite Hn. unfold load_file_config at 1.
    rewrite (getitem_missing_section _ _ Hn) by done.
    cbn [mbind result_bind].
    rewrite (py_contains_plain "config_dir") by done.
    cbn [mbind result_bind in_value].
    rewrite lookup_empty, bool_decide_eq_false_2 by (intros [? [=]]).
    cbn [mbind result_bind].
    erewrite (load_file_config_unfold _ _ (<["BaseConfig" := VConfig ∅]> config))
      by apply lookup_insert_eq.
    rewrite (getitem_present _ _ (VConfig ∅)) by apply lookup_insert_eq.
    cbn [mbind result_bind py_get fmap result_fmap].
    rewrite lookup_empty. cbn [default].
    destruct (validate_config_path os lib VNone (<["BaseConfig" := VConfig ∅]> config))
      as [[r c1]|e] eqn:Hv; [|done]. cbn [mbind result_bind].
    destruct r as [p|]; [|done].
    destruct (truthy (VStr p)); [|done].
    rewrite bool_decide_eq_false_2 by apply not_elem_of_nil.
    cbn [andb negb app merge_files].
    destruct (load_single_file_config lib p c1) as [new|e]; [|done].
    cbn [mbind result_bind merge_files]. by rewrite merge_empty_l.
  - by rewrite Hd.
Qed.

Lemma load_file_config_no_path os lib config :
  section_or_missing "BaseConfig" config →
  unset_or_empty (field "BaseConfig" "config_path" config) →
  load_file_config os lib config = Return (∅, with_section "BaseConfig" config).
Proof.
  intros Hs Hp. rewrite load_file_config_with_section by done.
  assert (∃ d, with_section "BaseConfig" config !! "BaseConfig" = Some (VConfig d)
               ∧ truthy (default VNone (d !! "config_path")) = false)
    as (d & Hd & Ht).
  { unfold with_section. destruct Hs as [Hn|[d Hd]].
    - rewrite Hn. exists ∅. rewrite lookup_insert_eq. split; [done|].
      by rewrite lookup_empty.
    - rewrite Hd. exists d. split; [done|]. apply truthy_default.
      unfold field in Hp. by rewrite Hd in Hp. }
  rewrite (load_file_config_unfold _ _ _ _ Hd).
  unfold validate_config_path. rewrite Ht. done.
Qed.

(** X4.  Without a configured path there is no file.  When
    [BaseConfig.config_path] is unset or false (the [BaseConfig] item being
    a section or missing), [load_file_config] returns the empty file layer,
    on every file system and with every loader, and changes the config only
    by creating the [BaseConfig] section. *)
Theorem load_file_config_without_path
    (os : os_state) (lib : library) (config : gmap string pyval) :
  section_or_missing "BaseConfig" config →
  unset_or_empty (field "BaseConfig" "config_path" config) →
  load_file_config os lib config = Return (∅, with_section "BaseConfig" config).
Proof. apply load_file_config_no_path. Qed.

Lemma load_file_config_without_path_witness :
  load_file_config example_os example_lib
    {[ "BaseConfig" := VConfig {[ "config_path" := VStr "" ]} ]}
  = Return (∅, with_section "BaseConfig"
                 {[ "BaseConfig" := VConfig {[ "config_path" := VStr "" ]} ]}).
Proof.
  apply (load_file_config_without_path example_os example_lib
           {[ "BaseConfig" := VConfig {[ "config_path" := VStr "" ]} ]}).
  - right. eexists. reflexivity.
  - reflexivity.
Defined.

(** X5.  The file layer comes from at most one file.  A file layer that
    [load_file_config] returns is empty, or it is exactly what the loader
    chosen by the extension returns for one path, and that path exists. *)
Theorem load_file_config_single_file
    (os : os_state) (lib : library) (config file config' : gmap string pyval) :
  load_file_config os lib config = Return (file, config') →
  file = ∅
  ∨ ∃ path cls,
      path_exists os path = true
      ∧ loader_class path = Return cls
      ∧ file_load_config lib cls path = Return file.
Proof.
  unfold load_file_config. intros H.
  apply bind_Return in H as ([base c1] & _ & H).
  apply bind_Return in H as (has_dir & _ & H).
  apply bind_Return in H as (c2 & _ & H).
  apply bind_Return in H as ([base' c3] & _ & H).
  apply bind_Return in H as (cp & _ & H).
  apply bind_Return in H as ([r c4] & Hv & H).
  apply bind_Return in H as (f & Hf & H). injection H as -> ->.
  destruct r as [p|]; [|left; by injection Hf].
  destruct (truthy (VStr p) && negb (bool_decide (p ∈ []))); [|left; by injection Hf].
  right. cbn [app merge_files] in Hf.
  apply bind_Return in Hf as (new & Hnew & Hf).
  rewrite merge_empty_l in Hf. cbn [mbind result_bind] in Hf.
  injection Hf as <-.
  unfold load_single_file_config in Hnew.
  apply bind_Return in Hnew as (cls & Hcls & Hnew).
  exists p, cls. split; [|done].
  unfold validate_config_path in Hv.
  destruct (truthy cp); cbn [negb] in Hv; [|discriminate].
  apply bind_Return in Hv as ([b c5] & _ & Hv).
  apply bind_Return in Hv as (dir & _ & Hv).
  apply bind_Return in Hv as (path & _ & Hv).
  destruct (path_exists os path) eqn:Hex; cbn [negb] in Hv; [|discriminate].
  by injection Hv as -> ->.
Qed.

Lemma load_file_config_single_file_witness :
  ({[ "XeroApiConfig" :=
        VConfig {[ "consumer_key" := VStr "from-file";
                   "rsa_key_path" := VStr "/etc/xmg/key.pem" ]} ]}
   : gmap string pyval) = ∅
  ∨ ∃ path cls,
      path_exists example_os path = true
      ∧ loader_class path = Return cls
      ∧ file_load_config example_lib cls path
        = Return {[ "XeroApiConfig" :=
                      VConfig {[ "consumer_key" := VStr "from-file";
                                 "rsa_key_path" := VStr "/etc/xmg/key.pem" ]} ]}.
Proof.
  apply (load_file_config_single_file example_os example_lib
           {[ "BaseConfig" := VConfig {[ "config_path" := VStr "/etc/xmg/conf.json" ]} ]}
           _
           {[ "BaseConfig" := VConfig {[ "config_path" := VStr "/etc/xmg/conf.json" ]} ]}).
  reflexivity.
Defined.

(** X6.  A missing config file is not turned into an exit.  When the
    command line names a non-empty [config_path] and the expanded path does
    not exist, [load_config] raises [ConfigFileNotFound]. *)
Theorem load_config_missing_file
    (os : os_state) (lib : library) (argv : list string)
    (proto_config cli_config config : gmap string pyval) (p : string) :
  load_config_before_file os lib argv proto_config = Return (cli_config, config) →
  field "BaseConfig" "config_path" cli_config = Some (VStr p) →
  p ≠ "" →
  path_exists os <$> expand_relative_path os (VStr p) (config_dir_of config)
  = Return false →
  ∃ msg, load_config os lib argv proto_config = Raise (ConfigFileNotFound msg).
Proof.
  intros Hb Hcli Hp Hex.
  pose proof (load_config_before_file_spec _ _ _ _ _ _ Hb) as [_ Hf].
  pose proof (Hf "BaseConfig" "config_path" eq_refl) as Hpath.
  change (pulled_forward "BaseConfig" "config_path") with true in Hpath.
  rewrite Hcli in Hpath. cbn iota in Hpath.
  unfold field in Hpath.
  destruct (config !! "BaseConfig") as [[]|] eqn:Hbase; try discriminate Hpath.
  rename c into d.
  unfold load_config. rewrite Hb. cbn [mbind result_bind].
  unfold load_config_from_file. rewrite (load_file_config_unfold _ _ _ _ Hbase).
  rewrite Hpath. cbn [from_option id]. unfold validate_config_path.
  assert (truthy (VStr p) = true) as ->.
  { cbn. by apply negb_true_iff, String.eqb_neq. }
  cbn [negb]. rewrite (getitem_present _ _ _ Hbase).
  cbn [mbind result_bind py_get fmap result_fmap].
  unfold config_dir_of, field in Hex. rewrite Hbase in Hex.
  destruct (expand_relative_path os (VStr p) (default VNone (d !! "config_dir")))
    as [path|e]; [|discriminate Hex].
  cbn [fmap result_fmap] in Hex. injection Hex as Hex.
  cbn [mbind result_bind]. rewrite Hex. cbn [negb mbind result_bind].
  eexists. reflexivity.
Qed.

Lemma load_config_missing_file_witness :
  ∃ msg, load_config example_os example_lib ["--config-path"; "missing.json"] ∅
         = Raise (ConfigFileNotFound msg).
Proof.
  pose (r := load_config_before_file example_os example_lib
              ["--config-path"; "missing.json"] ∅).
  apply (load_config_missing_file example_os example_lib
           ["--config-path"; "missing.json"] ∅
           (returned (∅, ∅) r).1 (returned (∅, ∅) r).2 "missing.json").
  - apply returned_pair. vm_compute. reflexivity.
  - vm_compute. reflexivity.
  - discriminate.
  - vm_compute. reflexivity.
Defined.

(** ** How [load_config] ends *)


Lemma validate_config_returns config config' :
  validate_config config = (Return (), config') →
  ∃ xero rsa key,
    config' !! "XeroApiConfig" = Some xero
    ∧ py_get "rsa_key_path" xero = Return (Some rsa) ∧ truthy rsa = true
    ∧ py_get "consumer_key" xero = Return (Some key) ∧ truthy key = true.
Proof.
  unfold validate_config.
  destruct (Config.getitem "XeroApiConfig" config) as [[xero c1]|e] eqn:H1;
    [|discriminate].
  pose proof (getitem_lookup_eq _ _ _ _ H1) as Hx.
  destruct (py_get "rsa_key_path" xero) as [rsa|e] eqn:Hr; [|discriminate].
  rewrite (getitem_present _ _ _ Hx).
  destruct (py_get "consumer_key" xero) as [key|e] eqn:Hk; [|discriminate].
  destruct (truthy (default VNone rsa)) eqn:Tr; [|discriminate].
  destruct (truthy (default VNone key)) eqn:Tk; [|discriminate].
  intros [= <-]. destruct rsa as [rsa|]; [|discriminate Tr].
  destruct key as [key|]; [|discriminate Tk].
  by exists xero, rsa, key.
Qed.

(** X7.  A configuration that [load_config] returns carries both
    credentials: its [XeroApiConfig] item holds a true [rsa_key_path] and a
    true [consumer_key]. *)
Theorem load_config_returns_credentials
    (os : os_state) (lib : library) (argv : list string)
    (proto_config final : gmap string pyval) :
  load_config os lib argv proto_config = Return final →
  ∃ xero rsa key,
    final !! "XeroApiConfig" = Some xero
    ∧ py_get "rsa_key_path" xero = Return (Some rsa) ∧ truthy rsa = true
    ∧ py_get "consumer_key" xero = Return (Some key) ∧ truthy key = true.
Proof.
  unfold load_config. intros H.
  apply bind_Return in H as ([cli config] & _ & H).
  unfold load_config_from_file in H.
  apply bind_Return in H as ([file c1] & _ & H).
  apply bind_Return in H as (c2 & _ & H).
  apply bind_Return in H as (c3 & _ & H).
  destruct (validate_config c3) as [[[]|e] c4] eqn:Hv.
  - injection H as ->. by apply (validate_config_returns c3).
  - destruct e; discriminate H.
Qed.

Lemma load_config_returns_credentials_witness :
  ∃ final xero rsa key,
    load_config example_os example_lib example_argv example_proto = Return final
    ∧ final !! "XeroApiConfig" = Some xero
    ∧ py_get "rsa_key_path" xero = Return (Some rsa) ∧ truthy rsa = true
    ∧ py_get "consumer_key" xero = Return (Some key) ∧ truthy key = true.
Proof.
  assert (is_Return (load_config example_os example_lib example_argv example_proto) = true)
    as Hr by (vm_compute; reflexivity).
  destruct (load_config example_os example_lib example_argv example_proto)
    as [final|e] eqn:H; [|discriminate Hr].
  destruct (load_config_returns_credentials example_os example_lib example_argv
              example_proto final H) as (xero & rsa & key & Hx).
  exists final, xero, rsa, key. split; [reflexivity|exact Hx].
Defined.



Lemma validate_config_present config v :
  config !! "XeroApiConfig" = Some v → (validate_config config).2 = config.
Proof.
  intros Hx. unfold validate_config. rewrite (getitem_present _ _ _ Hx).
  destruct (py_get "rsa_key_path" v) as [rsa|e]; [|done].
  rewrite (getitem_present _ _ _ Hx).
  destruct (py_get "consumer_key" v) as [key|e]; [|done].
  by destruct (truthy (default VNone rsa) && truthy (default VNone key)).
Qed.

(** X9.  [validate_config] can be repeated: run on the config it left
    behind, it gives the same outcome and leaves the same config. *)
Theorem validate_config_repeatable (config : gmap string pyval) :
  validate_config (validate_config config).2 = validate_config config.
Proof.
  destruct (config !! "XeroApiConfig") as [v|] eqn:Hx.
  - by rewrite (validate_config_present _ _ Hx).
  - rewrite (validate_config_with_section config) by (by left).
    unfold with_section. rewrite Hx. cbn [snd].
    rewrite (validate_config_unfold _ ∅) by apply lookup_insert_eq. done.
Qed.

(** ** The call of the command-line loader *)

(** X10.  [load_cli_config] changes the config it is given only by
    storing the loader under [argparse_loader]; the cli layer it returns
    has a [LogConfig] mapping; it never raises [ArgumentError]: when parsing
    raises one, the call ends with [SystemExit]. *)
Theorem load_cli_config_effects
    (os : os_state) (lib : library) (argv : list string)
    (config : gmap string pyval) :
  (∀ cli_config config',
     load_cli_config os lib argv config = Return (cli_config, config') →
     config' = <["argparse_loader" := VObject "RichKVArgParseConfigLoader"]> config
     ∧ ∃ d, cli_config !! "LogConfig" = Some (VConfig d)
            ∨ cli_config !! "LogConfig" = Some (VDict d))
  ∧ (∀ msg, load_cli_config os lib argv config ≠ Raise (ArgumentError msg))
  ∧ (∀ msg, parse_cli os lib argv = Raise (ArgumentError msg) →
            load_cli_config os lib argv config = Raise SystemExit).
Proof.
  destruct (cli_parser lib) as (ld & parser & Hld & _).
  unfold load_cli_config, parse_cli. rewrite Hld. cbn [mbind result_bind].
  change (Config.setitem "argparse_loader" (VObject "RichKVArgParseConfigLoader") config)
    with (Return (<["argparse_loader" := VObject "RichKVArgParseConfigLoader"]> config)
          : result (gmap string pyval)).
  cbn [mbind result_bind].
  destruct (RichKVArgParseConfigLoader.load_config os lib ld argv) as [cli|e] eqn:Hl.
  - cbn [mbind result_bind].
    destruct (Config.getitem "LogConfig" cli) as [[log cli']|e] eqn:Hg;
      cbn [mbind result_bind].
    2: { unfold Config.getitem in Hg. destruct (cli !! "LogConfig"); discriminate. }
    pose proof (getitem_lookup_eq _ _ _ _ Hg) as Hlog.
    split; [|split; [|discriminate]].
    + intros c c' H. apply bind_Return in H as (d & Hd & [= <- <-]).
      split; [done|]. rewrite Hlog.
      destruct log; try discriminate Hd; eauto.
    + intros msg. destruct (py_kwargs log) as [d|e] eqn:Hd; [discriminate|].
      destruct log; try discriminate Hd; injection Hd as <-; discriminate.
  - split; [|split].
    + intros c c' H. destruct e; discriminate H.
    + intros msg. destruct e; discriminate.
    + intros msg [= ->]. reflexivity.
Qed.

Lemma load_cli_config_effects_witness :
  load_cli_config example_os example_lib ["stray"] ∅ = Raise SystemExit.
Proof.
  apply (proj2 (proj2 (load_cli_config_effects example_os example_lib ["stray"] ∅))
           "Unrecognized flag").
  vm_compute. reflexivity.
Defined.

(** ** The loader constructor *)

Lemma dict_get_None {V} k (d : list (string * V)) :
  dict_get k d = None ↔ k ∉ fmap fst d.
Proof.
  induction d as [|[k' v] d IH]; cbn [dict_get fmap list_fmap fst].
  - split; [intros _; apply not_elem_of_nil|done].
  - rewrite not_elem_of_cons. destruct (String.eqb k k') eqn:E.
    + apply String.eqb_eq in E as ->. split; [done|]. by intros [? _].
    + apply String.eqb_neq in E. rewrite IH. tauto.
Qed.

Lemma dict_get_Some_elem {V} k (v : V) d : dict_get k d = Some v → (k, v) ∈ d.
Proof.
  induction d as [|[k' v'] d IH]; cbn [dict_get]; [done|].
  destruct (String.eqb k k') eqn:E.
  - apply String.eqb_eq in E as ->. intros [= ->]. apply list_elem_of_here.
  - intros H. apply list_elem_of_further, IH, H.
Qed.

Lemma dict_get_elem_NoDup {V} k (v : V) d :
  NoDup (fmap fst d) → (k, v) ∈ d → dict_get k d = Some v.
Proof.
  induction d as [|[k' v'] d IH]; cbn [dict_get fmap list_fmap fst].
  - intros _ H. by apply elem_of_nil in H.
  - intros [Hk Hd]%NoDup_cons [[= -> ->]|H]%elem_of_cons.
    + by rewrite String.eqb_refl.
    + destruct (String.eqb k k') eqn:E; [|by apply IH].
      apply String.eqb_eq in E as ->. destruct Hk.
      apply list_elem_of_fmap. by exists (k', v).
Qed.

Lemma dict_set_keys {V} k (v : V) d :
  fmap fst (dict_set k v d)
  = if dict_mem k d then fmap fst d else fmap fst d ++ [k].
Proof.
  unfold dict_mem. induction d as [|[k' v'] d IH]; cbn [dict_get dict_set fmap list_fmap fst app];
    [done|].
  destruct (String.eqb k k') eqn:E.
  - apply String.eqb_eq in E as ->. done.
  - cbn [fmap list_fmap fst]. rewrite IH. by destruct (dict_get k d).
Qed.

Lemma dict_set_NoDup {V} k (v : V) d :
  NoDup (fmap fst d) → NoDup (fmap fst (dict_set k v d)).
Proof.
  intros Hd. rewrite dict_set_keys. unfold dict_mem.
  destruct (dict_get k d) eqn:E; [done|].
  apply NoDup_app. split; [done|]. split; [|apply NoDup_singleton].
  intros x Hx ->%list_elem_of_singleton. by apply dict_get_None in E.
Qed.

(** *** The constructor *)

Lemma init_aliases_inv l : ∀ sa ae al sa' ae' al',
  RichKVArgParseConfigLoader.init_aliases l sa ae al = Return (sa', ae', al') →
  Forall has_main l
  ∧ al' = match last l with Some x => Some x.1 | None => al end
  ∧ (NoDup (fmap fst sa ++ fmap fst l) → fmap fst ae ⊆ fmap fst sa →
     fmap (λ a : string * string, (a.1, Some a.2)) sa'
     = fmap (λ a : string * string, (a.1, Some a.2)) sa
       ++ fmap (λ a : string * described string, (a.1, main a.2)) l
     ∧ ae' = ae ++ fmap (λ a, (a.1, ext a.2)) (List.filter has_extension l)).
Proof.
  induction l as [|[a values] l IH]; intros sa ae al sa' ae' al';
    cbn [RichKVArgParseConfigLoader.init_aliases].
  - intros [= <- <- <-]. split; [constructor|]. split; [done|].
    intros _ _. by rewrite !app_nil_r.
  - destruct (main values) as [t|] eqn:Hm; [|discriminate].
    intros H. apply IH in H as (Hl & Hal & Hrest).
    split; [constructor; [exists t; exact Hm|done]|].
    split.
    { rewrite Hal, last_cons. by destruct (last l). }
    cbn [fmap list_fmap fst]. intros Hnd Hsub.
    assert (a ∉ fmap fst sa) as Hnew.
    { apply NoDup_app in Hnd as (_ & Hd & _). intros Hin.
      apply (Hd a Hin). apply list_elem_of_here. }
    assert (dict_set a t sa = sa ++ [(a, t)]) as Eset
      by by apply dict_set_fresh, dict_get_None.
    rewrite Eset in Hrest.
    destruct Hrest as [-> ->].
    { rewrite fmap_app. cbn [fmap list_fmap fst]. rewrite <- app_assoc. by cbn [app]. }
    { intros x Hx. rewrite fmap_app. apply elem_of_app.
      destruct (ext_nonempty (ext values)); [|left; by apply Hsub].
      rewrite dict_set_keys in Hx. destruct (dict_mem a ae).
      - left. by apply Hsub.
      - apply elem_of_app in Hx as [Hx|Hx]; [left; by apply Hsub|by right]. }
    split.
    { rewrite fmap_app, <- app_assoc. cbn [fmap list_fmap fst snd app]. by rewrite Hm. }
    cbn [List.filter]. unfold has_extension at 2. cbn [snd].
    destruct (ext_nonempty (ext values)); [|done].
    rewrite dict_set_fresh.
    2: { apply dict_get_None. intros Hin. apply Hnew. by apply Hsub. }
    rewrite <- app_assoc. done.
Qed.

Lemma init_aliases_returns l : ∀ sa ae al,
  Forall has_main l →
  is_Return (RichKVArgParseConfigLoader.init_aliases l sa ae al) = true.
Proof.
  induction l as [|[a values] l IH]; intros sa ae al Hl; [done|].
  apply Forall_cons in Hl as [[t Ht] Hl].
  cbn [RichKVArgParseConfigLoader.init_aliases]. cbn in Ht. rewrite Ht.
  by apply IH.
Qed.

(** The flag loop: what it hands to the base loader. *)
Lemma init_flags_stores al l : ∀ sf fe sf' fe',
  RichKVArgParseConfigLoader.init_flags l al sf fe = Return (sf', fe') →
  NoDup (fmap fst sf ++ fmap fst l) →
  fmap (λ f : string * (flagcfg * string), (f.1, Some f.2)) sf'
  = fmap (λ f : string * (flagcfg * string), (f.1, Some f.2)) sf
    ++ fmap (λ f : string * described (flagcfg * string), (f.1, main f.2)) l.
Proof.
  induction l as [|[f values] l IH]; intros sf fe sf' fe';
    cbn [RichKVArgParseConfigLoader.init_flags].
  - intros [= <- <-] _. by rewrite app_nil_r.
  - destruct (main values) as [v|] eqn:Hm; [|discriminate].
    intros H Hnd. cbn [fmap list_fmap fst] in Hnd.
    assert (dict_set f v sf = sf ++ [(f, v)]) as Eset.
    { apply dict_set_fresh, dict_get_None.
      apply NoDup_app in Hnd as (_ & Hd & _). intros Hin.
      apply (Hd f Hin). apply list_elem_of_here. }
    rewrite Eset in H.
    assert (∃ fe1, RichKVArgParseConfigLoader.init_flags l al (sf ++ [(f, v)]) fe1
                   = Return (sf', fe')) as [fe1 H1].
    { destruct (ext_nonempty (ext values)); [destruct al; [|discriminate]|]; eauto. }
    apply IH in H1.
    + rewrite H1, fmap_app, <- app_assoc. cbn [fmap list_fmap fst snd app].
      by rewrite Hm.
    + rewrite fmap_app. cbn [fmap list_fmap fst]. rewrite <- app_assoc. by cbn [app].
Qed.

(** The flag loop when an alias has been seen. *)
Lemma init_flags_inv a l : ∀ sf fe sf' fe',
  RichKVArgParseConfigLoader.init_flags l (Some a) sf fe = Return (sf', fe') →
  fe = [] ∨ (∃ e, fe = [(a, e)]) →
  fe' = match last (List.filter has_extension l) with
        | Some f => [(a, ext f.2)]
        | None => fe
        end.
Proof.
  induction l as [|[f values] l IH]; intros sf fe sf' fe';
    cbn [RichKVArgParseConfigLoader.init_flags].
  - by intros [= <- <-].
  - destruct (main values) as [v|] eqn:Hm; [|discriminate].
    intros H Hshape. cbn [List.filter]. unfold has_extension at 1. cbn [snd].
    destruct (ext_nonempty (ext values)) eqn:He.
    + apply IH in H.
      2: { right. destruct Hshape as [->|[e ->]]; cbn [dict_set]; [eauto|].
           rewrite String.eqb_refl. eauto. }
      rewrite H, last_cons.
      destruct (last (List.filter has_extension l)); [done|].
      destruct Hshape as [->|[e ->]]; cbn [dict_set]; [done|].
      by rewrite String.eqb_refl.
    + by apply IH in H.
Qed.

Lemma init_flags_returns a l : ∀ sf fe,
  Forall has_main l →
  is_Return (RichKVArgParseConfigLoader.init_flags l (Some a) sf fe) = true.
Proof.
  induction l as [|[f values] l IH]; intros sf fe Hl; [done|].
  apply Forall_cons in Hl as [[t Ht] Hl].
  cbn [RichKVArgParseConfigLoader.init_flags]. cbn in Ht. rewrite Ht.
  destruct (ext_nonempty (ext values)); by apply IH.
Qed.

(** The flag loop when [alias] is unbound. *)
Lemma init_flags_unbound l : ∀ sf fe,
  Forall has_main l →
  match RichKVArgParseConfigLoader.init_flags l None sf fe with
  | Return (_, fe') => Forall (λ f, has_extension f = false) l ∧ fe' = fe
  | Raise e => e = NameError "alias" ∧ Exists (λ f, has_extension f = true) l
  end.
Proof.
  induction l as [|[f values] l IH]; intros sf fe Hl;
    cbn [RichKVArgParseConfigLoader.init_flags]; [done|].
  apply Forall_cons in Hl as [[t Ht] Hl]. cbn in Ht. rewrite Ht.
  destruct (ext_nonempty (ext values)) eqn:He.
  - split; [done|]. by apply Exists_cons_hd.
  - specialize (IH (dict_set f t sf) fe Hl).
    destruct (RichKVArgParseConfigLoader.init_flags l None (dict_set f t sf) fe)
      as [[sf' fe']|e].
    + destruct IH as [IH ->]. split; [|done]. by constructor.
    + destruct IH as [-> IH]. split; [done|]. by apply Exists_cons_tl.
Qed.

Lemma init_flags_main al l : ∀ sf fe r,
  RichKVArgParseConfigLoader.init_flags l al sf fe = Return r → Forall has_main l.
Proof.
  induction l as [|[f values] l IH]; intros sf fe r;
    cbn [RichKVArgParseConfigLoader.init_flags]; [constructor|].
  destruct (main values) as [v|] eqn:Hm; [|discriminate].
  intros H. constructor; [exists v; exact Hm|].
  destruct (ext_nonempty (ext values)); [destruct al; [|discriminate]|];
    by eapply IH.
Qed.

(** X11.  When the constructor of [RichKVArgParseConfigLoader] succeeds:
    exactly when every alias has its ['trait'], every flag its ['value'],
    and, should there be no alias, no flag has anything besides its value.
    With no alias, a flag that has more than its value makes the
    constructor raise [NameError] for [alias]. *)
Theorem init_outcome
    (aliases0 : list (string * described string))
    (flags0 : list (string * described (flagcfg * string))) (d : string) :
  (is_Return (RichKVArgParseConfigLoader.__init__ aliases0 flags0 d) = true
   ↔ Forall has_main aliases0 ∧ Forall has_main flags0
     ∧ (aliases0 = [] → Forall (λ f, has_extension f = false) flags0))
  ∧ (aliases0 = [] → Forall has_main flags0 →
     Exists (λ f, has_extension f = true) flags0 →
     RichKVArgParseConfigLoader.__init__ aliases0 flags0 d
     = Raise (NameError "alias")).
Proof.
  split.
  - unfold RichKVArgParseConfigLoader.__init__. split.
    + destruct (RichKVArgParseConfigLoader.init_aliases aliases0 [] [] None)
        as [[[sa ae] al]|e] eqn:Ha; [|done].
      cbn [mbind result_bind].
      destruct (RichKVArgParseConfigLoader.init_flags flags0 al [] [])
        as [[sf fe]|e] eqn:Hf; [|done].
      intros _. pose proof (init_aliases_inv _ _ _ _ _ _ _ Ha) as (Hl & Hal & _).
      pose proof (init_flags_main _ _ _ _ _ Hf) as Hfl.
      split; [done|]. split; [done|]. intros ->. cbn [last] in Hal. subst al.
      pose proof (init_flags_unbound flags0 [] [] Hfl) as Hu.
      rewrite Hf in Hu. by destruct Hu.
    + intros (Ha & Hf & Hext).
      pose proof (init_aliases_returns aliases0 [] [] None Ha) as Hr.
      destruct (RichKVArgParseConfigLoader.init_aliases aliases0 [] [] None)
        as [[[sa ae] al]|e] eqn:Hia; [|done].
      cbn [mbind result_bind].
      pose proof (init_aliases_inv _ _ _ _ _ _ _ Hia) as (_ & Hal & _).
      destruct aliases0 as [|x l].
      * cbn [last] in Hal. subst al.
        pose proof (init_flags_unbound flags0 [] [] Hf) as Hu.
        destruct (RichKVArgParseConfigLoader.init_flags flags0 None [] [])
          as [[sf fe]|e]; [done|].
        destruct Hu as [_ Hu]. specialize (Hext eq_refl).
        apply Exists_exists in Hu as (f & Hin & Hf1).
        rewrite Forall_forall in Hext. rewrite (Hext f Hin) in Hf1. done.
      * assert (∃ a, al = Some a) as [a ->].
        { rewrite Hal. destruct (last (x :: l)) eqn:E; [eauto|].
          by apply last_None in E. }
        pose proof (init_flags_returns a flags0 [] [] Hf) as Hr2.
        by destruct (RichKVArgParseConfigLoader.init_flags flags0 (Some a) [] [])
          as [[sf fe]|e].
  - intros -> Hf Hex. unfold RichKVArgParseConfigLoader.__init__.
    cbn [RichKVArgParseConfigLoader.init_aliases mbind result_bind].
    pose proof (init_flags_unbound flags0 [] [] Hf) as Hu.
    destruct (RichKVArgParseConfigLoader.init_flags flags0 None [] [])
      as [[sf fe]|e].
    + destruct Hu as [Hu _]. apply Exists_exists in Hex as (f & Hin & Hf1).
      rewrite Forall_forall in Hu. rewrite (Hu f Hin) in Hf1. done.
    + by destruct Hu as [-> _].
Qed.

Lemma init_outcome_witness :
  RichKVArgParseConfigLoader.__init__ [] builtin_flags "" = Raise (NameError "alias").
Proof.
  apply (proj2 (init_outcome [] builtin_flags "")).
  - reflexivity.
  - repeat constructor; eexists; reflexivity.
  - apply Exists_cons_hd. reflexivity.
Defined.

(** X12.  Where the extensions of the flags end up.  After the
    constructor, [flag_extensions] holds at most one entry: the extension
    of the last flag that has one, under the key of the last alias. *)
Theorem init_flag_extensions
    (aliases0 : list (string * described string))
    (flags0 : list (string * described (flagcfg * string))) (d : string)
    (ld : loader) :
  RichKVArgParseConfigLoader.__init__ aliases0 flags0 d = Return ld →
  flag_extensions ld
  = match last (List.filter has_extension flags0), last aliases0 with
    | Some f, Some a => [(a.1, ext f.2)]
    | _, _ => []
    end.
Proof.
  unfold RichKVArgParseConfigLoader.__init__. intros H.
  apply bind_Return in H as ([[sa ae] al] & Ha & H).
  apply bind_Return in H as ([sf fe] & Hf & [= <-]). cbn [flag_extensions].
  pose proof (init_aliases_inv _ _ _ _ _ _ _ Ha) as (_ & Hal & _).
  destruct (last aliases0) as [a|].
  - subst al. apply init_flags_inv in Hf as ->; [|by left].
    by destruct (last (List.filter has_extension flags0)).
  - subst al. pose proof (init_flags_main _ _ _ _ _ Hf) as Hm.
    pose proof (init_flags_unbound flags0 [] [] Hm) as Hu. rewrite Hf in Hu.
    destruct Hu as [Hu ->].
    assert (List.filter has_extension flags0 = []) as ->; [|done].
    clear -Hu. induction Hu as [|x l Hx _ IH]; [done|].
    cbn [List.filter]. by rewrite Hx.
Qed.

Lemma init_flag_extensions_witness :
  ∃ ld, get_argparse_loader example_lib = Return ld
        ∧ flag_extensions ld
          = match last (List.filter has_extension builtin_flags),
                  last (registry example_lib) with
            | Some f, Some a => [(a.1, ext f.2)]
            | _, _ => []
            end.
Proof.
  assert (is_Return (get_argparse_loader example_lib) = true) as Hr
    by (vm_compute; reflexivity).
  destruct (get_argparse_loader example_lib) as [ld|e] eqn:H; [|discriminate Hr].
  exists ld. split; [reflexivity|].
  exact (init_flag_extensions (registry example_lib) builtin_flags
           (DESCRIPTION example_lib) ld H).
Defined.

(** X13.  What the constructor hands to the base loader.  With distinct
    alias keys and distinct flag names, [aliases] maps each alias key to its
    trait and [flags] each flag name to its value, in the order given;
    [alias_extensions] holds what is left of each alias that has more than
    its trait. *)
Theorem init_stores
    (aliases0 : list (string * described string))
    (flags0 : list (string * described (flagcfg * string))) (d : string)
    (ld : loader) :
  RichKVArgParseConfigLoader.__init__ aliases0 flags0 d = Return ld →
  NoDup (fmap fst aliases0) → NoDup (fmap fst flags0) →
  fmap (λ a : string * string, (a.1, Some a.2)) (aliases ld)
  = fmap (λ a : string * described string, (a.1, main a.2)) aliases0
  ∧ fmap (λ f : string * (flagcfg * string), (f.1, Some f.2)) (flags ld)
    = fmap (λ f : string * described (flagcfg * string), (f.1, main f.2)) flags0
  ∧ alias_extensions ld
    = fmap (λ a, (a.1, ext a.2)) (List.filter has_extension aliases0)
  ∧ description ld = d.
Proof.
  unfold RichKVArgParseConfigLoader.__init__. intros H Hna Hnf.
  apply bind_Return in H as ([[sa ae] al] & Ha & H).
  apply bind_Return in H as ([sf fe] & Hf & [= <-]).
  cbn [aliases flags alias_extensions description].
  pose proof (init_aliases_inv _ _ _ _ _ _ _ Ha) as (_ & Hal & Hsa).
  destruct Hsa as [-> ->]; [done|done|].
  split; [done|]. split; [|done].
  by apply init_flags_stores in Hf as ->.
Qed.

Lemma init_stores_witness :
  ∃ ld, get_argparse_loader example_lib = Return ld
        ∧ fmap (λ a : string * string, (a.1, Some a.2)) (aliases ld)
          = fmap (λ a : string * described string, (a.1, main a.2)) (registry example_lib)
        ∧ fmap (λ f : string * (flagcfg * string), (f.1, Some f.2)) (flags ld)
          = fmap (λ f : string * described (flagcfg * string), (f.1, main f.2))
              builtin_flags
        ∧ alias_extensions ld
          = fmap (λ a, (a.1, ext a.2)) (List.filter has_extension (registry example_lib))
        ∧ description ld = DESCRIPTION example_lib.
Proof.
  assert (is_Return (get_argparse_loader example_lib) = true) as Hr
    by (vm_compute; reflexivity).
  destruct (get_argparse_loader example_lib) as [ld|e] eqn:H; [|discriminate Hr].
  exists ld. split; [reflexivity|].
  apply (init_stores (registry example_lib) builtin_flags
           (DESCRIPTION example_lib) ld H).
  - apply (@bool_decide_unpack _ (NoDup_dec _)). vm_compute. exact I.
  - apply (@bool_decide_unpack _ (NoDup_dec _)). vm_compute. exact I.
Defined.

(** ** The alias mapping of a class *)

Lemma insert_sorted_perm m l : RichConfigurable.insert_sorted m l ≡ₚ m :: l.
Proof.
  induction l as [|x l IH]; cbn [RichConfigurable.insert_sorted]; [done|].
  destruct (String.leb m.1 x.1); [done|]. rewrite IH. apply Permutation_swap.
Qed.

Lemma getmembers_perm cls :
  RichConfigurable.getmembers cls ≡ₚ traits cls ++ RichConfigurable.inherited.
Proof.
  unfold RichConfigurable.getmembers.
  induction (traits cls ++ RichConfigurable.inherited) as [|x l IH]; [done|].
  cbn [foldr]. by rewrite insert_sorted_perm, IH.
Qed.

Lemma getmembers_aliased cls m :
  aliased m → m ∈ RichConfigurable.getmembers cls ↔ m ∈ traits cls.
Proof.
  intros [Hc Hp]. rewrite getmembers_perm, elem_of_app.
  split; [|by left]. intros [H|H]; [done|].
  unfold RichConfigurable.inherited in H.
  apply elem_of_cons in H as [->|H]; [done|].
  apply elem_of_cons in H as [->|H]; [done|]. by apply elem_of_nil in H.
Qed.

Lemma collect_sound lib cls members : ∀ acc k d,
  dict_get k (RichConfigurable.collect lib cls members acc) = Some d →
  dict_get k acc = Some d
  ∨ ∃ key t, (key, t) ∈ members ∧ aliased (key, t)
             ∧ k = RichConfigurable.alias_key key t
             ∧ d = RichConfigurable.alias_dict lib cls key t.
Proof.
  induction members as [|[key t] members IH]; intros acc k d;
    cbn [RichConfigurable.collect]; [by left|].
  case_bool_decide as Hres.
  - intros H. apply IH in H as [H|(key' & t' & Hin & H)]; [by left|].
    right. exists key', t'. split; [by apply list_elem_of_further|done].
  - intros H. apply IH in H as [H|(key' & t' & Hin & H)].
    + destruct (decide (k = RichConfigurable.alias_key key t)) as [->|Hne].
      * rewrite dict_get_set_eq in H. injection H as <-.
        right. exists key, t. split; [apply list_elem_of_here|].
        split; [|done]. unfold aliased. cbn [fst]. tauto.
      * rewrite dict_get_set_ne in H by done. by left.
    + right. exists key', t'. split; [by apply list_elem_of_further|done].
Qed.

Lemma collect_NoDup lib cls members : ∀ acc,
  NoDup (fmap fst acc) → NoDup (fmap fst (RichConfigurable.collect lib cls members acc)).
Proof.
  induction members as [|[key t] members IH]; intros acc Hacc;
    cbn [RichConfigurable.collect]; [done|].
  case_bool_decide; apply IH; [done|]. by apply dict_set_NoDup.
Qed.

(** X14.  The alias mapping of a class.  Its keys are distinct; every
    entry describes a trait the class declares, other than [config] and
    [parent], under the key and with the description the code builds for
    it; and when the keys of the declared traits are distinct, every one of
    them has its entry. *)
Theorem trait_argparse_aliases_entries
    (lib : library) (cls : configurable) :
  NoDup (fmap fst (RichConfigurable.trait_argparse_aliases lib cls))
  ∧ (∀ k d,
       dict_get k (RichConfigurable.trait_argparse_aliases lib cls) = Some d →
       ∃ key t, (key, t) ∈ traits cls ∧ aliased (key, t)
                ∧ k = RichConfigurable.alias_key key t
                ∧ d = RichConfigurable.alias_dict lib cls key t)
  ∧ (NoDup (fmap (λ m, RichConfigurable.alias_key m.1 m.2)
              (filter aliased (traits cls))) →
     ∀ key t, (key, t) ∈ traits cls → aliased (key, t) →
       dict_get (RichConfigurable.alias_key key t)
         (RichConfigurable.trait_argparse_aliases lib cls)
       = Some (RichConfigurable.alias_dict lib cls key t)).
Proof.
  unfold RichConfigurable.trait_argparse_aliases. split; [|split].
  - apply collect_NoDup. constructor.
  - intros k d H. apply collect_sound in H as [H|(key & t & Hin & Ha & H)];
      [discriminate|].
    exists key, t. split; [|done]. by apply (getmembers_aliased cls (key, t)).
  - intros Hnd key t Hin Ha.
    assert (NoDup (fmap (λ m, RichConfigurable.alias_key m.1 m.2)
                     (filter aliased (RichConfigurable.getmembers cls)))) as Hnd'.
    { eapply NoDup_Permutation_proper; [|exact Hnd].
      apply fmap_Permutation. rewrite getmembers_perm, filter_app.
      unfold RichConfigurable.inherited.
      rewrite (filter_cons_False aliased) by (unfold aliased; cbn; tauto).
      rewrite (filter_cons_False aliased) by (unfold aliased; cbn; tauto).
      by rewrite filter_nil, app_nil_r. }
    apply (getmembers_aliased cls (key, t) Ha) in Hin.
    apply list_elem_of_split in Hin as (pre & post & Hsplit).
    rewrite Hsplit, collect_app. cbn [RichConfigurable.collect].
    rewrite bool_decide_eq_false_2 by (destruct Ha as [Hc Hp]; cbn in *; tauto).
    rewrite collect_other_keys; [apply dict_get_set_eq|].
    rewrite Hsplit, filter_app, filter_cons_True, fmap_app, fmap_cons in Hnd' by done.
    apply NoDup_app in Hnd' as (_ & _ & Hpost).
    apply NoDup_cons in Hpost as [Hk _]. cbn [fst snd] in Hk.
    apply Forall_forall. intros [key' t'] Hin'. cbn [fst snd].
    destruct (decide (key' = "config")) as [->|Hc]; [by left|].
    destruct (decide (key' = "parent")) as [->|Hp]; [by right; left|].
    right; right. intros Heq. apply Hk. apply list_elem_of_fmap.
    exists (key', t'). split; [done|]. apply list_elem_of_filter. by split.
Qed.

Lemma trait_argparse_aliases_entries_witness :
  dict_get (RichConfigurable.alias_key "dump_path" (Unicode "contacts.csv" None []))
    (RichConfigurable.trait_argparse_aliases example_lib
       {| __name__ := "Base";
          traits := [("dump_path", Unicode "contacts.csv" None [])] |})
  = Some (RichConfigurable.alias_dict example_lib
            {| __name__ := "Base";
               traits := [("dump_path", Unicode "contacts.csv" None [])] |}
            "dump_path" (Unicode "contacts.csv" None [])).
Proof.
  apply (proj2 (proj2 (trait_argparse_aliases_entries example_lib
           {| __name__ := "Base";
              traits := [("dump_path", Unicode "contacts.csv" None [])] |}))).
  - apply (@bool_decide_unpack _ (NoDup_dec _)). vm_compute. exact I.
  - apply list_elem_of_here.
  - split; discriminate.
Defined.

(** ** The arguments of the parser *)

Lemma registered_app s p q :
  argparse.registered s (p ++ q) = argparse.registered s p || argparse.registered s q.
Proof. unfold argparse.registered. apply existsb_app. Qed.

Lemma registered_singleton s a :
  argparse.registered s [a] = true ↔ s ∈ option_strings a.
Proof.
  unfold argparse.registered. cbn [existsb]. rewrite orb_false_r.
  rewrite existsb_exists. split.
  - intros (x & Hin & ->%String.eqb_eq). by apply list_elem_of_In.
  - intros Hin. exists s. split; [by apply list_elem_of_In|apply String.eqb_refl].
Qed.

Lemma conflict_free_snoc parser a :
  conflict_free parser →
  (∀ s, s ∈ option_strings a → argparse.registered s parser = false) →
  conflict_free (parser ++ [a]).
Proof.
  induction parser as [|b parser IH]; cbn [conflict_free app].
  - intros _ _. split; [done|done].
  - intros [Hb Hp] Ha. split.
    + intros s Hs. rewrite registered_app, (Hb s Hs). cbn [orb].
      apply not_true_iff_false. intros Hreg%registered_singleton.
      specialize (Ha s Hreg). unfold argparse.registered in Ha.
      cbn [existsb] in Ha. apply orb_false_iff in Ha as [Ha _].
      apply not_true_iff_false in Ha. apply Ha, existsb_exists.
      exists s. split; [by apply list_elem_of_In|apply String.eqb_refl].
    + apply IH; [done|]. intros s Hs. specialize (Ha s Hs).
      unfold argparse.registered in Ha. cbn [existsb] in Ha.
      by apply orb_false_iff in Ha as [_ Ha].
Qed.

Lemma add_argument_inv parser args kw parser' :
  argparse.add_argument parser args kw = Return parser' →
  parser' = parser ++ [ {| option_strings := args; arg_kwargs := kw |} ]
  ∧ ∀ s, s ∈ args → argparse.registered s parser = false.
Proof.
  unfold argparse.add_argument.
  destruct (existsb (λ s, argparse.registered s parser) args) eqn:E; [discriminate|].
  intros [= <-]. split; [done|]. intros s Hs.
  apply not_true_iff_false. intros Hreg.
  apply not_true_iff_false in E. apply E, existsb_exists.
  exists s. split; [by apply list_elem_of_In|done].
Qed.

Lemma add_alias_arguments_inv self l : ∀ parser parser',
  RichKVArgParseConfigLoader.add_alias_arguments self l parser = Return parser' →
  ∃ added,
    parser' = parser ++ added
    ∧ fmap option_strings added
      = fmap (λ a : string * string,
                RichKVArgParseConfigLoader.switches (alias_extensions self) a.1) l
    ∧ Forall2 (λ (a : string * string) (arg : argument),
                 dict_get "nargs" (arg_kwargs arg)
                 = if dict_mem a.1 (flags self) then Some (KStr "?")
                   else dict_get "nargs"
                          (dict_update [("dest", KStr a.2); ("type", KTextType)]
                             (RichKVArgParseConfigLoader.extra_kwargs
                                (alias_extensions self) a.1)))
        l added
    ∧ (conflict_free parser → conflict_free parser').
Proof.
  induction l as [|[key value] l IH]; intros parser parser';
    cbn [RichKVArgParseConfigLoader.add_alias_arguments].
  - intros [= <-]. exists []. rewrite app_nil_r. repeat split; [constructor|done].
  - intros H. apply bind_Return in H as (p1 & Hadd & H).
    apply add_argument_inv in Hadd as [-> Hfree].
    apply IH in H as (added & -> & Hstr & Hkw & Hcf).
    eexists (_ :: added). rewrite <- app_assoc. split; [reflexivity|].
    split; [by rewrite !fmap_cons, Hstr|]. split.
    + constructor; [|done]. cbn [arg_kwargs fst snd].
      destruct (dict_mem key (flags self)); [apply dict_get_set_eq|done].
    + intros Hp. rewrite app_assoc. apply Hcf. by apply conflict_free_snoc.
Qed.

Lemma add_flag_arguments_inv self l : ∀ af parser af' parser',
  RichKVArgParseConfigLoader.add_flag_arguments self l af parser
  = Return (af', parser') →
  ∃ added,
    parser' = parser ++ added
    ∧ fmap option_strings added
      = fmap (λ f : string * (flagcfg * string),
                RichKVArgParseConfigLoader.switches (flag_extensions self) f.1)
          (List.filter (λ f, negb (dict_mem f.1 (aliases self))) l)
    ∧ (∀ trait, is_Some (dict_get trait af')
                ↔ is_Some (dict_get trait af)
                  ∨ ∃ f, f ∈ l ∧ dict_get f.1 (aliases self) = Some trait)
    ∧ (conflict_free parser → conflict_free parser').
Proof.
  induction l as [|[key [value help]] l IH]; intros af parser af' parser';
    cbn [RichKVArgParseConfigLoader.add_flag_arguments].
  - intros [= <- <-]. exists []. rewrite app_nil_r. repeat split; try done.
    + by left.
    + intros [H|(f & Hf & _)]; [done|]. by apply elem_of_nil in Hf.
  - cbn [List.filter fst]. unfold dict_mem at 1.
    destruct (dict_get key (aliases self)) as [trait|] eqn:Hk; cbn [negb].
    + intros H. apply IH in H as (added & -> & Hstr & Haf & Hcf).
      exists added. split; [done|]. split; [done|]. split; [|done].
      intros t. rewrite Haf. split.
      * intros [H|(f & Hf & Hd)].
        -- destruct (decide (t = trait)) as [->|Hne].
           ++ right. exists (key, (value, help)). split; [apply list_elem_of_here|done].
           ++ left. by rewrite dict_get_set_ne in H.
        -- right. exists f. split; [by apply list_elem_of_further|done].
      * intros [H|(f & Hf & Hd)].
        -- left. destruct (decide (t = trait)) as [->|Hne].
           ++ rewrite dict_get_set_eq. eauto.
           ++ by rewrite dict_get_set_ne.
        -- apply elem_of_cons in Hf as [->|Hf].
           ++ cbn [fst] in Hd. rewrite Hk in Hd. injection Hd as ->.
              left. rewrite dict_get_set_eq. eauto.
           ++ right. eauto.
    + intros H. apply bind_Return in H as (p1 & Hadd & H).
      apply add_argument_inv in Hadd as [-> Hfree].
      apply IH in H as (added & -> & Hstr & Haf & Hcf).
      eexists (_ :: added). rewrite <- app_assoc. split; [reflexivity|].
      split; [by rewrite !fmap_cons, Hstr|]. split.
      * intros t. rewrite Haf. split; (intros [H|(f & Hf & Hd)]; [by left|]).
        -- right. exists f. split; [by apply list_elem_of_further|done].
        -- apply elem_of_cons in Hf as [->|Hf].
           ++ cbn [fst] in Hd. by rewrite Hk in Hd.
           ++ right. eauto.
      * intros Hp. rewrite app_assoc. apply Hcf. by apply conflict_free_snoc.
Qed.

(** X15.  What [_add_arguments] registers.  The parser keeps its
    arguments and gains one per alias, then one per flag that is not an
    alias key, each under its declared switches or else its default switch;
    and no option string is registered twice afterwards if none was
    before. *)
Theorem add_arguments_registers
    (self : loader) (parser parser' : list argument)
    (alias_flags : list (string * flagcfg)) :
  RichKVArgParseConfigLoader._add_arguments self parser
  = Return (alias_flags, parser') →
  ∃ added,
    parser' = parser ++ added
    ∧ fmap option_strings added
      = fmap (λ a : string * string,
                RichKVArgParseConfigLoader.switches (alias_extensions self) a.1)
          (aliases self)
        ++ fmap (λ f : string * (flagcfg * string),
                   RichKVArgParseConfigLoader.switches (flag_extensions self) f.1)
             (own_flags self)
    ∧ (conflict_free parser → conflict_free parser').
Proof.
  unfold RichKVArgParseConfigLoader._add_arguments. intros H.
  apply bind_Return in H as (p1 & Ha & Hf).
  apply add_alias_arguments_inv in Ha as (added1 & -> & Hs1 & _ & Hc1).
  apply add_flag_arguments_inv in Hf as (added2 & -> & Hs2 & _ & Hc2).
  exists (added1 ++ added2). rewrite app_assoc. split; [done|].
  split; [by rewrite fmap_app, Hs1, Hs2|]. auto.
Qed.

Lemma add_arguments_registers_witness :
  ∃ ld alias_flags parser' added,
    get_argparse_loader example_lib = Return ld
    ∧ RichKVArgParseConfigLoader._add_arguments ld argparse.new_parser
      = Return (alias_flags, parser')
    ∧ parser' = argparse.new_parser ++ added
    ∧ fmap option_strings added
      = fmap (λ a : string * string,
                RichKVArgParseConfigLoader.switches (alias_extensions ld) a.1)
          (aliases ld)
        ++ fmap (λ f : string * (flagcfg * string),
                   RichKVArgParseConfigLoader.switches (flag_extensions ld) f.1)
             (own_flags ld)
    ∧ (conflict_free argparse.new_parser → conflict_free parser').
Proof.
  assert (is_Return (get_argparse_loader example_lib) = true) as Hr
    by (vm_compute; reflexivity).
  destruct (get_argparse_loader example_lib) as [ld|e] eqn:Hld; [|discriminate Hr].
  assert (is_Return (ld ← get_argparse_loader example_lib;
                     RichKVArgParseConfigLoader._add_arguments ld argparse.new_parser)
          = true) as Hr2 by (vm_compute; reflexivity).
  rewrite Hld in Hr2. cbn [mbind result_bind] in Hr2.
  destruct (RichKVArgParseConfigLoader._add_arguments ld argparse.new_parser)
    as [[af parser']|e] eqn:H; [|discriminate Hr2].
  destruct (add_arguments_registers ld argparse.new_parser parser' af H)
    as (added & Hadded).
  exists ld, af, parser', added. split; [reflexivity|]. split; [exact H|].
  exact Hadded.
Defined.

Lemma add_flag_arguments_value self l : ∀ af parser af' parser',
  RichKVArgParseConfigLoader.add_flag_arguments self l af parser
  = Return (af', parser') →
  ∀ trait, dict_get trait af'
           = match aliased_value self trait l with
             | Some v => Some v
             | None => dict_get trait af
             end.
Proof.
  induction l as [|[key [value help]] l IH]; intros af parser af' parser';
    cbn [RichKVArgParseConfigLoader.add_flag_arguments aliased_value].
  - by intros [= <- <-].
  - destruct (dict_get key (aliases self)) as [t|] eqn:Hk.
    + intros H trait. rewrite (IH _ _ _ _ H trait).
      destruct (aliased_value self trait l); [done|].
      case_bool_decide as Ht.
      * injection Ht as ->. apply dict_get_set_eq.
      * apply dict_get_set_ne. by intros ->.
    + intros H trait. apply bind_Return in H as (p1 & _ & H).
      rewrite (IH _ _ _ _ H trait).
      destruct (aliased_value self trait l); [done|].
      by rewrite bool_decide_eq_false_2.
Qed.

(** X16.  A flag that shares the name of an alias gets no option of
    its own: the option of the alias takes an optional value
    ([nargs='?']), and what [alias_flags] holds under a trait is the value
    of the last flag whose name is an alias key for that trait; it is the
    value of this flag when no later flag is aliased to the same trait. *)
Theorem add_arguments_aliased_flag
    (self : loader) (parser parser' : list argument)
    (alias_flags : list (string * flagcfg)) (key trait : string) :
  RichKVArgParseConfigLoader._add_arguments self parser
  = Return (alias_flags, parser') →
  (key, trait) ∈ aliases self →
  dict_mem key (flags self) = true →
  (∃ arg, arg ∈ parser'
          ∧ option_strings arg
            = RichKVArgParseConfigLoader.switches (alias_extensions self) key
          ∧ dict_get "nargs" (arg_kwargs arg) = Some (KStr "?"))
  ∧ (∀ t, dict_get t alias_flags = aliased_value self t (flags self))
  ∧ (∀ pre value help post,
       flags self = pre ++ (key, (value, help)) :: post →
       dict_get key (aliases self) = Some trait →
       aliased_value self trait post = None →
       dict_get trait alias_flags = Some value)
  ∧ key ∉ fmap fst (own_flags self).
Proof.
  unfold RichKVArgParseConfigLoader._add_arguments. intros H Hin Hflag.
  apply bind_Return in H as (p1 & Ha & Hf).
  apply add_alias_arguments_inv in Ha as (added1 & -> & Hs1 & Hkw & _).
  pose proof (add_flag_arguments_value _ _ _ _ _ _ Hf) as Hval.
  assert (∀ t, dict_get t alias_flags = aliased_value self t (flags self)) as Hall.
  { intros t. rewrite Hval. by destruct (aliased_value self t (flags self)). }
  apply add_flag_arguments_inv in Hf as (added2 & -> & _ & Haf & _).
  split; [|split; [exact Hall|split]].
  - apply list_elem_of_lookup in Hin as [i Hi].
    destruct (Forall2_lookup_l _ _ _ _ _ Hkw Hi) as (arg & Harg & Hnargs).
    cbn [fst] in Hnargs. rewrite Hflag in Hnargs.
    exists arg. split.
    + apply elem_of_app. left. apply elem_of_app. right.
      by apply list_elem_of_lookup_2 in Harg.
    + split; [|done].
      apply (f_equal (λ l, l !! i)) in Hs1. rewrite !list_lookup_fmap in Hs1.
      rewrite Harg, Hi in Hs1. cbn in Hs1. by injection Hs1.
  - intros pre value help post Hflags Hkey Hpost. rewrite Hall, Hflags.
    clear -Hkey Hpost. induction pre as [|[k [v h]] pre IH].
    + cbn [app aliased_value]. rewrite Hpost. by rewrite bool_decide_eq_true_2.
    + cbn [app aliased_value]. by rewrite IH.
  - unfold own_flags. intros (f & -> & Hf')%list_elem_of_fmap.
    apply list_elem_of_In, filter_In in Hf' as [_ Hf'].
    apply negb_true_iff in Hf'. unfold dict_mem in Hf'.
    destruct (dict_get f.1 (aliases self)) eqn:E; [discriminate|].
    apply dict_get_None in E. apply E. apply list_elem_of_fmap.
    by exists (f.1, trait).
Qed.

Lemma add_arguments_aliased_flag_witness :
  ∃ alias_flags parser',
    RichKVArgParseConfigLoader._add_arguments
      {| aliases := [("log-level", "LogConfig.stream_log_level")];
         flags := [("log-level", ([("LogConfig", [("stream_log_level", VStr "DEBUG")])],
                                  "log everything"))];
         alias_extensions := []; flag_extensions := []; description := "" |}
      argparse.new_parser
    = Return (alias_flags, parser')
    ∧ (∃ arg, arg ∈ parser'
              ∧ option_strings arg = RichKVArgParseConfigLoader.switches [] "log-level"
              ∧ dict_get "nargs" (arg_kwargs arg) = Some (KStr "?"))
    ∧ dict_get "LogConfig.stream_log_level" alias_flags
      = Some [("LogConfig", [("stream_log_level", VStr "DEBUG")])].
Proof.
  do 2 eexists. split; [reflexivity|].
  match goal with |- (∃ arg, arg ∈ ?p ∧ _) ∧ dict_get _ ?af = _ =>
    destruct (add_arguments_aliased_flag
      {| aliases := [("log-level", "LogConfig.stream_log_level")];
         flags := [("log-level", ([("LogConfig", [("stream_log_level", VStr "DEBUG")])],
                                  "log everything"))];
         alias_extensions := []; flag_extensions := []; description := "" |}
      argparse.new_parser p af "log-level" "LogConfig.stream_log_level")
      as (H1 & H2 & _)
  end.
  - reflexivity.
  - apply list_elem_of_here.
  - reflexivity.
  - split; [exact H1|]. rewrite H2. reflexivity.
Defined.

(** Two flags named after two alias keys of one trait: the value of the
    second is the one that is kept. *)
Example aliased_flags_on_one_trait :
  fst <$> RichKVArgParseConfigLoader._add_arguments
            {| aliases := [("a", "C.t"); ("b", "C.t")];
               flags := [("a", ([("C", [("t", VInt 1)])], ""));
                         ("b", ([("C", [("t", VInt 2)])], ""))];
               alias_extensions := []; flag_extensions := []; description := "" |}
            argparse.new_parser
  = Return [("C.t", [("C", [("t", VInt 2)])])].
Proof. reflexivity. Qed.
(** ** The extension of a config file *)

Lemma substring_all s : String.substring 0 (String.length s) s = s.
Proof. induction s as [|c s IH]; [done|]. cbn. by rewrite IH. Qed.

Lemma substring_split n : ∀ p,
  String.substring 0 n p +:+ String.substring n (String.length p - n) p = p.
Proof.
  induction n as [|n IH]; intros p.
  - rewrite Nat.sub_0_r, substring_all. by destruct p.
  - destruct p as [|c p]; [done|].
    cbn [String.substring String.length Nat.sub]. rewrite string_app_cons.
    by rewrite IH.
Qed.

Lemma splitext_join p :
  (posixpath.splitext p).1 +:+ (posixpath.splitext p).2 = p.
Proof.
  unfold posixpath.splitext.
  destruct (_ && _); cbn [fst snd]; [apply substring_split|apply string_app_nil_r].
Qed.

Lemma rfind_absent c s : char_in c s = false → posixpath.rfind c s = -1.
Proof.
  induction s as [|a s IH]; [done|]. cbn [char_in posixpath.rfind].
  intros [Ha Hs]%orb_false_iff. rewrite (IH Hs), Ha. done.
Qed.

Lemma rfind_nonneg_or c s : posixpath.rfind c s = -1 ∨ 0 ≤ posixpath.rfind c s.
Proof.
  induction s as [|a s IH]; [by left|]. cbn [posixpath.rfind].
  destruct (0 <=? posixpath.rfind c s) eqn:E.
  - right. apply Z.leb_le in E. lia.
  - destruct (Ascii.eqb a c); [right; lia|by left].
Qed.

Lemma rfind_app_last c a b :
  char_in c b = false →
  posixpath.rfind c (a +:+ String c b) = Z.of_nat (String.length a).
Proof.
  intros Hb. induction a as [|x a IH].
  - rewrite string_app_nil_l. cbn [posixpath.rfind String.length].
    rewrite (rfind_absent _ _ Hb). cbn. by rewrite Ascii.eqb_refl.
  - rewrite string_app_cons. cbn [posixpath.rfind String.length]. rewrite IH.
    replace (0 <=? Z.of_nat (String.length a)) with true
      by (symmetry; apply Z.leb_le; lia).
    lia.
Qed.

Lemma rfind_app_absent c a b :
  char_in c b = false →
  posixpath.rfind c (a +:+ b) = posixpath.rfind c a.
Proof.
  intros Hb. induction a as [|x a IH].
  - rewrite string_app_nil_l. by rewrite rfind_absent.
  - rewrite string_app_cons. cbn [posixpath.rfind]. by rewrite IH.
Qed.

Lemma rfind_lt_length c s : posixpath.rfind c s < Z.of_nat (String.length s).
Proof.
  induction s as [|a s IH]; [done|]. cbn [posixpath.rfind String.length].
  destruct (0 <=? posixpath.rfind c s); [lia|].
  destruct (Ascii.eqb a c); lia.
Qed.

Lemma char_in_app c a b : char_in c (a +:+ b) = char_in c a || char_in c b.
Proof.
  induction a as [|x a IH]; [by rewrite string_app_nil_l|].
  rewrite string_app_cons. cbn [char_in]. by rewrite IH, orb_assoc.
Qed.

Lemma get_app_length a c b :
  String.get (String.length a) (a +:+ String c b) = Some c.
Proof.
  induction a as [|x a IH]; [done|]. rewrite string_app_cons. apply IH.
Qed.

Lemma substring_app_length a b :
  String.substring (String.length a) (String.length (a +:+ b) - String.length a)
    (a +:+ b) = b
  ∧ String.substring 0 (String.length a) (a +:+ b) = a.
Proof.
  induction a as [|x a [IH1 IH2]].
  - rewrite string_app_nil_l, Nat.sub_0_r. split; [apply substring_all|].
    by destruct b.
  - rewrite string_app_cons. cbn [String.length String.substring Nat.sub].
    by rewrite IH1, IH2.
Qed.

(** X17.  Which paths get a loader.  A path that is accepted ends in
    the extension of its loader, after a non-empty stem; and a path made of
    a directory part (empty or ending in a slash), a non-empty name without
    slash or dot, and [.py] or [.json] is accepted with the matching
    loader. *)
Theorem loader_class_by_name (config_path : string) :
  (∀ cls, loader_class config_path = Return cls →
     ∃ stem, stem ≠ "" ∧ config_path = stem +:+ extension_of cls)
  ∧ (∀ dir name cls,
       config_path = dir +:+ name +:+ extension_of cls →
       dir = "" ∨ endswith_char dir posixpath.sep = true →
       name ≠ "" → char_in posixpath.sep name = false → char_in "." name = false →
       loader_class config_path = Return cls).
Proof.
  split.
  - intros cls. unfold loader_class.
    pose proof (splitext_join config_path) as Hj.
    destruct (posixpath.splitext config_path) as [stem extension] eqn:Hs.
    cbn [fst snd] in Hj. intros H.
    assert (extension = extension_of cls) as ->.
    { destruct (String.eqb extension ".py") eqn:E1.
      - apply String.eqb_eq in E1. by injection H as <-.
      - destruct (String.eqb extension ".json") eqn:E2; [|discriminate].
        apply String.eqb_eq in E2. by injection H as <-. }
    exists stem. split; [|done]. intros ->. rewrite string_app_nil_l in Hj.
    subst config_path. by destruct cls.
  - intros dir name cls -> Hdir Hname Hsep Hdot. unfold loader_class.
    assert (posixpath.splitext (dir +:+ name +:+ extension_of cls)
            = (dir +:+ name, extension_of cls)) as ->; [|by destruct cls].
    destruct name as [|n0 name]; [done|]. clear Hname.
    cbn [char_in] in Hsep, Hdot.
    apply orb_false_iff in Hsep as [Hn0s Hsep], Hdot as [Hn0d Hdot].
    set (ext := extension_of cls).
    assert (∃ e, ext = String "." e ∧ char_in posixpath.sep ext = false
                 ∧ char_in "." e = false) as (e & He & Hes & Hed)
      by (destruct cls; eexists; done).
    unfold posixpath.splitext.
    assert (posixpath.rfind "." (dir +:+ String n0 name +:+ ext)
            = Z.of_nat (String.length (dir +:+ String n0 name))) as Edot.
    { rewrite <- string_app_assoc, He. by apply rfind_app_last. }
    assert (posixpath.rfind posixpath.sep (dir +:+ String n0 name +:+ ext)
            < Z.of_nat (String.length dir)
            ∧ posixpath.rfind posixpath.sep (dir +:+ String n0 name +:+ ext) + 1
              = Z.of_nat (String.length dir)) as [Esep Esep'].
    { rewrite rfind_app_absent.
      2: { rewrite char_in_app, Hes. cbn [char_in]. by rewrite Hn0s, Hsep. }
      destruct Hdir as [->|Hdir]; [done|].
      clear -Hdir. induction dir as [|x dir IH]; [done|].
      cbn [endswith_char] in Hdir. cbn [posixpath.rfind String.length].
      destruct dir as [|y dir].
      - cbn in *. rewrite Hdir. done.
      - destruct (IH Hdir) as [IH1 IH2]. cbn [String.length] in IH1, IH2 |- *.
        replace (0 <=? posixpath.rfind posixpath.sep (String y dir)) with true
          by (symmetry; apply Z.leb_le; lia).
        lia. }
    rewrite Edot.
    assert (String.length (dir +:+ String n0 name)
            = (String.length dir + S (String.length name))%nat) as Elen.
    { clear. induction dir as [|x dir IH]; [done|].
      rewrite string_app_cons. cbn [String.length]. by rewrite IH. }
    replace (posixpath.rfind posixpath.sep (dir +:+ String n0 name +:+ ext)
             <? Z.of_nat (String.length (dir +:+ String n0 name))) with true
      by (symmetry; apply Z.ltb_lt; lia).
    rewrite Esep', Nat2Z.id.
    replace (Z.to_nat (Z.of_nat (String.length (dir +:+ String n0 name))
                       - Z.of_nat (String.length dir)))
      with (S (String.length name)) by lia.
    cbn [posixpath.has_non_dot].
    assert (String.get (String.length dir) (dir +:+ String n0 name +:+ ext) = Some n0)
      as -> by (rewrite string_app_cons; apply get_app_length).
    rewrite Ascii.eqb_sym in Hn0d. rewrite Ascii.eqb_sym, Hn0d. cbn [andb].
    rewrite <- string_app_assoc, !Nat2Z.id.
    by destruct (substring_app_length (dir +:+ String n0 name) ext) as [-> ->].
Qed.

Lemma loader_class_by_name_witness :
  loader_class "/etc/xmg.d/conf.json" = Return JSONFileConfigLoader.
Proof.
  apply (proj2 (loader_class_by_name "/etc/xmg.d/conf.json")
           "/etc/xmg.d/" "conf" JSONFileConfigLoader).
  - reflexivity.
  - right. reflexivity.
  - discriminate.
  - reflexivity.
  - reflexivity.
Defined.

(** ** The cli layer of a command line *)

Lemma dict_mem_elem {V} k (d : list (string * V)) :
  dict_mem k d = true ↔ k ∈ fmap fst d.
Proof.
  unfold dict_mem. destruct (dict_get k d) eqn:E.
  - split; [intros _|done]. destruct (decide (k ∈ d.*1)) as [|Hn]; [done|].
    apply dict_get_None in Hn. congruence.
  - apply dict_get_None in E. split; [done|]. intros H. by destruct E.
Qed.

Lemma parse_items_app lib parser items toks : ∀ ns extras,
  (∀ key, dict_mem key (registry lib) = true →
     argparse.find_action ("--" +:+ key) parser ≫= argparse.action_of
     = Some (argparse.Store (dest_of lib key) false)) →
  (∀ f, argparse.find_action (long_switch f) parser ≫= argparse.action_of
        = Some (argparse.AppendConst "_flags" (shortcut_cfg f))) →
  Forall (item_ok lib) items →
  argparse.parse_fragment parser (argv_of items ++ toks) ns extras
  = argparse.parse_fragment parser toks (fold_left (apply_item lib) items ns) extras.
Proof.
  intros ns extras Hopt Hflag Hok. revert ns.
  induction Hok as [|it items Hit _ IH]; intros ns; [done|].
  unfold argv_of. rewrite fmap_cons. cbn [concat fold_left]. rewrite <- app_assoc.
  destruct it as [key v|f]; cbn [tokens app apply_item].
  - destruct Hit as [Hk Hv]. cbn [argparse.parse_fragment].
    replace (startswith ("--" +:+ key) "-") with true by reflexivity.
    specialize (Hopt key Hk).
    destruct (argparse.find_action ("--" +:+ key) parser) as [a|]; [|done].
    cbn [mbind option_bind] in *. rewrite Hopt, Hv. apply IH.
  - cbn [argparse.parse_fragment].
    replace (startswith (long_switch f) "-") with true by by destruct f.
    specialize (Hflag f).
    destruct (argparse.find_action (long_switch f) parser) as [a|]; [|done].
    cbn [mbind option_bind] in *. rewrite Hflag. apply IH.
Qed.

Lemma parse_items lib parser items ns extras :
  (∀ key, dict_mem key (registry lib) = true →
     argparse.find_action ("--" +:+ key) parser ≫= argparse.action_of
     = Some (argparse.Store (dest_of lib key) false)) →
  (∀ f, argparse.find_action (long_switch f) parser ≫= argparse.action_of
        = Some (argparse.AppendConst "_flags" (shortcut_cfg f))) →
  Forall (item_ok lib) items →
  argparse.parse_fragment parser (argv_of items) ns extras
  = Some (Parsed (fold_left (apply_item lib) items ns) extras).
Proof.
  intros Hopt Hflag Hok.
  rewrite <- (app_nil_r (argv_of items)).
  by rewrite (parse_items_app lib parser items [] ns extras Hopt Hflag Hok).
Qed.

Lemma namespace_dest lib items : ∀ ns T,
  T ≠ "_flags" →
  dict_get T (fold_left (apply_item lib) items ns)
  = match given lib T items with
    | Some v => Some (NStr v)
    | None => dict_get T ns
    end.
Proof.
  induction items as [|it items IH]; intros ns T HT; [done|].
  cbn [fold_left given]. rewrite IH by done.
  destruct it as [key v|f]; cbn [apply_item].
  - destruct (given lib T items); [done|].
    destruct (String.eqb (dest_of lib key) T) eqn:E.
    + apply String.eqb_eq in E as ->. apply dict_get_set_eq.
    + apply String.eqb_neq in E. by rewrite dict_get_set_ne.
  - destruct (given lib T items); [done|].
    unfold argparse.append_const.
    destruct (dict_get "_flags" ns) as [[]|]; by rewrite dict_get_set_ne.
Qed.

Lemma namespace_flags lib items : ∀ ns l,
  Forall (λ it, match it with Opt key _ => dest_of lib key ≠ "_flags" | _ => True end)
    items →
  (dict_get "_flags" ns = None ∧ l = []) ∨ dict_get "_flags" ns = Some (NConsts l) →
  dict_get "_flags" (fold_left (apply_item lib) items ns)
  = match shortcuts_of items with
    | [] => dict_get "_flags" ns
    | fs => Some (NConsts (l ++ map shortcut_cfg fs))
    end.
Proof.
  induction items as [|it items IH]; intros ns l Hok Hns; [done|].
  apply Forall_cons in Hok as [Hit Hok]. cbn [fold_left].
  destruct it as [key v|f]; cbn [apply_item].
  - change (shortcuts_of (Opt key v :: items)) with (shortcuts_of items).
    assert ("_flags" ≠ dest_of lib key) as Hne by (intros E; by apply Hit).
    rewrite (IH _ l); [|done|].
    2: { rewrite dict_get_set_ne by exact Hne. exact Hns. }
    by rewrite dict_get_set_ne by exact Hne.
  - change (shortcuts_of (Flag f :: items)) with (f :: shortcuts_of items).
    rewrite (IH _ (l ++ [shortcut_cfg f])); [|done|].
    + destruct (shortcuts_of items) as [|g fs].
      * unfold argparse.append_const.
        destruct Hns as [[-> ->]| ->]; cbn beta iota; by rewrite dict_get_set_eq.
      * by rewrite <- app_assoc.
    + right. unfold argparse.append_const.
      destruct Hns as [[-> ->]| ->]; cbn beta iota; by rewrite dict_get_set_eq.
Qed.

Lemma dict_set_Forall {V} (P : string * V → Prop) k v d :
  Forall P d → P (k, v) → Forall P (dict_set k v d).
Proof.
  intros Hd Hkv. induction Hd as [|[k' v'] d Hx Hd IH]; cbn [dict_set].
  - by constructor.
  - destruct (String.eqb k k'); by constructor.
Qed.

Lemma namespace_shape lib (Q P : string → Prop) items : ∀ ns,
  Forall (λ it, match it with
                | Opt key v => Q (dest_of lib key) ∧ P v
                | _ => True
                end) items →
  NoDup (fmap fst ns) →
  Forall (λ kv : string * nsval,
            kv.1 = "_flags" ∨ (∃ rhs, kv.2 = NStr rhs ∧ P rhs) ∧ Q kv.1) ns →
  NoDup (fmap fst (fold_left (apply_item lib) items ns))
  ∧ Forall (λ kv : string * nsval,
              kv.1 = "_flags" ∨ (∃ rhs, kv.2 = NStr rhs ∧ P rhs) ∧ Q kv.1)
      (fold_left (apply_item lib) items ns).
Proof.
  induction items as [|it items IH]; intros ns Hok Hnd Hns; [done|].
  apply Forall_cons in Hok as [Hit Hok]. cbn [fold_left]. apply IH; [done| |].
  - destruct it as [key v|f]; cbn [apply_item]; [by apply dict_set_NoDup|].
    unfold argparse.append_const.
    destruct (dict_get "_flags" ns) as [[]|]; by apply dict_set_NoDup.
  - destruct it as [key v|f]; cbn [apply_item].
    + destruct Hit as [Hq Hp]. apply dict_set_Forall; [done|]. right.
      split; [by exists v|done].
    + unfold argparse.append_const.
      destruct (dict_get "_flags" ns) as [[]|]; apply dict_set_Forall; try done;
        by left.
Qed.

(** ['.'.join] undoes the split of a two-part name. *)
Lemma split_dots_nonempty s : KVArgParseConfigLoader.split_dots s ≠ [].
Proof.
  destruct s as [|c s]; [done|]. cbn [KVArgParseConfigLoader.split_dots].
  destruct (Ascii.eqb c "."); [done|].
  by destruct (KVArgParseConfigLoader.split_dots s).
Qed.

Lemma split_dots_one s : ∀ name,
  KVArgParseConfigLoader.split_dots s = [name] → s = name.
Proof.
  induction s as [|c s IH]; intros name.
  - by intros [= <-].
  - cbn [KVArgParseConfigLoader.split_dots].
    destruct (Ascii.eqb c ".").
    + intros [= _ Hs]. by apply split_dots_nonempty in Hs.
    + destruct (KVArgParseConfigLoader.split_dots s) as [|h t] eqn:Hs;
        [by apply split_dots_nonempty in Hs|].
      intros [= <- ->]. f_equal. by apply IH.
Qed.

Lemma split_dots_two s : ∀ sec name,
  KVArgParseConfigLoader.split_dots s = [sec; name] → s = sec +:+ "." +:+ name.
Proof.
  induction s as [|c s IH]; intros sec name; [done|].
  cbn [KVArgParseConfigLoader.split_dots].
  destruct (Ascii.eqb c ".") eqn:E.
  - apply Ascii.eqb_eq in E as ->. intros [= <- Hs].
    rewrite string_app_nil_l, string_app_cons, string_app_nil_l.
    f_equal. by apply split_dots_one.
  - destruct (KVArgParseConfigLoader.split_dots s) as [|h t] eqn:Hs;
      [by apply split_dots_nonempty in Hs|].
    intros [= <- ->]. rewrite string_app_cons. f_equal. by apply IH.
Qed.

Lemma section_update (c0 c d : gmap string pyval) sec name value :
  (∀ s, s ≠ sec → c0 !! s = c !! s) →
  (∀ k, d !! k = field sec k c) →
  sections_only c →
  sections_only (<[sec := VConfig (<[name := value]> d)]> c0)
  ∧ (∀ s, is_Some (<[sec := VConfig (<[name := value]> d)]> c0 !! s) →
          s = sec ∨ is_Some (c !! s))
  ∧ ∀ s k, field s k (<[sec := VConfig (<[name := value]> d)]> c0)
           = if decide (s = sec ∧ k = name) then Some value else field s k c.
Proof.
  intros Hc0 Hd Hc. split; [|split].
  - intros s. destruct (decide (s = sec)) as [->|Hne].
    + right. rewrite lookup_insert_eq. eauto.
    + rewrite lookup_insert_ne, Hc0 by done. apply Hc.
  - intros s. destruct (decide (s = sec)) as [->|Hne]; [by left|].
    rewrite lookup_insert_ne, Hc0 by done. by right.
  - intros s k. destruct (decide (s = sec)) as [->|Hne].
    + unfold field at 1. rewrite lookup_insert_eq.
      destruct (decide (k = name)) as [->|Hk].
      * rewrite lookup_insert_eq. by rewrite decide_True.
      * rewrite lookup_insert_ne by done. rewrite decide_False by tauto. apply Hd.
    + unfold field. rewrite lookup_insert_ne, Hc0 by done.
      by rewrite decide_False by tauto.
Qed.

Lemma exec_config_str_get os lib lhs sec name rhs value c :
  KVArgParseConfigLoader.split_dots lhs = [sec; name] →
  Config._is_section_key sec = true →
  Config._is_section_key name = false →
  KVArgParseConfigLoader.rhs_value os lib rhs = Return value →
  sections_only c →
  ∃ c', KVArgParseConfigLoader._exec_config_str os lib lhs rhs c = Return c'
        ∧ sections_only c'
        ∧ (∀ s, is_Some (c' !! s) → s = sec ∨ is_Some (c !! s))
        ∧ ∀ s k, field s k c'
                 = if decide (s = sec ∧ k = name) then Some value
                   else field s k c.
Proof.
  intros Hsplit Hsec Hname Hvalue Hc.
  unfold KVArgParseConfigLoader._exec_config_str. rewrite Hsplit, Hvalue.
  cbn [mbind result_bind].
  cbn [KVArgParseConfigLoader.set_path]. unfold Config.getitem, Config.setitem.
  rewrite Hsec, Hname. cbn [andb].
  destruct (Hc sec) as [Hnone | [d Hd]]; [rewrite Hnone | rewrite Hd];
    cbn [mbind result_bind]; eexists; (split; [reflexivity|]);
    apply section_update; try done.
  - intros s Hs. by rewrite lookup_insert_ne.
  - intros k. unfold field. by rewrite Hnone, lookup_empty.
  - intros k. unfold field. by rewrite Hd.
Qed.

Lemma split_dots_plain s :
  Forall (λ x, char_in "." x = false) (KVArgParseConfigLoader.split_dots s).
Proof.
  induction s as [|c s IH]; [by repeat constructor|].
  cbn [KVArgParseConfigLoader.split_dots]. destruct (Ascii.eqb c ".") eqn:E.
  - by constructor.
  - destruct (KVArgParseConfigLoader.split_dots s) as [|h t];
      [by repeat constructor; cbn; rewrite E|].
    apply Forall_cons in IH as [Hh Ht]. constructor; [|done].
    cbn [char_in]. by rewrite E, Hh.
Qed.

Lemma rhs_value_plain os lib rhs v :
  literals_plain lib →
  KVArgParseConfigLoader.rhs_value os lib rhs = Return v → is_config v = false.
Proof.
  intros Hlib. unfold KVArgParseConfigLoader.rhs_value, ast.literal_eval.
  repeat (destruct (String.eqb _ _); [by intros [= <-]|]).
  destruct (ast.name_like _); [by intros [= <-]|].
  destruct (ast.decimal _); [by intros [= <-]|].
  destruct (literal_eval_rest lib _) as [x| |e] eqn:E; [|by intros [= <-]|done].
  intros [= <-]. by eapply Hlib.
Qed.

Lemma convert_values_get os lib alias_flags ns : ∀ subcs c,
  NoDup (fmap fst ns) →
  Forall (λ kv : string * nsval,
            ∃ sec name rhs, kv.2 = NStr rhs
              ∧ KVArgParseConfigLoader.split_dots kv.1 = [sec; name]
              ∧ Config._is_section_key sec = true
              ∧ Config._is_section_key name = false
              ∧ is_Return (KVArgParseConfigLoader.rhs_value os lib rhs) = true) ns →
  sections_only c →
  ∃ c', KVArgParseConfigLoader.convert_values os lib alias_flags ns subcs c
        = Return (subcs, c')
        ∧ sections_only c'
        ∧ (plain_keys c → plain_keys c')
        ∧ (literals_plain lib → plain_fields c → plain_fields c')
        ∧ ∀ T sec name, KVArgParseConfigLoader.split_dots T = [sec; name] →
            Return (field sec name c')
            = match dict_get T ns with
              | Some (NStr rhs) => Some <$> KVArgParseConfigLoader.rhs_value os lib rhs
              | _ => Return (field sec name c)
              end.
Proof.
  induction ns as [|[k v] ns IH]; intros subcs c Hnd Hns Hc.
  - exists c. do 4 (split; [done|]). done.
  - apply Forall_cons in Hns
      as [(sec & name & rhs & Hv & Hsplit & Hsec & Hname & Hval) Hns].
    cbn [fst snd] in Hv, Hsplit. subst v.
    rewrite fmap_cons in Hnd. apply NoDup_cons in Hnd as [Hk Hnd]. cbn [fst] in Hk.
    cbn [KVArgParseConfigLoader.convert_values].
    destruct (KVArgParseConfigLoader.rhs_value os lib rhs) as [value|e] eqn:Hvalue;
      [|discriminate Hval].
    destruct (exec_config_str_get os lib k sec name rhs value c
                Hsplit Hsec Hname Hvalue Hc) as (c1 & -> & Hc1 & Hk1 & Hf1).
    cbn [mbind result_bind].
    destruct (IH subcs c1 Hnd Hns Hc1) as (c' & -> & Hc' & Hpk & Hpf & Hf').
    pose proof (split_dots_plain k) as Hplain. rewrite Hsplit in Hplain.
    apply Forall_cons in Hplain as [Hpsec Hplain].
    apply Forall_cons in Hplain as [Hpname _].
    exists c'. split; [done|]. split; [done|]. split; [|split].
    { intros Hpc. apply Hpk. intros s [-> | Hs]%Hk1; [done | by apply Hpc]. }
    { intros Hlib Hpc. apply Hpf; [done|]. intros s x w. rewrite Hf1.
      case_decide as Hd; [|apply Hpc]. destruct Hd as [-> ->]. intros [= <-].
      split; [done|]. by eapply rhs_value_plain. }
    intros T sec' name' HT. rewrite (Hf' T sec' name' HT). cbn [dict_get].
    destruct (String.eqb T k) eqn:E.
    + apply String.eqb_eq in E as ->.
      apply dict_get_None in Hk. rewrite Hk, Hf1, Hvalue.
      rewrite Hsplit in HT. injection HT as <- <-. by rewrite decide_True.
    + apply String.eqb_neq in E.
      destruct (dict_get T ns) as [[]|]; try done; rewrite Hf1;
        (rewrite decide_False; [done|]); intros [-> ->]; apply E;
        by rewrite (split_dots_two _ _ _ HT), (split_dots_two _ _ _ Hsplit).
Qed.

Lemma load_flags_shortcuts_fields fs : ∀ c d,
  c !! "LogConfig" = Some (VConfig d) →
  ∃ c', KVArgParseConfigLoader.load_flags (map shortcut_cfg fs) c = Return c'
        ∧ (sections_only c → sections_only c')
        ∧ (∀ s, is_Some (c' !! s) → is_Some (c !! s))
        ∧ ∀ s k, field s k c'
                 = match (if bool_decide (s = "LogConfig" ∧ k = "stream_log_level")
                          then last fs else None) with
                   | Some f => Some (VStr (level f))
                   | None => field s k c
                   end.
Proof.
  induction fs as [|f fs IH]; intros c d Hc.
  - exists c. split; [done|]. split; [done|]. split; [done|].
    intros s k. by case_bool_decide.
  - cbn [map KVArgParseConfigLoader.load_flags shortcut_cfg
         KVArgParseConfigLoader._load_flag].
    rewrite (getitem_present _ _ _ Hc). cbn [mbind result_bind].
    change (list_to_map [("stream_log_level", VStr (level f))])
      with (<["stream_log_level" := VStr (level f)]> (∅ : gmap string pyval)).
    set (d1 := <["stream_log_level" := VStr (level f)]> ∅ ∪ d).
    destruct (IH (<["LogConfig" := VConfig d1]> c) d1) as (c' & Hl & Hs' & Hk' & Hf);
      [apply lookup_insert_eq|].
    exists c'. split; [exact Hl|]. split; [|split].
    { intros Hso. apply Hs'. intros s. destruct (decide (s = "LogConfig")) as [->|Hne].
      - right. rewrite lookup_insert_eq. eauto.
      - rewrite lookup_insert_ne by done. apply Hso. }
    { intros s Hs%Hk'. destruct (decide (s = "LogConfig")) as [->|Hne]; [eauto|].
      by rewrite lookup_insert_ne in Hs. }
    intros s k. rewrite Hf, last_cons.
    unfold field. case_bool_decide as Hsk.
    + destruct Hsk as [-> ->]. destruct (last fs); [done|].
      rewrite lookup_insert_eq. unfold d1.
      erewrite lookup_union_Some_l; [done|]. by rewrite lookup_insert_eq.
    + destruct (decide (s = "LogConfig")) as [->|Hs].
      * rewrite lookup_insert_eq, Hc. unfold d1.
        rewrite lookup_union_r; [done|].
        rewrite lookup_insert_ne by (intros <-; tauto). apply lookup_empty.
      * by rewrite lookup_insert_ne.
Qed.

Lemma filter_flags_get T (ns : list (string * nsval)) :
  T ≠ "_flags" →
  dict_get T (filter (λ kv : string * nsval, kv.1 ≠ "_flags") ns) = dict_get T ns.
Proof.
  intros HT. induction ns as [|[k v] ns IH]; [done|].
  destruct (decide (k = "_flags")) as [->|Hk].
  - rewrite filter_cons_False by (cbn; tauto). cbn [dict_get].
    apply String.eqb_neq in HT. by rewrite HT.
  - rewrite filter_cons_True by done. cbn [dict_get]. by rewrite IH.
Qed.

Lemma filter_flags_NoDup (ns : list (string * nsval)) :
  NoDup (fmap fst ns) →
  NoDup (fmap fst (filter (λ kv : string * nsval, kv.1 ≠ "_flags") ns)).
Proof.
  induction ns as [|[k v] ns IH]; [done|]. rewrite fmap_cons.
  intros [Hk Hnd]%NoDup_cons.
  destruct (decide (k = "_flags")) as [->|Hne].
  - rewrite filter_cons_False by (cbn; tauto). by apply IH.
  - rewrite filter_cons_True by done. rewrite fmap_cons. apply NoDup_cons.
    split; [|by apply IH]. cbn [fst] in *. intros Hin. apply Hk.
    apply list_elem_of_fmap in Hin as (x & -> & Hx).
    apply list_elem_of_filter in Hx as [_ Hx]. apply list_elem_of_fmap. eauto.
Qed.

Lemma two_level_not_flags T : two_level T → T ≠ "_flags".
Proof. intros (sec & name & H & _) ->. discriminate H. Qed.

Lemma filter_flags_shape (P : string → Prop) (ns : list (string * nsval)) :
  Forall (λ kv : string * nsval,
            kv.1 = "_flags" ∨ (∃ rhs, kv.2 = NStr rhs ∧ P rhs) ∧ two_level kv.1) ns →
  Forall (λ kv : string * nsval,
            ∃ sec name rhs, kv.2 = NStr rhs
              ∧ KVArgParseConfigLoader.split_dots kv.1 = [sec; name]
              ∧ Config._is_section_key sec = true
              ∧ Config._is_section_key name = false
              ∧ P rhs)
    (filter (λ kv : string * nsval, kv.1 ≠ "_flags") ns).
Proof.
  intros H. apply Forall_forall. intros kv [Hne Hin]%list_elem_of_filter.
  rewrite Forall_forall in H.
  destruct (H kv Hin) as [?|[(rhs & Hv & Hp) (sec & name & Hs & Hsec & Hname)]];
    [done|]. by exists sec, name, rhs.
Qed.

(** The parser of [get_argparse_loader] and the traits it serves. *)
Lemma cli_table lib :
  ∃ ld parser,
    get_argparse_loader lib = Return ld
    ∧ RichKVArgParseConfigLoader._add_arguments ld argparse.new_parser
      = Return ([], parser)
    ∧ forallb (λ a, bool_decide (is_Some (argparse.action_of a))) parser = true
    ∧ (∀ f, argparse.find_action (long_switch f) parser ≫= argparse.action_of
            = Some (argparse.AppendConst "_flags" (shortcut_cfg f)))
    ∧ Forall (λ key,
                argparse.find_action ("--" +:+ key) parser ≫= argparse.action_of
                = Some (argparse.Store (dest_of lib key) false)
                ∧ two_level (dest_of lib key))
        (fmap fst (registry lib))
    ∧ (∀ h, h = "-h" ∨ h = "--help" →
            argparse.find_action h parser ≫= argparse.action_of = Some argparse.Help)
    ∧ NoDup (fmap fst (argparse.defaults parser []))
    ∧ Forall (λ kv : string * nsval, (∃ rhs, kv.2 = NStr rhs) ∧ two_level kv.1)
        (argparse.defaults parser [])
    ∧ argparse.defaults parser []
      = [("LogConfig.file_log_level", NStr "DEBUG");
         ("LogConfig.log_path", NStr (PKG_NAME lib +:+ ".log"));
         ("LogConfig.stream_log_level", NStr "WARNING");
         ("BaseConfig.contact_limit", NStr "0");
         ("BaseConfig.dump_path", NStr "contacts.csv")]
    ∧ Forall (λ cls,
                Forall (λ m : string * trait,
                          KVArgParseConfigLoader.split_dots
                            (__name__ cls +:+ "." +:+ m.1)
                          = [__name__ cls; m.1]
                          ∧ dict_get (__name__ cls +:+ "." +:+ m.1)
                              (argparse.defaults parser [])
                            = if is_empty_str (default_value m.2) then None
                              else Some (NStr (pystr lib (default_value m.2))))
                  (traits cls))
        (config_classes lib).
Proof.
  destruct lib as [pkg descr le io ar kv fl nf tp pr]. destruct pkg as [|a pkg].
  all: do 2 eexists.
  all: (split; [vm_compute; reflexivity|]).
  all: split; [vm_compute; reflexivity|].
  all: split; [vm_compute; reflexivity|].
  all: split; [intros []; vm_compute; reflexivity|].
  all: split;
    [match goal with |- Forall _ ?l =>
       let l' := eval vm_compute in l in change l with l' end;
     repeat (apply Forall_cons; split; [split; [vm_compute; reflexivity|];
               eexists _, _; split; [vm_compute; reflexivity|split; reflexivity]|]);
     apply Forall_nil_2|].
  all: split; [intros h [-> | ->]; vm_compute; reflexivity|].
  all: split; [apply (@bool_decide_unpack _ (NoDup_dec _)); vm_compute; exact I|].
  all: split;
    [match goal with |- Forall _ ?l =>
       let l' := eval vm_compute in l in change l with l' end;
     repeat (apply Forall_cons; split; [split; [eexists; reflexivity|];
               eexists _, _; split; [vm_compute; reflexivity|split; reflexivity]|]);
     apply Forall_nil_2|].
  all: split; [vm_compute; reflexivity|].
  all: repeat (apply Forall_cons; split;
               [repeat (apply Forall_cons; split;
                        [split; vm_compute; reflexivity|]); apply Forall_nil_2|]);
       apply Forall_nil_2.
Qed.

Lemma parse_cli_fields (os : os_state) (lib : library) (items : list cli_item) :
  ast.name_like (PKG_NAME lib) = true →
  Forall (item_ok lib) items → Forall (item_evaluates os lib) items →
  ∃ cli_config,
    parse_cli os lib (argv_of items) = Return cli_config
    ∧ sections_only cli_config
    ∧ plain_keys cli_config
    ∧ (literals_plain lib → plain_fields cli_config)
    ∧ ∀ cls name t, cls ∈ config_classes lib → (name, t) ∈ traits cls →
        Return (field (__name__ cls) name cli_config)
        = cli_value os lib items cls name t.
Proof.
  intros Hpkg Hok Hev.
  destruct (cli_table lib)
    as (ld & parser & Hld & Hargs & Hacts & Hflag & Hkeys & _ & Hdnd & Hdshape
        & Hdefaults & Hdecl).
  rewrite Forall_forall in Hkeys.
  assert (∀ key, dict_mem key (registry lib) = true →
            argparse.find_action ("--" +:+ key) parser ≫= argparse.action_of
            = Some (argparse.Store (dest_of lib key) false)) as Hopt.
  { intros key Hk. apply Hkeys. by apply dict_mem_elem. }
  set (P := λ rhs, is_Return (KVArgParseConfigLoader.rhs_value os lib rhs) = true).
  assert (Forall (λ it, match it with
                        | Opt key v => two_level (dest_of lib key) ∧ P v
                        | _ => True
                        end) items) as Hdest.
  { rewrite Forall_forall in Hok, Hev. apply Forall_forall.
    intros [key v|f] Hin; [|done]. split; [|exact (Hev _ Hin)].
    destruct (Hok _ Hin) as [Hk _]. apply Hkeys. by apply dict_mem_elem. }
  unfold parse_cli, RichKVArgParseConfigLoader.load_config.
  rewrite Hld. cbn [mbind result_bind]. rewrite Hargs. cbn [mbind result_bind].
  unfold argparse.parse_known_args. rewrite Hacts.
  rewrite (parse_items lib parser items _ _ Hopt Hflag Hok).
  set (ns := fold_left (apply_item lib) items (argparse.defaults parser [])).
  assert (dict_get "_flags" (argparse.defaults parser []) = None) as Hnoflags.
  { apply dict_get_None. intros Hin. apply list_elem_of_fmap in Hin as (kv & Hkv & Hin).
    rewrite Forall_forall in Hdshape. destruct (Hdshape kv Hin) as [_ Htl].
    exact (two_level_not_flags _ Htl (eq_sym Hkv)). }
  assert (Forall (λ kv : string * nsval, ∀ rhs, kv.2 = NStr rhs → P rhs)
            (argparse.defaults parser [])) as Hdeval.
  { rewrite Hdefaults.
    repeat first [apply Forall_cons_2 | apply Forall_nil_2];
      cbn [snd]; intros rhs [= <-]; unfold P; try reflexivity.
    by rewrite rhs_value_log_path. }
  destruct (namespace_shape lib two_level P items (argparse.defaults parser [])
              Hdest Hdnd) as [Hnd Hshape].
  { rewrite Forall_forall in Hdshape, Hdeval. apply Forall_forall. intros kv Hin.
    destruct (Hdshape kv Hin) as [[rhs Hrhs] Htl]. right.
    split; [|exact Htl]. exists rhs. split; [exact Hrhs|]. by apply (Hdeval kv). }
  fold ns in Hnd, Hshape.
  unfold KVArgParseConfigLoader._convert_to_config.
  assert (match dict_get "_flags" ns with
          | Some (NConsts l) => Return l
          | Some _ => Raise TypeError
          | None => Return []
          end = Return (map shortcut_cfg (shortcuts_of items))) as ->.
  { unfold ns. rewrite (namespace_flags lib items _ []).
    - rewrite Hnoflags. by destruct (shortcuts_of items).
    - eapply Forall_impl; [exact Hdest|]. intros [key v|f]; [|done].
      intros [Htl _]. by apply two_level_not_flags.
    - left. split; [exact Hnoflags|reflexivity]. }
  cbn [mbind result_bind].
  destruct (convert_values_get os lib []
              (filter (λ kv : string * nsval, kv.1 ≠ "_flags") ns)
              (map shortcut_cfg (shortcuts_of items)) ∅)
    as (c & -> & Hc & Hpk & Hpf & Hfc).
  { by apply filter_flags_NoDup. }
  { by apply (filter_flags_shape P). }
  { intros s. left. apply lookup_empty. }
  cbn [mbind result_bind].
  assert (∀ cls name t, cls ∈ config_classes lib → (name, t) ∈ traits cls →
            Return (field (__name__ cls) name c)
            = match cli_text lib items cls name t with
              | Some rhs => Some <$> KVArgParseConfigLoader.rhs_value os lib rhs
              | None => Return None
              end) as Hfield.
  { intros cls name t Hcls Ht.
    rewrite Forall_forall in Hdecl. specialize (Hdecl cls Hcls).
    rewrite Forall_forall in Hdecl. destruct (Hdecl (name, t) Ht) as [Hsplit Hdef].
    cbn [fst snd] in Hsplit, Hdef.
    rewrite (Hfc _ _ _ Hsplit).
    rewrite filter_flags_get by (intros E; by rewrite E in Hsplit).
    unfold ns. rewrite namespace_dest by (intros E; by rewrite E in Hsplit).
    unfold cli_text.
    destruct (given lib (__name__ cls +:+ "." +:+ name) items); [done|].
    rewrite Hdef. destruct (is_empty_str (default_value t)); [|done].
    unfold field. by rewrite lookup_empty. }
  assert (∃ d, c !! "LogConfig" = Some (VConfig d)) as [d Hd].
  { assert (is_Some (field "LogConfig" "file_log_level" c)) as [v Hv].
    { assert (LogConfig lib ∈ config_classes lib) as Hin1
        by (unfold config_classes; apply list_elem_of_further, list_elem_of_here).
      pose proof (Hfield (LogConfig lib) "file_log_level"
                    (Unicode "DEBUG" None [("metavar", KStr "LEVEL"); ("help", KSuppress)])
                    Hin1 (list_elem_of_further _ _ _ (list_elem_of_here _ _)))
        as Hx.
      change (__name__ (LogConfig lib)) with "LogConfig" in Hx.
      assert (∃ rhs, cli_text lib items (LogConfig lib) "file_log_level"
                       (Unicode "DEBUG" None [("metavar", KStr "LEVEL"); ("help", KSuppress)])
                     = Some rhs) as [rhs Hrhs].
      { unfold cli_text. destruct (given lib _ items); eauto. }
      rewrite Hrhs in Hx.
      destruct (KVArgParseConfigLoader.rhs_value os lib rhs) as [x|e];
        [|discriminate Hx].
      injection Hx as Hx. eauto. }
    unfold field in Hv. destruct (c !! "LogConfig") as [[]|]; try discriminate Hv.
    eauto. }
  destruct (load_flags_shortcuts_fields (shortcuts_of items) c d Hd)
    as (c' & -> & Hc' & Hk' & Hf').
  cbn [mbind result_bind]. exists c'. split; [done|]. split; [by apply Hc'|].
  split; [|split].
  { intros s Hs%Hk'. revert s Hs. apply Hpk. by intros s [? ?]. }
  { intros Hlib s k w. rewrite Hf'.
    destruct (if bool_decide (s = "LogConfig" ∧ k = "stream_log_level")
              then last (shortcuts_of items) else None) eqn:E.
    - intros [= <-]. case_bool_decide as Hsk; [|discriminate E].
      by destruct Hsk as [_ ->].
    - apply Hpf; [done|]. by intros ? ? ?. }
  intros cls name t Hcls Ht. rewrite Hf'. unfold cli_value.
  destruct (if bool_decide (__name__ cls = "LogConfig" ∧ name = "stream_log_level")
            then last (shortcuts_of items) else None); [done|].
  by apply Hfield.
Qed.




Example cli_value_examples :
  cli_value example_os example_lib
    [Opt "verbosity" "DEBUG"; Flag quiet; Opt "verbosity" "INFO"]
    (LogConfig example_lib) "stream_log_level"
    (Unicode "WARNING" (Some "verbosity") [])
  = Return (Some (VStr "ERROR"))
  ∧ cli_value example_os example_lib [Opt "verbosity" "DEBUG"; Opt "verbosity" "INFO"]
      (LogConfig example_lib) "stream_log_level"
      (Unicode "WARNING" (Some "verbosity") [])
    = Return (Some (VStr "INFO"))
  ∧ cli_value example_os example_lib [Opt "data-dir" "~/data"]
      BaseConfig "data_dir" (Unicode "" None [])
    = Return (Some (VStr "/home/user/data"))
  ∧ cli_value example_os example_lib [Opt "contact-limit" "25"]
      BaseConfig "contact_limit" (Integer None [])
    = Return (Some (VInt 25))
  ∧ cli_value example_os example_lib [] BaseConfig "contact_limit" (Integer None [])
    = Return (Some (VInt 0))
  ∧ cli_value example_os example_lib [] BaseConfig "config_path" (Unicode "" None [])
    = Return None.
Proof. repeat split; reflexivity. Qed.

(** A float on the command line, and a value on which [literal_eval]
    raises an exception that [_exec_config_str] does not catch. *)
Example parse_cli_literals :
  field "BaseConfig" "contact_limit"
  <$> parse_cli example_os literal_lib ["--contact-limit"; "1.5"]
  = Return (Some (VFloat 1.5))
  ∧ parse_cli example_os literal_lib ["--log-dir"; "{[1]:2}"] = Raise TypeError
  ∧ load_config example_os literal_lib ["--log-dir"; "{[1]:2}"] ∅ = Raise TypeError.
Proof. repeat split; vm_compute; reflexivity. Qed.

(** The fields of the cli layer reach the final configuration. *)
Lemma load_config_cli_fields os lib argv proto final :
  load_config os lib argv proto = Return final →
  ∃ parsed, parse_cli os lib argv = Return parsed
            ∧ ∀ s k v, field s k parsed = Some v → is_config v = false →
                       field s k final = Some v.
Proof.
  unfold load_config. intros H.
  apply bind_Return in H as ([cli config] & Hbefore & H).
  unfold load_config_from_file in H.
  apply bind_Return in H as ([file config'] & Hfile & H).
  apply bind_Return in H as (config1 & Hmerge1 & H).
  apply bind_Return in H as (config2 & Hmerge2 & H).
  destruct (load_config_before_file_spec _ _ _ _ _ _ Hbefore) as [(parsed & Hp & Hf) _].
  exists parsed. split; [done|]. intros s k v Hv Hleaf.
  assert (field s k final = field s k config2) as ->.
  { rewrite <- (validate_config_field config2 s k).
    destruct (validate_config config2) as [[[]|[]] c]; try discriminate H.
    by injection H as <-. }
  eapply merge_source_field_set; [exact Hmerge2| |done]. by rewrite Hf.
Qed.

(** X19.  What the command line sets or defaults is final.  On a command
    line as in X18, the value the cli layer holds for a trait, be it the
    value of a given text or of the default of the trait, is the value of
    the returned configuration, whatever the proto and the file layers
    hold. *)
Theorem load_config_cli_value
    (os : os_state) (lib : library) (items : list cli_item)
    (proto_config final : gmap string pyval)
    (cls : configurable) (name : string) (t : trait) (v : pyval) :
  ast.name_like (PKG_NAME lib) = true →
  Forall (item_ok lib) items → Forall (item_evaluates os lib) items →
  load_config os lib (argv_of items) proto_config = Return final →
  cls ∈ config_classes lib → (name, t) ∈ traits cls →
  cli_value os lib items cls name t = Return (Some v) → is_config v = false →
  field (__name__ cls) name final = Some v.
Proof.
  intros Hpkg Hok Hev Hload Hcls Ht Hv Hleaf.
  destruct (parse_cli_fields os lib items Hpkg Hok Hev)
    as (cli & Hcli & _ & _ & _ & Hfields).
  destruct (load_config_cli_fields _ _ _ _ _ Hload) as (parsed & Hp & Hfinal).
  rewrite Hcli in Hp. injection Hp as <-.
  apply Hfinal; [|done].
  pose proof (Hfields cls name t Hcls Ht) as Hf. rewrite Hv in Hf.
  by injection Hf.
Qed.

Lemma load_config_cli_value_witness :
  ∃ final,
    load_config example_os example_lib
      (argv_of [Opt "xero-consumer-key" "abc"; Opt "xero-key-path" "key.pem";
                Opt "data-dir" "~/data"])
      {[ "BaseConfig" := VConfig {[ "data_dir" := VStr "/proto" ]} ]}
    = Return final
    ∧ field "BaseConfig" "data_dir" final = Some (VStr "/home/user/data").
Proof.
  pose (r := load_config example_os example_lib
               (argv_of [Opt "xero-consumer-key" "abc"; Opt "xero-key-path" "key.pem";
                         Opt "data-dir" "~/data"])
               {[ "BaseConfig" := VConfig {[ "data_dir" := VStr "/proto" ]} ]}).
  assert (r = Return (returned ∅ r)) as Hr
    by (apply returned_eq; vm_compute; reflexivity).
  exists (returned ∅ r). split; [exact Hr|].
  apply (load_config_cli_value example_os example_lib
           [Opt "xero-consumer-key" "abc"; Opt "xero-key-path" "key.pem";
            Opt "data-dir" "~/data"]
           {[ "BaseConfig" := VConfig {[ "data_dir" := VStr "/proto" ]} ]}
           (returned ∅ r) BaseConfig "data_dir"
           (Unicode "" None
              [("metavar", KStr "PATH"); ("help", KStr "Directory to dump data")])
           (VStr "/home/user/data")).
  - reflexivity.
  - repeat constructor.
  - repeat constructor.
  - exact Hr.
  - apply list_elem_of_further, list_elem_of_further, list_elem_of_here.
  - apply list_elem_of_further, list_elem_of_further, list_elem_of_further,
      list_elem_of_here.
  - reflexivity.
  - reflexivity.
Defined.

(** ** Merging a layer *)

(** X20.  Merging a layer with [merge_source] never unsets a field of a
    section whose name has no dot (the layer holding a section or nothing
    under that name), leaves alone every item the layer lacks, and records
    the layer itself under its label in [_sources]. *)
Theorem merge_source_keeps
    (lib : library) (name : string) (other self c : gmap string pyval) :
  RichConfig.merge_source lib name other self = Return c →
  (∀ s k, Config._is_section_key s = true → char_in "." s = false →
          section_or_missing s other →
          is_Some (field s k self) → is_Some (field s k c))
  ∧ (∀ x, x ≠ "_sources" → other !! x = None → c !! x = self !! x)
  ∧ (other !! "_sources" = None →
     ∃ d, (c !! "_sources" = Some (VDict d) ∨ c !! "_sources" = Some (VConfig d))
          ∧ d !! name = Some (VConfig other)).
Proof.
  intros H. split; [|split].
  - intros s k Hs Hd Ho [v Hv].
    apply merge_source_inv in H as [src H].
    pose proof (section_key_not_sources s Hs) as Hne.
    unfold field in *.
    destruct (self !! s) as [[]|] eqn:E; try discriminate Hv.
    assert ((<["_sources" := src]> self) !! s = Some (VConfig c0)) as E'
      by by rewrite lookup_insert_ne.
    destruct Ho as [Ho | [o Ho]].
    + rewrite (merge_lookup_keep _ _ _ _ _ H Ho), E'. eauto.
    + destruct (merge_lookup_config _ _ _ _ _ _ _ H Hd E' Ho) as (m & Hm & ->).
      pose proof (merge_lookup _ _ _ _ k Hm) as Hk.
      destruct (o !! k) as [w|].
      * destruct Hk as [-> | (? & ? & ? & _ & _ & _ & ->)]; eauto.
      * rewrite Hk. eauto.
  - intros x Hx Ho. apply merge_source_inv in H as [src H].
    by rewrite (merge_lookup_keep _ _ _ _ _ H Ho), lookup_insert_ne.
  - intros Ho. unfold RichConfig.merge_source in H.
    destruct (self !! "_sources") as [[]|]; try discriminate H;
      rewrite (merge_lookup_keep _ _ _ _ _ H Ho), lookup_insert_eq;
      eexists; (split; [eauto|]); by rewrite lookup_insert_eq.
Qed.

Lemma merge_source_keeps_witness :
  is_Some (field "BaseConfig" "data_dir"
             (returned ∅
                (RichConfig.merge_source example_lib "file"
                   {[ "BaseConfig" := VConfig {[ "dump_path" := VStr "x.csv" ]} ]}
                   (<["BaseConfig" := VConfig {[ "data_dir" := VStr "/data" ]}]>
                      RichConfig.__init__)))).
Proof.
  refine (proj1 (merge_source_keeps example_lib "file"
           {[ "BaseConfig" := VConfig {[ "dump_path" := VStr "x.csv" ]} ]}
           (<["BaseConfig" := VConfig {[ "data_dir" := VStr "/data" ]}]>
              RichConfig.__init__) _ _) "BaseConfig" "data_dir" _ _ _ _).
  - apply returned_eq. reflexivity.
  - reflexivity.
  - reflexivity.
  - right. eexists. reflexivity.
  - eexists. reflexivity.
Defined.

(** A section whose name has a dot is replaced by a layer that holds a
    section of that name, and a field of the old section is lost. *)
Example merge_source_dotted :
  (field "X.Y" "a")
  <$> RichConfig.merge_source example_lib "file"
        {[ "X.Y" := VConfig {[ "b" := VInt 2 ]} ]}
        (<["X.Y" := VConfig {[ "a" := VInt 1 ]}]> RichConfig.__init__)
  = Return None.
Proof. reflexivity. Qed.

(** ** Whole runs of [load_config] *)

Lemma sections_only_ok c : sections_only c → sections_ok c.
Proof. intros H s _. apply H. Qed.

Lemma getitem_section key c :
  Config._is_section_key key = true → section_or_missing key c →
  ∃ d c', Config.getitem key c = Return (VConfig d, c')
          ∧ c' !! key = Some (VConfig d)
          ∧ (∀ x, x ≠ key → c' !! x = c !! x)
          ∧ (∀ k, d !! k = field key k c).
Proof.
  intros Hk [Hn|[d Hd]]; unfold Config.getitem, field.
  - rewrite Hn, Hk. exists ∅, (<[key := VConfig ∅]> c).
    split; [done|]. split; [apply lookup_insert_eq|]. split; [|done].
    intros x Hx. by rewrite lookup_insert_ne.
  - rewrite Hd. by exists d, c.
Qed.





(** *** When the merges return *)

Lemma char_in_snoc c first x :
  char_in c first = false → Ascii.eqb x c = false →
  char_in c (first +:+ String x "") = false.
Proof.
  intros Hf Hx. induction first as [|a first IH].
  - rewrite string_app_nil_l. cbn. by rewrite Hx.
  - rewrite string_app_cons. cbn [char_in] in *.
    apply orb_false_iff in Hf as [-> Hf]. by apply IH.
Qed.

(** The keys that are [in] a config that holds nothing but a [_sources]
    dictionary: [_sources], and [_sources.r] for a key [r] of the
    dictionary. *)
Lemma contains_from_sources d key : ∀ first,
  char_in "." first = false →
  ∃ b, Config.contains_from first key {[ "_sources" := VDict d ]} = Return b
       ∧ (b = true →
          first +:+ key = "_sources"
          ∨ ∃ r, first +:+ key = "_sources." +:+ r ∧ is_Some (d !! r)).
Proof.
  induction key as [|c key IH]; intros first Hfirst.
  - cbn [Config.contains_from]. eexists. split; [done|].
    intros [v Hv%lookup_singleton_Some]%bool_decide_eq_true.
    left. rewrite string_app_nil_r. by destruct Hv as [<- _].
  - cbn [Config.contains_from]. destruct (Ascii.eqb c ".") eqn:Hc.
    + apply Ascii.eqb_eq in Hc as ->.
      destruct (({[ "_sources" := VDict d ]} : gmap string pyval) !! first)
        as [v|] eqn:Hv; [|by exists false].
      apply lookup_singleton_Some in Hv as [<- <-]. cbn [in_value].
      eexists. split; [done|]. intros Hr%bool_decide_eq_true.
      right. by exists key.
    + destruct (IH (first +:+ String c "")) as (b & Hb & Hkey).
      { by apply char_in_snoc. }
      exists b. split; [done|]. by rewrite <- append_char_assoc.
Qed.

Lemma merge_fold_sources inplace other d name ks : ∀ upd,
  d !! name = Some (VConfig other) → (∀ r, is_Some (d !! r) → r = name) →
  no_source_section name other →
  ∃ upd', foldM (Config.merge_step inplace other)
            ({[ "_sources" := VDict d ]}, upd) ks
          = Return ({[ "_sources" := VDict d ]}, upd').
Proof.
  intros upd Hd Hdom Hother. revert upd.
  induction ks as [|k ks IH]; intros upd; [by exists upd|].
  cbn [foldM].
  assert (∃ upd1, Config.merge_step inplace other ({[ "_sources" := VDict d ]}, upd) k
                  = Return ({[ "_sources" := VDict d ]}, upd1)) as [upd1 ->];
    [|apply IH].
  destruct (other !! k) as [v|] eqn:Hk; [|by rewrite merge_step_absent; eauto].
  unfold Config.merge_step. rewrite Hk. unfold Config.__contains__.
  destruct (contains_from_sources d k "" eq_refl) as (b & -> & Hb).
  cbn [mbind result_bind]. destruct b; cbn [negb]; [|eauto].
  destruct (Hb eq_refl) as [Hkey | (r & Hkey & Hr)]; rewrite string_app_nil_l in Hkey.
  - subst k. destruct v; eauto.
  - apply Hdom in Hr as ->. subst k. destruct v; eauto. by destruct (Hother c).
Qed.

(** The proto layer goes into the fresh [RichConfig]: the merge returns
    unless the layer holds a [Config] under the key [_sources.proto], and
    takes over the layer. *)
Lemma merge_source_init lib name other :
  no_source_section name other →
  ∃ c, RichConfig.merge_source lib name other RichConfig.__init__ = Return c
       ∧ (∀ k, k ≠ "_sources" → c !! k = other !! k)
       ∧ (sections_only other → sources_ok c).
Proof.
  intros Hother. unfold RichConfig.merge_source, RichConfig.__init__.
  rewrite lookup_singleton_eq, insert_singleton_eq, insert_empty.
  set (d := {[ name := VConfig other ]} : gmap string pyval).
  destruct (Config.merge (items_order lib) {[ "_sources" := VDict d ]} other)
    as [c|e] eqn:Hm.
  - exists c. split; [done|]. split.
    + intros k Hk. apply (merge_lookup_new _ _ _ _ _ Hm).
      by apply lookup_singleton_ne.
    + intros Ho. destruct (Ho "_sources") as [Hn | [o Hs]].
      * exists d. left. rewrite (merge_lookup_keep _ _ _ _ _ Hm Hn).
        apply lookup_singleton_eq.
      * exists o. right.
        eapply (merge_lookup_over _ _ _ _ _ (VDict d)); [exact Hm| |done|exact Hs].
        apply lookup_singleton_eq.
  - exfalso. unfold Config.merge, Config.merge_loop in Hm.
    destruct (merge_fold_sources (Config.merge_into (items_order lib)
                                    <$> {[ "_sources" := VDict d ]})
                other d name (Config.items_keys (items_order lib) other) ∅)
      as [upd' Hf]; [apply lookup_singleton_eq| |done|by rewrite Hf in Hm].
    intros r [v Hv]. by apply lookup_singleton_Some in Hv as [<- _].
Qed.










(** ** Command lines that end the run *)

Lemma parse_cli_usage_exit os lib items toks :
  Forall (item_ok lib) items → usage_exit lib toks →
  parse_cli os lib (argv_of items ++ toks) = Raise SystemExit.
Proof.
  intros Hok Hexit.
  destruct (cli_table lib)
    as (ld & parser & Hld & Hargs & Hacts & Hflag & Hkeys & Hhelp & _).
  rewrite Forall_forall in Hkeys.
  assert (∀ key, dict_mem key (registry lib) = true →
            argparse.find_action ("--" +:+ key) parser ≫= argparse.action_of
            = Some (argparse.Store (dest_of lib key) false)) as Hopt.
  { intros key Hk. apply Hkeys. by apply dict_mem_elem. }
  unfold parse_cli, RichKVArgParseConfigLoader.load_config.
  rewrite Hld. cbn [mbind result_bind]. rewrite Hargs. cbn [mbind result_bind].
  unfold argparse.parse_known_args. rewrite Hacts.
  rewrite (parse_items_app lib parser items toks _ _ Hopt Hflag Hok).
  destruct Hexit as [(h & rest & Hh & ->) | (key & Hk & ->)];
    cbn [argparse.parse_fragment].
  - replace (startswith h "-") with true by (by destruct Hh as [-> | ->]).
    specialize (Hhelp h Hh).
    destruct (argparse.find_action h parser) as [a|]; [|discriminate Hhelp].
    cbn [mbind option_bind] in *. by rewrite Hhelp.
  - replace (startswith ("--" +:+ key) "-") with true by reflexivity.
    specialize (Hopt key Hk).
    destruct (argparse.find_action ("--" +:+ key) parser) as [a|]; [|discriminate Hopt].
    cbn [mbind option_bind] in *. by rewrite Hopt.
Qed.

(** X23.  Help and usage errors end the run before any file is looked
    at.  After any switches and shortcuts, a [-h] or [--help], or an alias
    switch that is the last token and so lacks its value, makes the parser
    exit: [load_config] ends with [SystemExit] on every file system (the
    [LogConfig] item of the proto layer being a section or missing, and the
    layer holding no [Config] under the key [_sources.proto]). *)
Theorem load_config_usage_exit
    (os : os_state) (lib : library) (items : list cli_item) (toks : list string)
    (proto_config : gmap string pyval) :
  Forall (item_ok lib) items →
  usage_exit lib toks →
  section_or_missing "LogConfig" proto_config →
  no_source_section "proto" proto_config →
  parse_cli os lib (argv_of items ++ toks) = Raise SystemExit
  ∧ load_config os lib (argv_of items ++ toks) proto_config = Raise SystemExit.
Proof.
  intros Hok Hexit Hlog Hnokey.
  pose proof (parse_cli_usage_exit os lib items toks Hok Hexit) as Hparse.
  split; [exact Hparse|].
  unfold load_config, load_config_before_file.
  destruct (merge_source_init lib "proto" proto_config Hnokey) as (c0 & -> & Hc0 & _).
  cbn [mbind result_bind].
  destruct (getitem_section "LogConfig" c0 eq_refl) as (lg & c1 & -> & _).
  { unfold section_or_missing. rewrite Hc0 by done. exact Hlog. }
  cbn [mbind result_bind py_kwargs].
  unfold load_cli_config. unfold parse_cli in Hparse.
  destruct (get_argparse_loader lib) as [ld|e]; cbn [mbind result_bind] in Hparse |- *.
  2: { by injection Hparse as ->. }
  change (Config.setitem "argparse_loader" (VObject "RichKVArgParseConfigLoader") c1)
    with (Return (<["argparse_loader" := VObject "RichKVArgParseConfigLoader"]> c1)
          : result (gmap string pyval)).
  cbn [mbind result_bind]. rewrite Hparse. reflexivity.
Qed.

Lemma load_config_usage_exit_witness :
  parse_cli example_os example_lib (argv_of [Flag verbose] ++ ["--config-path"])
  = Raise SystemExit
  ∧ load_config example_os example_lib
      (argv_of [Flag verbose] ++ ["--config-path"]) ∅
    = Raise SystemExit.
Proof.
  apply (load_config_usage_exit example_os example_lib [Flag verbose]
           ["--config-path"] ∅).
  - repeat constructor.
  - right. exists "config-path". split; reflexivity.
  - left. reflexivity.
  - intros o. discriminate.
Defined.
